(** * beetle.cli review session: text layout, comment parsing, navigation,
      comment merging and the event loop of [src/commands/review.ts]

    A JavaScript string is a sequence of UTF-16 code units, and every
    operation the review command uses ([length], indexing, [substring],
    regular expressions without the [u] flag) works on code units.  Strings
    are therefore lists of code units ([N]).  JavaScript numbers that hold
    indices, offsets and counters are integers in the code and are [Z]
    here. *)

From Stdlib Require Import ZArith NArith List Bool Lia String Ascii DecimalString.
From stdpp Require Import base tactics option list numbers.
Import ListNotations.

Local Open Scope Z_scope.

(** ** Strings *)

Definition jsstring := list N.

(** Code units of a literal written with ASCII characters. *)
Definition js (s : string) : jsstring :=
  List.map N_of_ascii (list_ascii_of_string s).

Definition jslen (s : jsstring) : Z := Z.of_nat (length s).

(** [s.substring(a, b)] for integer arguments: both ends are clamped to
    [0, s.length] and swapped when [a > b]. *)
Definition substring (s : jsstring) (a b : Z) : jsstring :=
  let clamp x := Z.min (Z.max x 0) (jslen s) in
  let lo := Z.min (clamp a) (clamp b) in
  let hi := Z.max (clamp a) (clamp b) in
  take (Z.to_nat (hi - lo)) (drop (Z.to_nat lo) s).

(** A string is truthy when it is not empty. *)
Definition truthy (s : jsstring) : bool :=
  match s with [] => false | _ => true end.

(** [a || b] on strings. *)
Definition orElse (a b : jsstring) : jsstring := if truthy a then a else b.

(** ** Character classes of the regular expressions in the source *)

Module Chars.

Definition ESC : N := 27%N.
Definition LF : N := 10%N.

Definition inRange (lo hi c : N) : bool := (lo <=? c)%N && (c <=? hi)%N.

(** [\s], which is also the set [String.prototype.trim] removes:
    WhiteSpace and LineTerminator code points. *)
Definition isSpace (c : N) : bool :=
  inRange 9 13 c || (c =? 32)%N || (c =? 160)%N || (c =? 5760)%N
  || inRange 8192 8202 c || (c =? 8232)%N || (c =? 8233)%N
  || (c =? 8239)%N || (c =? 8287)%N || (c =? 12288)%N || (c =? 65279)%N.

(** [\d] and [[0-9]] *)
Definition isDigit (c : N) : bool := inRange 48 57 c.

Definition isUpper (c : N) : bool := inRange 65 90 c.
Definition isLower (c : N) : bool := inRange 97 122 c.

(** [\w] *)
Definition isWord (c : N) : bool :=
  isUpper c || isLower c || isDigit c || (c =? 95)%N.

(** [[0-9;]] *)
Definition isSgrParam (c : N) : bool := isDigit c || (c =? 59)%N.

(** [.] without the [s] flag: anything but a line terminator *)
Definition isDot (c : N) : bool :=
  negb ((c =? 10)%N || (c =? 13)%N || (c =? 8232)%N || (c =? 8233)%N).

(** [[\s\S]] *)
Definition isAny (_ : N) : bool := true.

(** [[^\n]] and [[^*]] *)
Definition notLF (c : N) : bool := negb (c =? 10)%N.
Definition notStar (c : N) : bool := negb (c =? 42)%N.

(** Case folding of the [i] flag without the [u] flag: a pattern character
    that is an ASCII letter matches its two ASCII cases and nothing else
    (a code unit of 128 or more never folds onto an ASCII one). *)
Definition swapCase (c : N) : N :=
  if isUpper c then (c + 32)%N else if isLower c then (c - 32)%N else c.

Definition charMatches (ci : bool) (p c : N) : bool :=
  (c =? p)%N || (ci && (c =? swapCase p)%N).

End Chars.

(** ** A backtracking matcher for the regular expressions of the source

    The constructors cover what the patterns of [review.ts] use: literal
    characters, classes, sequence, alternation, the optional group, greedy
    and lazy repetition of a class, one capture group and [$].  Matching is
    the usual backtracking search with an explicit continuation, so greedy
    and lazy quantifiers give up characters in the order a JavaScript engine
    does. *)

Module Regex.

Inductive regex :=
| REps
| RChar (c : N)
| RClass (p : N -> bool)
| RSeq (a b : regex)
| RAlt (a b : regex)
| ROpt (a : regex)
| RRep (greedy : bool) (min : nat) (p : N -> bool)
| RGroup (a : regex)
| REnd.

(** A literal string as a sequence of literal characters. *)
Fixpoint RStrN (cs : list N) : regex :=
  match cs with
  | [] => REps
  | c :: t => RSeq (RChar c) (RStrN t)
  end.

Definition RStr (s : string) : regex := RStrN (js s).

(** Concatenation of the parts of a pattern, in order. *)
Fixpoint RCat (rs : list regex) : regex :=
  match rs with
  | [] => REps
  | r :: t => RSeq r (RCat t)
  end.

(** The result of a match at one position: the rest of the input and the
    text of the capture group. *)
Definition mres : Type := jsstring * option jsstring.

Definition orTry (a b : option mres) : option mres :=
  match a with Some r => Some r | None => b end.

Fixpoint repGreedy (p : N -> bool) (min : nat) (s : jsstring)
    (k : jsstring -> option mres) : option mres :=
  match s with
  | c :: t =>
      if p c
      then orTry (repGreedy p (Nat.pred min) t k)
                 (match min with O => k s | S _ => None end)
      else match min with O => k s | S _ => None end
  | [] => match min with O => k [] | S _ => None end
  end.

Fixpoint repLazy (p : N -> bool) (min : nat) (s : jsstring)
    (k : jsstring -> option mres) : option mres :=
  match min with
  | O =>
      orTry (k s)
            (match s with
             | c :: t => if p c then repLazy p O t k else None
             | [] => None
             end)
  | S m =>
      match s with
      | c :: t => if p c then repLazy p m t k else None
      | [] => None
      end
  end.

Fixpoint rmatch (ci : bool) (r : regex) (s : jsstring) (cap : option jsstring)
    (k : jsstring -> option jsstring -> option mres) : option mres :=
  match r with
  | REps => k s cap
  | RChar p =>
      match s with
      | c :: t => if Chars.charMatches ci p c then k t cap else None
      | [] => None
      end
  | RClass p =>
      match s with
      | c :: t => if p c then k t cap else None
      | [] => None
      end
  | RSeq a b => rmatch ci a s cap (fun s' cap' => rmatch ci b s' cap' k)
  | RAlt a b => orTry (rmatch ci a s cap k) (rmatch ci b s cap k)
  | ROpt a => orTry (rmatch ci a s cap k) (k s cap)
  | RRep true min p => repGreedy p min s (fun s' => k s' cap)
  | RRep false min p => repLazy p min s (fun s' => k s' cap)
  | RGroup a =>
      rmatch ci a s cap
        (fun s' _ => k s' (Some (take (length s - length s') s)))
  | REnd => match s with [] => k [] cap | _ :: _ => None end
  end.

(** One attempt at the current position. *)
Definition exec (ci : bool) (r : regex) (s : jsstring) : option mres :=
  rmatch ci r s None (fun s' cap => Some (s', cap)).

(** The first match, scanning start positions from left to right
    ([String.prototype.match] without the [g] flag): the text before the
    match, the rest after it and the capture. *)
Record found := { before : jsstring; after : jsstring; group1 : option jsstring }.

Fixpoint searchFrom (ci : bool) (r : regex) (pre s : jsstring) : option found :=
  match exec ci r s with
  | Some (rest, cap) => Some {| before := pre; after := rest; group1 := cap |}
  | None =>
      match s with
      | [] => None
      | c :: t => searchFrom ci r (pre ++ [c]) t
      end
  end.

Definition search (ci : bool) (r : regex) (s : jsstring) : option found :=
  searchFrom ci r [] s.

(** [m?.[1] || ''] *)
Definition capture1 (m : option found) : jsstring :=
  match m with
  | Some f => match group1 f with Some g => g | None => [] end
  | None => []
  end.

(** [s.replace(r, '')] with the [g] flag: every match, left to right, is
    dropped; [skip] counts the characters of the current match that are
    still to be dropped.  An empty match drops nothing and the scan moves
    on by one character. *)
Fixpoint removeGo (ci : bool) (r : regex) (skip : nat) (s : jsstring) : jsstring :=
  match s with
  | [] => []
  | c :: t =>
      match skip with
      | S n => removeGo ci r n t
      | O =>
          match exec ci r s with
          | Some (rest, _) =>
              match (length s - length rest)%nat with
              | O => c :: removeGo ci r O t
              | S n => removeGo ci r n t
              end
          | None => c :: removeGo ci r O t
          end
      end
  end.

Definition removeAll (ci : bool) (r : regex) (s : jsstring) : jsstring :=
  removeGo ci r O s.

(** [s.replace(r, '')] without the [g] flag: the first match only. *)
Definition removeFirst (ci : bool) (r : regex) (s : jsstring) : jsstring :=
  match search ci r s with
  | Some f => before f ++ after f
  | None => s
  end.

End Regex.
Import Regex.

(** ** Text layout utilities *)

(** [/\x1B\[[0-9;]*m/] *)
Definition reSgr : regex :=
  RCat [RChar Chars.ESC; RChar 91; RRep true 0 Chars.isSgrParam; RChar 109].

(** [stripAnsi]: [str.replace(/\x1B\[[0-9;]*m/g, '')] *)
Definition stripAnsi (str : jsstring) : jsstring := removeAll false reSgr str.

(** [stripAnsi(str).length], the visible length of a string. *)
Definition visibleLength (str : jsstring) : Z := jslen (stripAnsi str).


(** [padAnsi]: pad to a target width, counting visible characters only. *)
Definition padAnsi (str : jsstring) (width : Z) : jsstring :=
  let visible := visibleLength str in
  let pad := Z.max 0 (width - visible) in
  str ++ repeat 32%N (Z.to_nat pad).

(** The loop variables of [truncate]. *)
Record truncState := {
  tResult : jsstring;
  tVisibleCount : Z;
  tInAnsi : bool;
  tAnsiStart : Z
}.

(** The body of the [for] loop of [truncate] at index [i]. *)
Definition truncStep (i : Z) (char : N) (st : truncState) : truncState :=
  if (char =? Chars.ESC)%N then
    {| tResult := tResult st ++ [char]; tVisibleCount := tVisibleCount st;
       tInAnsi := true; tAnsiStart := i |}
  else if tInAnsi st then
    if (char =? 109)%N then
      {| tResult := tResult st ++ [char]; tVisibleCount := tVisibleCount st;
         tInAnsi := false; tAnsiStart := -1 |}
    else
      {| tResult := tResult st ++ [char]; tVisibleCount := tVisibleCount st;
         tInAnsi := true; tAnsiStart := tAnsiStart st |}
  else
    {| tResult := tResult st ++ [char]; tVisibleCount := tVisibleCount st + 1;
       tInAnsi := false; tAnsiStart := tAnsiStart st |}.

(** [for (let i = 0; i < str.length && visibleCount < maxLen - 3; i++)];
    [rest] is [str] from index [i] on. *)
Fixpoint truncLoop (maxLen : Z) (i : Z) (rest : jsstring) (st : truncState) : truncState :=
  match rest with
  | [] => st
  | char :: t =>
      if tVisibleCount st <? maxLen - 3
      then truncLoop maxLen (i + 1) t (truncStep i char st)
      else st
  end.

Definition truncInit : truncState :=
  {| tResult := []; tVisibleCount := 0; tInAnsi := false; tAnsiStart := -1 |}.

Definition truncate (str : jsstring) (maxLen : Z) : jsstring :=
  let visibleLen := visibleLength str in
  if visibleLen <=? maxLen then str
  else
    let st := truncLoop maxLen 0 str truncInit in
    let result :=
      if tInAnsi st && (tAnsiStart st >=? 0) then
        let result1 := substring (tResult st) 0 (tAnsiStart st) in
        let visibleCount := visibleLength result1 in
        if visibleCount >? maxLen - 3
        then substring result1 0 (jslen result1 - (visibleCount - (maxLen - 3)))
        else result1
      else tResult st in
    result ++ js "...".

(** [truncateLine] *)
Definition truncateLine (str : jsstring) (maxWidth : Z) : jsstring :=
  let visibleLen := visibleLength str in
  if visibleLen <=? maxWidth then str else truncate str maxWidth.

(** [text.split(/\s+/)]: the pieces between maximal runs of white space;
    [cur] is the piece being read and [inRun] tells that the previous
    character was white space.  A leading or trailing run leaves an empty
    piece, and the empty string gives one empty piece. *)
Fixpoint splitWsGo (cur : jsstring) (inRun : bool) (s : jsstring) : list jsstring :=
  match s with
  | [] => [cur]
  | c :: t =>
      if Chars.isSpace c
      then if inRun then splitWsGo [] true t else cur :: splitWsGo [] true t
      else splitWsGo (cur ++ [c]) false t
  end.

Definition splitWs (text : jsstring) : list jsstring := splitWsGo [] false text.

(** One round of the [for (const word of words)] loop of [wordWrap] on the
    pair ([lines], [currentLine]). *)
Definition wrapStep (maxWidth : Z) (st : list jsstring * jsstring) (word : jsstring)
    : list jsstring * jsstring :=
  let '(lines, currentLine) := st in
  let testLine := if truthy currentLine then currentLine ++ js " " ++ word else word in
  let testLength := visibleLength testLine in
  if testLength >? maxWidth then
    if truthy currentLine then (lines ++ [currentLine], word)
    else (lines ++ [truncate word maxWidth], [])
  else (lines, testLine).

Definition wordWrap (text : jsstring) (maxWidth : Z) : list jsstring :=
  let words := splitWs text in
  let '(lines, currentLine) := fold_left (wrapStep maxWidth) words ([], []) in
  if truthy currentLine then lines ++ [currentLine] else lines.

(** ** Comment parsing *)

(** [String.prototype.trim] *)
Fixpoint trimStart (s : jsstring) : jsstring :=
  match s with
  | c :: t => if Chars.isSpace c then trimStart t else s
  | [] => []
  end.

Definition trimEnd (s : jsstring) : jsstring := rev (trimStart (rev s)).

Definition trim (s : jsstring) : jsstring := trimEnd (trimStart s).

(** [s.split('\n')]; [cur] is the line being read. *)
Fixpoint splitLinesGo (cur : jsstring) (s : jsstring) : list jsstring :=
  match s with
  | [] => [cur]
  | c :: t =>
      if (c =? Chars.LF)%N then cur :: splitLinesGo [] t
      else splitLinesGo (cur ++ [c]) t
  end.

Definition splitLines (s : jsstring) : list jsstring := splitLinesGo [] s.

(** [parseInt] of a string of decimal digits (what [(\d+)] captures, or
    ['0']).  The value is exact; JavaScript rounds it to a double beyond
    2^53. *)
Definition parseInt (s : jsstring) : Z :=
  fold_left (fun acc c => 10 * acc + (Z.of_N c - 48)) s 0.

Definition ws : regex := RRep true 0 Chars.isSpace.
Definition lazyAny : regex := RRep false 0 Chars.isAny.

(** [/\*\*Severity\*\*:\s*(\w+)/i] *)
Definition reSeverity : regex :=
  RCat [RStr "**Severity**:"; ws; RGroup (RRep true 1 Chars.isWord)].

(** [/\*\*Line_Start\*\*:\s*(\d+)/i] *)
Definition reLineStart : regex :=
  RCat [RStr "**Line_Start**:"; ws; RGroup (RRep true 1 Chars.isDigit)].

(** [/\*\*Line_End\*\*:\s*(\d+)/i] *)
Definition reLineEnd : regex :=
  RCat [RStr "**Line_End**:"; ws; RGroup (RRep true 1 Chars.isDigit)].

(** [/\*\*Title\*\*:\s*([^\n]+)/i] *)
Definition reTitle : regex :=
  RCat [RStr "**Title**:"; ws; RGroup (RRep true 1 Chars.notLF)].

(** [/<details>\s*<summary>\s*Suggested Fix\s*<\/summary>([\s\S]*?)<\/details>/i] *)
Definition reSuggestedFix : regex :=
  RCat [RStr "<details>"; ws; RStr "<summary>"; ws; RStr "Suggested Fix"; ws;
        RStr "</summary>"; RGroup lazyAny; RStr "</details>"].

(** [/<details>\s*<summary>\s*Prompt for AI\s*<\/summary>([\s\S]*?)<\/details>/i] *)
Definition rePromptForAI : regex :=
  RCat [RStr "<details>"; ws; RStr "<summary>"; ws; RStr "Prompt for AI"; ws;
        RStr "</summary>"; RGroup lazyAny; RStr "</details>"].

(** [/```(?:suggestion)?\s*([\s\S]*?)```/] *)
Definition reInnerCodeBlock : regex :=
  RCat [RStr "```"; ROpt (RStr "suggestion"); ws; RGroup lazyAny; RStr "```"].

(** [/\*\*Copy this prompt.*?\*\*[\s\S]*?:/i] *)
Definition reCopyHeader : regex :=
  RCat [RStr "**Copy this prompt"; RRep false 0 Chars.isDot; RStr "**";
        lazyAny; RChar 58].

(** [/\*\*Prompt (?:for|to) (?:Fix with )?AI[^*]*\*\*:?\s*([\s\S]*?)(?:\n\n##|\n\n\*\*|$)/i] *)
Definition reOldPrompt : regex :=
  RCat [RStr "**Prompt "; RAlt (RStr "for") (RStr "to"); RStr " ";
        ROpt (RStr "Fix with "); RStr "AI"; RRep true 0 Chars.notStar;
        RStr "**"; ROpt (RChar 58); ws; RGroup lazyAny;
        RAlt (RStrN [10; 10; 35; 35]%N) (RAlt (RStrN [10; 10; 42; 42]%N) REnd)].

(** [/\*\*<name>\*\*:[^\n]*\n?/gi], the marker lines removed from the
    description. *)
Definition reMarkerLine (name : string) : regex :=
  RCat [RStr "**"; RStr name; RStr "**:"; RRep true 0 Chars.notLF; ROpt (RChar Chars.LF)].

(** [/<details>[\s\S]*?<\/details>/gi] *)
Definition reDetails : regex :=
  RCat [RStr "<details>"; lazyAny; RStr "</details>"].

(** The object [parseCommentMetadata] returns. *)
Record ParsedComment := {
  title : jsstring;
  severity : jsstring;
  lineStart : Z;
  lineEnd : Z;
  description : jsstring;
  codeBlock : jsstring;
  aiPrompt : jsstring
}.

(** Step 2 of [parseCommentMetadata]: the "Suggested Fix" section.  The
    fallback branch of the source looks for generic fences and assigns
    nothing. *)
Definition parseCodeBlock (content : jsstring) : jsstring :=
  match search true reSuggestedFix content with
  | Some fixMatch => trim (capture1 (Some fixMatch))
  | None => []
  end.

(** Step 3: the "Prompt for AI" section, else the older inline marker. *)
Definition parseAiPrompt (content : jsstring) : jsstring :=
  match search true rePromptForAI content with
  | Some aiPromptMatch =>
      let inner := capture1 (Some aiPromptMatch) in
      match search false reInnerCodeBlock inner with
      | Some innerCodeBlock => trim (capture1 (Some innerCodeBlock))
      | None => trim (removeFirst true reCopyHeader inner)
      end
  | None =>
      match search true reOldPrompt content with
      | Some oldPromptMatch => trim (capture1 (Some oldPromptMatch))
      | None => []
      end
  end.

(** Step 4: the description, the text left after the markers and the
    collapsible sections are removed. *)
Definition parseDescription (content : jsstring) : jsstring :=
  let s1 := removeAll false (RStr "[PR_COMMENT_START]") content in
  let s2 := removeAll false (RStr "[PR_COMMENT_END]") s1 in
  let s3 := removeAll true (reMarkerLine "File") s2 in
  let s4 := removeAll true (reMarkerLine "Line_Start") s3 in
  let s5 := removeAll true (reMarkerLine "Line_End") s4 in
  let s6 := removeAll true (reMarkerLine "Severity") s5 in
  let s7 := removeAll true (reMarkerLine "Confidence") s6 in
  let s8 := removeAll true (reMarkerLine "Title") s7 in
  let s9 := removeAll true reDetails s8 in
  trim s9.

(** [description.split('\n').find(l => l.trim().length > 0) || ''] *)
Definition firstNonEmptyLine (description : jsstring) : jsstring :=
  match List.find (fun l => 0 <? jslen (trim l)) (splitLines description) with
  | Some l => l
  | None => []
  end.

(** The title taken from the description when there is no title marker. *)
Definition derivedTitle (description : jsstring) : jsstring :=
  let firstLine := firstNonEmptyLine description in
  if jslen firstLine >? 60 then substring firstLine 0 57 ++ js "..." else firstLine.

Definition parseTitle (content description : jsstring) : jsstring :=
  let title0 := capture1 (search true reTitle content) in
  let title1 :=
    if negb (truthy title0) && truthy description
    then derivedTitle description else title0 in
  if negb (truthy title1) then js "Issue Identified" else title1.

Definition parseCommentMetadata (content : jsstring) : ParsedComment :=
  let severityMatch := search true reSeverity content in
  let lineStartMatch := search true reLineStart content in
  let lineEndMatch := search true reLineEnd content in
  let codeBlock := parseCodeBlock content in
  let aiPrompt := parseAiPrompt content in
  let description := parseDescription content in
  {| title := parseTitle content description;
     severity := orElse (capture1 severityMatch) (js "Medium");
     lineStart := parseInt (orElse (capture1 lineStartMatch) (js "0"));
     lineEnd := parseInt (orElse (capture1 lineEndMatch) (js "0"));
     description := description;
     codeBlock := codeBlock;
     aiPrompt := aiPrompt |}.

(** [s.toLowerCase()] on ASCII letters, enough for the severity labels the
    source compares with. *)
Definition toLowerAscii (s : jsstring) : jsstring :=
  List.map (fun c => if Chars.isUpper c then (c + 32)%N else c) s.

(** ** Session state *)

Module Api.
(** [ReviewComment] of [api.ts], as the review service returns it. *)
Record ReviewComment := {
  id : jsstring;
  file_path : jsstring;
  line_start : Z;
  line_end : Z;
  severity : jsstring;
  confidence : jsstring;
  title : jsstring;
  content : jsstring;
  created_at : jsstring
}.

(** [analysis_status] of [AnalysisStatus] *)
Inductive AnalysisStatus := running | completed | failed | interrupted.
End Api.

Record FileGroup := {
  filePath : jsstring;
  comments : list Api.ReviewComment;
  expanded : bool
}.

Inductive Mode := list_mode | detail_mode.
Inductive Panel := left_panel | right_panel.

(** [ReviewState]; [status] is declared as one of three labels and is
    assigned the polled status through a cast, so it ranges over the four
    labels of the service. *)
Record ReviewState := {
  dataId : option jsstring;
  mode : Mode;
  focusedPanel : Panel;
  files : list FileGroup;
  selectedFileIndex : Z;
  selectedCommentIndex : Z;
  detailScrollOffset : Z;
  leftPanelScrollOffset : Z;
  totalComments : Z;
  resolvedComments : Z;
  status : Api.AnalysisStatus;
  spinnerFrame : Z
}.

(** Assignments to the fields of the state. *)
Definition set_mode (v : Mode) (s : ReviewState) : ReviewState :=
  {| dataId := dataId s; mode := v; focusedPanel := focusedPanel s; files := files s;
     selectedFileIndex := selectedFileIndex s; selectedCommentIndex := selectedCommentIndex s;
     detailScrollOffset := detailScrollOffset s; leftPanelScrollOffset := leftPanelScrollOffset s;
     totalComments := totalComments s; resolvedComments := resolvedComments s;
     status := status s; spinnerFrame := spinnerFrame s |}.

Definition set_focusedPanel (v : Panel) (s : ReviewState) : ReviewState :=
  {| dataId := dataId s; mode := mode s; focusedPanel := v; files := files s;
     selectedFileIndex := selectedFileIndex s; selectedCommentIndex := selectedCommentIndex s;
     detailScrollOffset := detailScrollOffset s; leftPanelScrollOffset := leftPanelScrollOffset s;
     totalComments := totalComments s; resolvedComments := resolvedComments s;
     status := status s; spinnerFrame := spinnerFrame s |}.

Definition set_files (v : list FileGroup) (s : ReviewState) : ReviewState :=
  {| dataId := dataId s; mode := mode s; focusedPanel := focusedPanel s; files := v;
     selectedFileIndex := selectedFileIndex s; selectedCommentIndex := selectedCommentIndex s;
     detailScrollOffset := detailScrollOffset s; leftPanelScrollOffset := leftPanelScrollOffset s;
     totalComments := totalComments s; resolvedComments := resolvedComments s;
     status := status s; spinnerFrame := spinnerFrame s |}.

Definition set_selectedFileIndex (v : Z) (s : ReviewState) : ReviewState :=
  {| dataId := dataId s; mode := mode s; focusedPanel := focusedPanel s; files := files s;
     selectedFileIndex := v; selectedCommentIndex := selectedCommentIndex s;
     detailScrollOffset := detailScrollOffset s; leftPanelScrollOffset := leftPanelScrollOffset s;
     totalComments := totalComments s; resolvedComments := resolvedComments s;
     status := status s; spinnerFrame := spinnerFrame s |}.

Definition set_selectedCommentIndex (v : Z) (s : ReviewState) : ReviewState :=
  {| dataId := dataId s; mode := mode s; focusedPanel := focusedPanel s; files := files s;
     selectedFileIndex := selectedFileIndex s; selectedCommentIndex := v;
     detailScrollOffset := detailScrollOffset s; leftPanelScrollOffset := leftPanelScrollOffset s;
     totalComments := totalComments s; resolvedComments := resolvedComments s;
     status := status s; spinnerFrame := spinnerFrame s |}.

Definition set_detailScrollOffset (v : Z) (s : ReviewState) : ReviewState :=
  {| dataId := dataId s; mode := mode s; focusedPanel := focusedPanel s; files := files s;
     selectedFileIndex := selectedFileIndex s; selectedCommentIndex := selectedCommentIndex s;
     detailScrollOffset := v; leftPanelScrollOffset := leftPanelScrollOffset s;
     totalComments := totalComments s; resolvedComments := resolvedComments s;
     status := status s; spinnerFrame := spinnerFrame s |}.

Definition set_leftPanelScrollOffset (v : Z) (s : ReviewState) : ReviewState :=
  {| dataId := dataId s; mode := mode s; focusedPanel := focusedPanel s; files := files s;
     selectedFileIndex := selectedFileIndex s; selectedCommentIndex := selectedCommentIndex s;
     detailScrollOffset := detailScrollOffset s; leftPanelScrollOffset := v;
     totalComments := totalComments s; resolvedComments := resolvedComments s;
     status := status s; spinnerFrame := spinnerFrame s |}.

Definition set_totalComments (v : Z) (s : ReviewState) : ReviewState :=
  {| dataId := dataId s; mode := mode s; focusedPanel := focusedPanel s; files := files s;
     selectedFileIndex := selectedFileIndex s; selectedCommentIndex := selectedCommentIndex s;
     detailScrollOffset := detailScrollOffset s; leftPanelScrollOffset := leftPanelScrollOffset s;
     totalComments := v; resolvedComments := resolvedComments s;
     status := status s; spinnerFrame := spinnerFrame s |}.

Definition set_status (v : Api.AnalysisStatus) (s : ReviewState) : ReviewState :=
  {| dataId := dataId s; mode := mode s; focusedPanel := focusedPanel s; files := files s;
     selectedFileIndex := selectedFileIndex s; selectedCommentIndex := selectedCommentIndex s;
     detailScrollOffset := detailScrollOffset s; leftPanelScrollOffset := leftPanelScrollOffset s;
     totalComments := totalComments s; resolvedComments := resolvedComments s;
     status := v; spinnerFrame := spinnerFrame s |}.

Definition set_spinnerFrame (v : Z) (s : ReviewState) : ReviewState :=
  {| dataId := dataId s; mode := mode s; focusedPanel := focusedPanel s; files := files s;
     selectedFileIndex := selectedFileIndex s; selectedCommentIndex := selectedCommentIndex s;
     detailScrollOffset := detailScrollOffset s; leftPanelScrollOffset := leftPanelScrollOffset s;
     totalComments := totalComments s; resolvedComments := resolvedComments s;
     status := status s; spinnerFrame := v |}.

Definition set_expanded (v : bool) (f : FileGroup) : FileGroup :=
  {| filePath := filePath f; comments := comments f; expanded := v |}.

Definition isDetail (s : ReviewState) : bool :=
  match mode s with detail_mode => true | list_mode => false end.

Definition isLeft (s : ReviewState) : bool :=
  match focusedPanel s with left_panel => true | right_panel => false end.

Definition isRunning (s : ReviewState) : bool :=
  match status s with Api.running => true | _ => false end.

(** [arr[i]] for an integer [i]: [undefined] out of range. *)
Definition at_index {A} (l : list A) (i : Z) : option A :=
  if i <? 0 then None else l !! Z.to_nat i.

(** The state [runReviewSession] starts from. *)
Definition initialState (dataId : jsstring) : ReviewState :=
  {| dataId := Some dataId; mode := list_mode; focusedPanel := left_panel; files := [];
     selectedFileIndex := 0; selectedCommentIndex := -1;
     detailScrollOffset := 0; leftPanelScrollOffset := 0;
     totalComments := 0; resolvedComments := 0;
     status := Api.running; spinnerFrame := 0 |}.

(** ** Navigation *)

Definition getTotalNavigableItems (state : ReviewState) : Z :=
  fold_left (fun count f =>
               let count1 := count + 1 in
               if expanded f then count1 + Z.of_nat (length (comments f)) else count1)
            (files state) 0.

(** The closing lines of [navigateUp] and [navigateDown]. *)
Definition resetDetailScroll (state : ReviewState) : ReviewState :=
  if isDetail state then set_detailScrollOffset 0 state else state.

(** [navigateUp]; [None] is the [TypeError] of reading [prevFile.expanded]
    when the decremented file index is past the end of [files]. *)
Definition navigateUp (state : ReviewState) : option ReviewState :=
  if selectedCommentIndex state >? 0 then
    Some (resetDetailScroll
            (set_selectedCommentIndex (selectedCommentIndex state - 1) state))
  else if selectedCommentIndex state =? 0 then
    Some (resetDetailScroll (set_selectedCommentIndex (-1) state))
  else if selectedFileIndex state >? 0 then
    let state1 := set_selectedFileIndex (selectedFileIndex state - 1) state in
    match at_index (files state1) (selectedFileIndex state1) with
    | None => None
    | Some prevFile =>
        if expanded prevFile && (Z.of_nat (length (comments prevFile)) >? 0)
        then Some (resetDetailScroll
                     (set_selectedCommentIndex
                        (Z.of_nat (length (comments prevFile)) - 1) state1))
        else Some (resetDetailScroll (set_selectedCommentIndex (-1) state1))
    end
  else Some (resetDetailScroll state).

Definition navigateDown (state : ReviewState) : ReviewState :=
  match at_index (files state) (selectedFileIndex state) with
  | None => state
  | Some file =>
      let last := Z.of_nat (length (files state)) - 1 in
      let state1 :=
        if selectedCommentIndex state =? -1 then
          if expanded file && (Z.of_nat (length (comments file)) >? 0) then
            set_selectedCommentIndex 0 state
          else if selectedFileIndex state <? last then
            set_selectedCommentIndex (-1)
              (set_selectedFileIndex (selectedFileIndex state + 1) state)
          else state
        else if selectedCommentIndex state <? Z.of_nat (length (comments file)) - 1 then
          set_selectedCommentIndex (selectedCommentIndex state + 1) state
        else if selectedFileIndex state <? last then
          set_selectedCommentIndex (-1)
            (set_selectedFileIndex (selectedFileIndex state + 1) state)
        else state in
      resetDetailScroll state1
  end.

(** ** Key handling *)

(** A decoded SGR mouse report, the groups of
    [/\x1B\[<(\d+);(\d+);(\d+)([Mm])/] on [key.sequence]: button code,
    column, and whether the final letter is the lower-case [m] of a
    release. *)
Record MouseReport := { button : Z; column : Z; release : bool }.

(** A [readline.Key]: its [name] (absent for some sequences), the [ctrl]
    flag, and the mouse report its [sequence] decodes to, if any. *)
Record Key := { name : option jsstring; ctrl : bool; mouse : option MouseReport }.

Definition named (key : Key) (n : string) : bool :=
  match name key with
  | Some s => bool_decide (s = js n)
  | None => false
  end.

Inductive Action := render_action | quit_action | copy_action | none_action.

Definition isUpKey (key : Key) : bool := named key "up" || named key "k".
Definition isDownKey (key : Key) : bool := named key "down" || named key "j".

(** The block of [handleKeypress] that compares the cursor before and after
    a move and resets the detail scroll in detail mode. *)
Definition afterMove (state newState : ReviewState) : ReviewState :=
  if isDetail newState
     && (negb (selectedCommentIndex newState =? selectedCommentIndex state)
         || negb (selectedFileIndex newState =? selectedFileIndex state))
  then set_detailScrollOffset 0 newState else newState.

(** The toggle of the selected file's [expanded] flag. *)
Definition toggleExpanded (state : ReviewState) : ReviewState :=
  match at_index (files state) (selectedFileIndex state) with
  | None => state
  | Some file =>
      let file' := set_expanded (negb (expanded file)) file in
      let state1 :=
        set_files (<[Z.to_nat (selectedFileIndex state) := file']> (files state)) state in
      if negb (expanded file') then set_selectedCommentIndex (-1) state1 else state1
  end.

(** [handleKeypress]; the branches are tried in the order of the source.
    [None] is the exception [navigateUp] can raise. *)
Definition handleKeypress (state : ReviewState) (key : option Key)
    : option (ReviewState * Action) :=
  match key with
  | None => Some (state, none_action)
  | Some key =>
    let onLeft := negb (isDetail state) || (isDetail state && isLeft state) in
    if named key "q" || (ctrl key && named key "c") then
      Some (state, quit_action)
    else if isDetail state && named key "tab" then
      Some (set_focusedPanel (if isLeft state then right_panel else left_panel) state,
            render_action)
    else if onLeft && isDetail state && isLeft state && ctrl key && isUpKey key then
      Some (set_leftPanelScrollOffset (Z.max 0 (leftPanelScrollOffset state - 1)) state,
            render_action)
    else if onLeft && isDetail state && isLeft state && ctrl key && isDownKey key then
      Some (set_leftPanelScrollOffset (Z.min 1000 (leftPanelScrollOffset state + 1)) state,
            render_action)
    else if onLeft && isUpKey key then
      match navigateUp state with
      | None => None
      | Some newState => Some (afterMove state newState, render_action)
      end
    else if onLeft && isDownKey key then
      Some (afterMove state (navigateDown state), render_action)
    else if isDetail state && negb (isLeft state) && isUpKey key then
      Some (set_detailScrollOffset (Z.max 0 (detailScrollOffset state - 1)) state,
            render_action)
    else if isDetail state && negb (isLeft state) && isDownKey key then
      Some (set_detailScrollOffset (detailScrollOffset state + 1) state, render_action)
    else if isDetail state && isLeft state && isUpKey key then
      Some (set_leftPanelScrollOffset (Z.max 0 (leftPanelScrollOffset state - 1)) state,
            render_action)
    else if isDetail state && isLeft state && isDownKey key then
      Some (set_leftPanelScrollOffset (leftPanelScrollOffset state + 1) state,
            render_action)
    else if (named key "right" || named key "return")
            && (selectedCommentIndex state >=? 0) && negb (isDetail state) then
      Some (set_leftPanelScrollOffset 0
              (set_detailScrollOffset 0
                 (set_focusedPanel right_panel (set_mode detail_mode state))),
            render_action)
    else if (named key "left" || named key "escape") && isDetail state then
      if negb (isLeft state)
      then Some (set_focusedPanel left_panel state, render_action)
      else Some (set_mode list_mode state, render_action)
    else if onLeft && named key "return" && (selectedCommentIndex state =? -1) then
      Some (toggleExpanded state, render_action)
    else if isDetail state && (named key "pagedown" || (ctrl key && named key "d")) then
      if negb (isLeft state)
      then Some (set_detailScrollOffset (detailScrollOffset state + 10) state, render_action)
      else Some (set_leftPanelScrollOffset (leftPanelScrollOffset state + 10) state,
                 render_action)
    else if isDetail state && (named key "pageup" || (ctrl key && named key "u")) then
      if negb (isLeft state)
      then Some (set_detailScrollOffset (Z.max 0 (detailScrollOffset state - 10)) state,
                 render_action)
      else Some (set_leftPanelScrollOffset (Z.max 0 (leftPanelScrollOffset state - 10)) state,
                 render_action)
    else if named key "c" then Some (state, copy_action)
    else Some (state, none_action)
  end.

(** The [copy] branch of the key listener of [runReviewSession]: the text
    piped to the clipboard command, [Some None] when nothing is copied, and
    [None] for the [TypeError] of reading [c.content] when the comment index
    is past the end of the file's comments. *)
Definition copyPayload (state : ReviewState) : option (option jsstring) :=
  match at_index (files state) (selectedFileIndex state) with
  | Some file =>
      if selectedCommentIndex state >=? 0 then
        match at_index (comments file) (selectedCommentIndex state) with
        | None => None
        | Some c =>
            match search true reOldPrompt (Api.content c) with
            | Some promptMatch => Some (Some (trim (capture1 (Some promptMatch))))
            | None => Some None
            end
        end
      else Some None
  | None => Some None
  end.

(** ** Merging polled comments *)

Definition sameKey (c x : Api.ReviewComment) : bool :=
  bool_decide (Api.line_start x = Api.line_start c)
  && bool_decide (Api.title x = Api.title c).

Definition pushComment (c : Api.ReviewComment) (g : FileGroup) : FileGroup :=
  {| filePath := filePath g; comments := comments g ++ [c]; expanded := expanded g |}.

(** The body of the [forEach] of [addComments] for one comment
    ([addCommentsToState] of [ui.ts] has the same body).  The file group is
    the first one with the comment's path ([Array.prototype.find]); it is
    updated in place, at its index in [files]. *)
Definition addComment (state : ReviewState) (c : Api.ReviewComment) : ReviewState :=
  match list_find (fun f => filePath f = Api.file_path c) (files state) with
  | Some (i, fileGroup) =>
      if existsb (sameKey c) (comments fileGroup) then state
      else set_totalComments (totalComments state + 1)
             (set_files (<[i := pushComment c fileGroup]> (files state)) state)
  | None =>
      let fileGroup := {| filePath := Api.file_path c; comments := []; expanded := true |} in
      (* a new group has no comments, so [some] is false *)
      set_totalComments (totalComments state + 1)
        (set_files (files state ++ [pushComment c fileGroup]) state)
  end.

Definition addComments (state : ReviewState) (cs : list Api.ReviewComment) : ReviewState :=
  fold_left addComment cs state.

(** ** Rendering *)

(** The styling functions of the picocolors package the renderer calls. *)
Inductive Style := bold | dim | italic | red | green | yellow | blue | cyan | magenta.

(** [String(n)] for an integer. *)
Definition showZ (n : Z) : jsstring :=
  js (DecimalString.NilEmpty.string_of_int (Z.to_int n)).

(** [parts.join(sep)] *)
Fixpoint join (sep : jsstring) (parts : list jsstring) : jsstring :=
  match parts with
  | [] => []
  | [p] => p
  | p :: rest => p ++ sep ++ join sep rest
  end.

(** [arr.slice(start, end)] for integer arguments: a negative index counts
    from the end, and both ends are clamped to the array. *)
Definition slice {A} (l : list A) (a b : Z) : list A :=
  let len := Z.of_nat (length l) in
  let rel x := if x <? 0 then Z.max (len + x) 0 else Z.min x len in
  take (Z.to_nat (rel b - rel a)) (drop (Z.to_nat (rel a)) l).

(** [arr.slice(start)] *)
Definition sliceFrom {A} (l : list A) (a : Z) : list A :=
  slice l a (Z.of_nat (length l)).

(** What one call of [render] shows: the lines of the two panels inside the
    scroll window, the lines of the footer (a rule, the key hints, the
    status), and the status message the footer carries.  The assembly of the
    panel rows (padding, scrollbar glyphs, borders, panel titles) reads
    nothing else from the state and writes nothing to it.

    A render of the source can raise: [String.prototype.repeat] throws a
    [RangeError] for a negative count, which the header of the detail panel
    reaches when the terminal is narrower than four columns.  The rendering
    functions return [None] then, and a frame stands for a render that has
    completed. *)
Record Frame := {
  leftLines : list jsstring;
  rightLines : list jsstring;
  footer : list jsstring;
  statusMsg : jsstring
}.

(** [hay.includes(needle)] *)
Fixpoint startsWith (needle hay : jsstring) : bool :=
  match needle, hay with
  | [], _ => true
  | _ :: _, [] => false
  | a :: n', b :: h' => (a =? b)%N && startsWith n' h'
  end.

Fixpoint includes (needle hay : jsstring) : bool :=
  startsWith needle hay
  || match hay with
     | [] => false
     | _ :: h' => includes needle h'
     end.

(** [process.stdout.columns] and [process.stdout.rows]; [0] stands for a
    value that is absent or zero. *)
Record Terminal := { columns : Z; rows : Z }.

(** [getTerminalSize]: [columns || 120] and [rows || 40] *)
Definition getTerminalSize (t : Terminal) : Z * Z :=
  (if columns t =? 0 then 120 else columns t, if rows t =? 0 then 40 else rows t).

Definition spinnerGlyphs : list N :=
  [10251; 10265; 10297; 10296; 10300; 10292; 10278; 10279; 10247; 10255]%N.

Section Rendering.

(** picocolors is an external package: [pc s text] is [text] wrapped in
    the escape sequences of style [s], or [text] itself when colours are
    off. *)
Variable pc : Style -> jsstring -> jsstring.

(** [Math.floor(width * 0.35)], a product of IEEE doubles. *)
Variable leftWidthOf : Z -> Z.

(** The lines [renderCommentDetail] pushes after its header for a parsed
    comment at a panel width: the formatted description, the code
    suggestion and the prompt box.  They are built with picocolors and with
    highlighting patterns (back-references, word boundaries) outside the
    pattern language above, and they do not read the scroll offset. *)
Variable detailContent : ParsedComment -> Z -> list jsstring.

Definition getSeverityBadge (severity : jsstring) : jsstring :=
  let s := toLowerAscii severity in
  if bool_decide (s = js "critical") then pc red (js "[C]")
  else if bool_decide (s = js "high") then pc yellow (js "[H]")
  else if bool_decide (s = js "medium") then pc blue (js "[M]")
  else if bool_decide (s = js "low") then pc dim (js "[L]")
  else pc dim (js "[P]").

(** The severity counters of one file header: critical, high, and
    everything else. *)
Definition severityCounts (file : FileGroup) : Z * Z * Z :=
  fold_left
    (fun '(critical, high, medium) c =>
       let s := toLowerAscii (severity (parseCommentMetadata (Api.content c))) in
       if bool_decide (s = js "critical") then (critical + 1, high, medium)
       else if bool_decide (s = js "high") then (critical, high + 1, medium)
       else (critical, high, medium + 1))
    (comments file) (0, 0, 0).

Definition fileHeaderLine (state : ReviewState) (width : Z) (fIdx : nat)
    (file : FileGroup) : jsstring :=
  let isFileSelected :=
    (Z.of_nat fIdx =? selectedFileIndex state) && (selectedCommentIndex state =? -1) in
  let prefix := if isFileSelected then pc cyan [8250%N] else js " " in
  let expandIcon := if expanded file then [9660%N] else [9654%N] in
  let '(critical, high, medium) := severityCounts file in
  let counts :=
    (if critical >? 0 then [pc red (showZ critical)] else [])
    ++ (if high >? 0 then [pc yellow (showZ high)] else [])
    ++ (if medium >? 0 then [pc blue (showZ medium)] else []) in
  let prefixLen := visibleLength prefix in
  let iconLen := 2 in
  let countStr :=
    match counts with [] => [] | _ => js "  " ++ join (js ", ") counts end in
  let countLen := visibleLength countStr in
  let availableWidth := width - prefixLen - iconLen - countLen in
  let fileName := truncate (filePath file) (Z.max 10 availableWidth) in
  prefix ++ js " " ++ expandIcon ++ js " " ++ fileName ++ countStr.

Definition commentLine (state : ReviewState) (width : Z) (fIdx cIdx : nat)
    (comment : Api.ReviewComment) : jsstring :=
  let isCommentSelected :=
    (Z.of_nat fIdx =? selectedFileIndex state)
    && (Z.of_nat cIdx =? selectedCommentIndex state) in
  let cPrefix := if isCommentSelected then pc cyan (js "    " ++ [8250%N]) else js "     " in
  let parsed := parseCommentMetadata (Api.content comment) in
  let badge := getSeverityBadge (severity parsed) in
  let cPrefixLen := visibleLength cPrefix in
  let badgeLen := visibleLength badge in
  let titleWidth := width - cPrefixLen - badgeLen - 1 in
  let truncatedTitle := truncate (title parsed) (Z.max 10 titleWidth) in
  cPrefix ++ js " " ++ badge ++ js " " ++ truncatedTitle.

(** ['─'.repeat(count)]; [None] is the [RangeError] that
    [String.prototype.repeat] raises for a negative count. *)
Definition rule (count : Z) : option jsstring :=
  if count <? 0 then None else Some (repeat 9472%N (Z.to_nat count)).

(** The four header lines, pushed only when [scrollOffset === 0]. *)
Definition fileListHeader (state : ReviewState) (width : Z) : option (list jsstring) :=
  let statusIcon :=
    match status state with
    | Api.running => pc yellow [10227%N]
    | Api.completed => pc green [10003%N]
    | _ => pc red [10007%N]
    end in
  line ← rule width;
  Some [ pc bold (js "Filter: ") ++ pc dim (js "Press / to filter files");
         pc dim line;
         js "Files / Comments " ++ showZ (resolvedComments state) ++ js " of "
           ++ showZ (totalComments state) ++ js " comments resolved " ++ statusIcon;
         [] ].

(** The lines of the files and their comments, one per navigable item. *)
Definition fileListItems (state : ReviewState) (width : Z) : list jsstring :=
  concat (imap (fun fIdx file =>
                  fileHeaderLine state width fIdx file
                  :: (if expanded file
                      then imap (commentLine state width fIdx) (comments file)
                      else []))
               (files state)).

(** All the lines of the file list, before the scroll window. *)
Definition fileListLines (state : ReviewState) (width scrollOffset : Z)
    : option (list jsstring) :=
  header ← (if scrollOffset =? 0 then fileListHeader state width else Some []);
  Some (header ++ fileListItems state width).

(** The scroll window both panel renderers end with. *)
Definition scrollWindow (lines : list jsstring) (maxHeight scrollOffset : Z)
    : list jsstring * Z :=
  let totalLines := Z.of_nat (length lines) in
  let maxScroll := Z.max 0 (totalLines - maxHeight) in
  let adjustedScrollOffset := Z.min scrollOffset maxScroll in
  let scrolled := sliceFrom lines adjustedScrollOffset in
  (slice scrolled 0 maxHeight, totalLines).

(** [renderFileList]: the visible lines and [totalLines]. *)
Definition renderFileList (state : ReviewState) (width maxHeight scrollOffset : Z)
    : option (list jsstring * Z) :=
  lines ← fileListLines state width scrollOffset;
  Some (scrollWindow lines maxHeight scrollOffset).

Definition getSeverityColor (severity : jsstring) : Style :=
  let s := toLowerAscii severity in
  if bool_decide (s = js "critical") then red
  else if bool_decide (s = js "high") then yellow
  else if bool_decide (s = js "medium") then blue
  else dim.

(** The five header lines of the detail panel, pushed only when
    [scrollOffset === 0]. *)
Definition detailHeader (file : FileGroup) (parsed : ParsedComment) (width : Z)
    : option (list jsstring) :=
  let many := lineEnd parsed >? lineStart parsed in
  let lineInfo :=
    js "(" ++ (if many then js "Lines" else js "Line") ++ js " "
    ++ pc yellow (showZ (lineStart parsed))
    ++ (if many then js " to " ++ pc yellow (showZ (lineEnd parsed)) else [])
    ++ js ")" in
  let lineInfoLen := visibleLength lineInfo in
  let filePathText := truncateLine (filePath file) (width - 6 - lineInfoLen - 1) in
  line ← rule (Z.min width 80);
  let titleText := truncateLine (title parsed) width in
  Some [ js "File: " ++ pc cyan filePathText ++ js " " ++ lineInfo;
         pc dim line;
         [];
         pc (getSeverityColor (severity parsed)) (pc bold titleText);
         [] ].

(** All the lines of the detail panel, before the scroll window. *)
Definition detailLines (file : FileGroup) (comment : Api.ReviewComment)
    (width scrollOffset : Z) : option (list jsstring) :=
  let parsed := parseCommentMetadata (Api.content comment) in
  header ← (if scrollOffset =? 0 then detailHeader file parsed width else Some []);
  Some (header ++ detailContent parsed width).

(** [renderCommentDetail] *)
Definition renderCommentDetail (state : ReviewState) (width maxHeight scrollOffset : Z)
    : option (list jsstring * Z) :=
  let placeholder := Some ([pc dim (js "Select a comment to view details")], 1) in
  match at_index (files state) (selectedFileIndex state) with
  | None => placeholder
  | Some file =>
      if (selectedCommentIndex state <? 0)
         || (selectedCommentIndex state >=? Z.of_nat (length (comments file)))
      then placeholder
      else
        match at_index (comments file) (selectedCommentIndex state) with
        | None => placeholder
        | Some comment =>
            lines ← detailLines file comment width scrollOffset;
            Some (scrollWindow lines maxHeight scrollOffset)
        end
  end.

(** The spinner glyph of the current frame. *)
Definition spinner (state : ReviewState) : jsstring :=
  match at_index spinnerGlyphs (spinnerFrame state mod 10) with
  | Some g => [g]
  | None => []
  end.

(** [renderSplitView]: the state with both scroll offsets clamped, and the
    frame.  The offsets are stored after both panels have been rendered, so a
    render that raises leaves the state as it was. *)
Definition renderSplitView (state : ReviewState) (t : Terminal)
    : option (ReviewState * Frame) :=
  let '(width, height) := getTerminalSize t in
  let safeHeight := height - 1 in
  let leftWidth := leftWidthOf width in
  let rightWidth := width - leftWidth - 3 in
  let contentHeight := safeHeight - 5 in
  line ← rule width;
  leftResult ← renderFileList state leftWidth contentHeight (leftPanelScrollOffset state);
  rightResult ←
    renderCommentDetail state rightWidth contentHeight (detailScrollOffset state);
  let leftMaxScroll := Z.max 0 (snd leftResult - contentHeight) in
  let rightMaxScroll := Z.max 0 (snd rightResult - contentHeight) in
  let state1 :=
    set_leftPanelScrollOffset (Z.min (leftPanelScrollOffset state) leftMaxScroll) state in
  let state2 :=
    set_detailScrollOffset (Z.min (detailScrollOffset state1) rightMaxScroll) state1 in
  let bar := js "  |  " in
  let scrollHint :=
    if isLeft state2
    then pc dim ([8593; 8595]%N ++ js ": Navigate") ++ bar
         ++ pc dim (js "PgUp/PgDn: Scroll Left Panel")
    else pc dim ([8593; 8595]%N ++ js ": Scroll Right Panel") ++ bar
         ++ pc dim (js "PgUp/PgDn: Scroll Right Panel") in
  let footer1 :=
    scrollHint ++ bar ++ pc dim (js "Tab: Switch Panel") ++ bar
    ++ pc dim (js "Mouse: Scroll/Click") in
  let statusMsg :=
    if isRunning state2 then pc yellow (spinner state2 ++ js " Reviewing...")
    else pc green (js ":: Done") in
  let footer2 :=
    pc dim ([8592%N] ++ js "/Esc: Back") ++ bar ++ pc dim (js "c: Copy") ++ bar
    ++ pc dim (js "q: Quit") ++ bar ++ statusMsg in
  Some (state2,
        {| leftLines := fst leftResult; rightLines := fst rightResult;
           footer := [ pc dim line; truncateLine footer1 width; truncateLine footer2 width ];
           statusMsg := statusMsg |}).

(** [renderListView] *)
Definition renderListView (state : ReviewState) (t : Terminal) : option Frame :=
  let '(width, height) := getTerminalSize t in
  result ← renderFileList state width (height - 4) 0;
  line ← rule width;
  let bar := js "  |  " in
  let hints :=
    pc dim ([8593; 8595]%N ++ js ": Navigate") ++ bar
    ++ pc dim ([8594%N] ++ js "/" ++ [8629%N] ++ js ": View Details") ++ bar
    ++ pc dim (js "Tab: Expand/Collapse") ++ bar ++ pc dim (js "q: Quit") in
  let statusMsg :=
    if isRunning state then pc yellow (spinner state ++ js " Reviewing...")
    else pc green (js ":: Review completed! " ++ [55356; 57225]%N) in
  Some {| leftLines := fst result; rightLines := [];
          footer := [ pc dim line; hints; statusMsg ];
          statusMsg := statusMsg |}.

(** [render]: the state after the render and the frame drawn, or [None]
    when the render raises. *)
Definition render (state : ReviewState) (t : Terminal) : option (ReviewState * Frame) :=
  if isDetail state then renderSplitView state t
  else frame ← renderListView state t; Some (state, frame).

(** ** The event loop of [runReviewSession] *)

(** The session: the single state object, the terminal, the two interval
    timers ([true] while armed), whether the process has ended, the frames
    drawn so far (latest first), and what has been sent to the clipboard. *)
Record Session := {
  state : ReviewState;
  terminal : Terminal;
  pollTimer : bool;
  uiTimer : bool;
  exited : bool;
  frames : list Frame;
  clipboard : list jsstring
}.

(** What the single thread of control reacts to.  The two [await]s of a
    poll callback are separate events, since other callbacks may run
    between them; a request that fails raises into the empty [catch] and is
    no event.  A request in flight when the poll timer is cleared still
    completes, so the two poll events are accepted whether or not the timer
    is armed. *)
Inductive Event :=
| Keypress (key : option Key)
| Resize (t : Terminal)
| CommentsPolled (newComments : list Api.ReviewComment)
| StatusPolled (analysis_status : Api.AnalysisStatus)
| UiTick.

Definition withState (s : Session) (st : ReviewState) : Session :=
  {| state := st; terminal := terminal s; pollTimer := pollTimer s; uiTimer := uiTimer s;
     exited := exited s; frames := frames s; clipboard := clipboard s |}.

(** The end of the process: [cleanup], or an exception that nothing
    catches (raised in the key listener, the resize listener or the tick
    callback).  Both timers are gone and nothing runs any more. *)
Definition terminate (s : Session) : Session :=
  {| state := state s; terminal := terminal s; pollTimer := false; uiTimer := false;
     exited := true; frames := frames s; clipboard := clipboard s |}.

(** [render(state)] in a callback that has brought the state to [st];
    [raised] tells what becomes of the session when the render raises. *)
Definition withRender (s : Session) (st : ReviewState) (raised : Session -> Session)
    : Session :=
  match render st (terminal s) with
  | Some (st', frame) =>
      {| state := st'; terminal := terminal s; pollTimer := pollTimer s;
         uiTimer := uiTimer s; exited := exited s; frames := frame :: frames s;
         clipboard := clipboard s |}
  | None => raised (withState s st)
  end.

(** The exception is swallowed by the [catch] of the poll callback. *)
Definition swallowed (s : Session) : Session := s.

(** The part of the key listener after the mouse branches. *)
Definition onKey (s : Session) (key : option Key) : Session :=
  match handleKeypress (state s) key with
  | None => terminate s
  | Some (st, quit_action) => terminate (withState s st)
  | Some (st, render_action) => withRender s st terminate
  | Some (st, copy_action) =>
      match copyPayload st with
      | None => terminate (withState s st)
      | Some (Some text) =>
          {| state := st; terminal := terminal s; pollTimer := pollTimer s;
             uiTimer := uiTimer s; exited := exited s; frames := frames s;
             clipboard := text :: clipboard s |}
      | Some None => withState s st
      end
  | Some (st, none_action) => withState s st
  end.

(** The mouse branches of the key listener. *)
Definition onMouse (s : Session) (key : option Key) (m : MouseReport) : Session :=
  let st := state s in
  let '(width, _) := getTerminalSize (terminal s) in
  let leftWidth := leftWidthOf width in
  let onLeftSide := column m <=? leftWidth in
  if (button m =? 64) || (button m =? 65) then
    let delta := if button m =? 64 then -3 else 3 in
    if onLeftSide
    then withRender s (set_leftPanelScrollOffset
                         (Z.max 0 (leftPanelScrollOffset st + delta)) st) terminate
    else withRender s (set_detailScrollOffset
                         (Z.max 0 (detailScrollOffset st + delta)) st) terminate
  else if (button m =? 0) && release m && isDetail st then
    withRender s (set_focusedPanel (if onLeftSide then left_panel else right_panel) st)
      terminate
  else onKey s key.

Definition step (s : Session) (e : Event) : Session :=
  if exited s then s
  else
    match e with
    | Keypress key =>
        match key with
        | Some k =>
            match mouse k with
            | Some m => onMouse s key m
            | None => onKey s key
            end
        | None => onKey s key
        end
    | Resize t =>
        withRender
          {| state := state s; terminal := t; pollTimer := pollTimer s;
             uiTimer := uiTimer s; exited := exited s; frames := frames s;
             clipboard := clipboard s |}
          (state s) terminate
    | CommentsPolled newComments =>
        match newComments with
        | [] => s
        | _ => withRender s (addComments (state s) newComments) swallowed
        end
    | StatusPolled analysis_status =>
        match analysis_status with
        | Api.running => s
        | _ =>
            (* the timer is cleared before the render *)
            withRender
              {| state := state s; terminal := terminal s; pollTimer := false;
                 uiTimer := uiTimer s; exited := exited s; frames := frames s;
                 clipboard := clipboard s |}
              (set_status analysis_status (state s)) swallowed
        end
    | UiTick =>
        if uiTimer s && isRunning (state s)
        then withRender s (set_spinnerFrame (spinnerFrame (state s) + 1) (state s))
               terminate
        else s
    end.

Definition run (s : Session) (events : list Event) : Session :=
  fold_left step events s.

(** The session once the initial poll has been merged, the first frame
    drawn and the two timers armed.  When the first render raises, the
    [catch] of [runReviewSession] ends the process. *)
Definition startSession (dataId : jsstring) (initial : list Api.ReviewComment)
    (t : Terminal) : Session :=
  let st := addComments (initialState dataId) initial in
  match render st t with
  | Some (st', frame) =>
      {| state := st'; terminal := t; pollTimer := true; uiTimer := true; exited := false;
         frames := [frame]; clipboard := [] |}
  | None =>
      {| state := st; terminal := t; pollTimer := false; uiTimer := false; exited := true;
         frames := []; clipboard := [] |}
  end.

End Rendering.

(** ** Centring *)

(** The blanks [centerText] puts in front of one line:
    [Math.max(0, Math.floor((width - stripAnsi(line).length) / 2))]. *)
Definition centerPadding (width : Z) (line : jsstring) : nat :=
  Z.to_nat (Z.max 0 ((width - visibleLength line) / 2)).

(** [centerText]: every line of the text is moved right by its padding. *)
Definition centerText (text : jsstring) (width : Z) : jsstring :=
  join [Chars.LF]
    (List.map (fun line => repeat 32%N (centerPadding width line) ++ line)
              (splitLines text)).

(** ** The legacy interface of [ui.ts] *)

(** [s.match(r)] with the [g] flag: the texts of all the matches, left to
    right.  [skip] counts the characters of the current match still to be
    passed; after an empty match the scan moves on by one character. *)
Fixpoint matchAllGo (ci : bool) (r : regex) (skip : nat) (s : jsstring)
    : list jsstring :=
  let here := match skip with O => exec ci r s | S _ => None end in
  let found :=
    match here with
    | Some (rest, _) => [take (length s - length rest) s]
    | None => []
    end in
  let skip' :=
    match skip, here with
    | S n, _ => n
    | O, Some (rest, _) => Nat.pred (length s - length rest)
    | O, None => O
    end in
  found ++ match s with
           | [] => []
           | _ :: t => matchAllGo ci r skip' t
           end.

Definition matchAll (ci : bool) (r : regex) (s : jsstring) : list jsstring :=
  matchAllGo ci r O s.

Module Ui.

(** One round of the [forEach] of [groupCommentsByFile] on its [Map], kept
    as the list of its entries in insertion order: the comment is pushed to
    the array of its path ([fileMap.get(path) || []]), and a new path is
    entered at the end. *)
Fixpoint mapPush (fileMap : list (jsstring * list Api.ReviewComment))
    (comment : Api.ReviewComment) : list (jsstring * list Api.ReviewComment) :=
  match fileMap with
  | [] => [(Api.file_path comment, [comment])]
  | (path, existing) :: rest =>
      if decide (path = Api.file_path comment)
      then (path, existing ++ [comment]) :: rest
      else (path, existing) :: mapPush rest comment
  end.

(** [Array.from(fileMap.entries()).map(...)] *)
Definition entryGroup (entry : jsstring * list Api.ReviewComment) : FileGroup :=
  {| filePath := fst entry; comments := snd entry; expanded := true |}.

(** [groupCommentsByFile] *)
Definition groupCommentsByFile (cs : list Api.ReviewComment) : list FileGroup :=
  entryGroup <$> fold_left mapPush cs [].

(** The [ReviewState] of [ui.ts]. *)
Record ReviewState := {
  files : list FileGroup;
  totalComments : Z;
  resolvedComments : Z;
  selectedFileIndex : Z;
  selectedCommentIndex : Z;
  showingDetail : bool;
  status : Api.AnalysisStatus
}.

(** [createReviewState] *)
Definition createReviewState (cs : list Api.ReviewComment) : ReviewState :=
  let files := groupCommentsByFile cs in
  {| files := files;
     totalComments := Z.of_nat (length cs);
     resolvedComments := 0;
     selectedFileIndex := 0;
     selectedCommentIndex := 0;
     showingDetail := (Z.of_nat (length files) >? 0);
     status := Api.running |}.

(** The marker lines [parseComment] removes from the description. *)
Definition notBacktick (c : N) : bool := negb (c =? 96)%N.

(** [/\*\*File\*\*:\s*`[^`]+`\n?/g] *)
Definition reFileLine : regex :=
  RCat [RStr "**File**:"; ws; RChar 96; RRep true 1 notBacktick; RChar 96;
        ROpt (RChar Chars.LF)].

(** [/\*\*<name>\*\*:\s*<class>+\n?/g] *)
Definition reValueLine (name : string) (p : N -> bool) : regex :=
  RCat [RStr "**"; RStr name; RStr "**:"; ws; RRep true 1 p; ROpt (RChar Chars.LF)].

(** The object [parseComment] returns. *)
Record Parsed := {
  title : jsstring;
  severity : jsstring;
  description : jsstring;
  codeBlock : jsstring;
  aiPrompt : jsstring
}.

(** [parseComment] *)
Definition parseComment (content : jsstring) : Parsed :=
  let titleMatch := search false reTitle content in
  let severityMatch := search false reSeverity content in
  let d1 := removeAll false reFileLine content in
  let d2 := removeAll false (reValueLine "Line_Start" Chars.isDigit) d1 in
  let d3 := removeAll false (reValueLine "Line_End" Chars.isDigit) d2 in
  let d4 := removeAll false (reValueLine "Severity" Chars.isWord) d3 in
  let d5 := removeAll false (reValueLine "Confidence" Chars.notLF) d4 in
  let d6 := removeAll false (reValueLine "Title" Chars.notLF) d5 in
  let description0 := trim d6 in
  let codeBlock := join [Chars.LF] (matchAll true reDetails content) in
  let aiPrompt :=
    match search true reOldPrompt content with
    | Some promptMatch => trim (capture1 (Some promptMatch))
    | None => []
    end in
  let description1 := trim (removeAll true reDetails description0) in
  {| title := orElse (capture1 titleMatch) (js "Untitled");
     severity := orElse (capture1 severityMatch) (js "Medium");
     description :=
       substring (match splitLines description1 with l :: _ => l | [] => [] end) 0 200;
     codeBlock := codeBlock;
     aiPrompt := aiPrompt |}.

(** The callbacks [handleKeypress] is given, as the calls it makes. *)
Inductive Effect := CopyPrompt (prompt : jsstring) | Quit | Refresh.

Definition withCursor (fileIndex commentIndex : Z) (s : ReviewState) : ReviewState :=
  {| files := files s; totalComments := totalComments s;
     resolvedComments := resolvedComments s; selectedFileIndex := fileIndex;
     selectedCommentIndex := commentIndex; showingDetail := showingDetail s;
     status := status s |}.

Definition withDetail (v : bool) (s : ReviewState) : ReviewState :=
  {| files := files s; totalComments := totalComments s;
     resolvedComments := resolvedComments s; selectedFileIndex := selectedFileIndex s;
     selectedCommentIndex := selectedCommentIndex s; showingDetail := v;
     status := status s |}.

Definition withFiles (v : list FileGroup) (s : ReviewState) : ReviewState :=
  {| files := v; totalComments := totalComments s;
     resolvedComments := resolvedComments s; selectedFileIndex := selectedFileIndex s;
     selectedCommentIndex := selectedCommentIndex s; showingDetail := showingDetail s;
     status := status s |}.

(** [file.expanded = !file.expanded] on the selected file, if there is
    one. *)
Definition toggleSelected (s : ReviewState) : ReviewState :=
  match at_index (files s) (selectedFileIndex s) with
  | Some file =>
      withFiles (<[Z.to_nat (selectedFileIndex s) :=
                     set_expanded (negb (expanded file)) file]> (files s)) s
  | None => s
  end.

(** The [up] branch. *)
Definition moveUp (s : ReviewState) : ReviewState :=
  if showingDetail s && (selectedCommentIndex s >? 0) then
    withCursor (selectedFileIndex s) (selectedCommentIndex s - 1) s
  else if selectedFileIndex s >? 0 then
    let fileIndex := selectedFileIndex s - 1 in
    match at_index (files s) fileIndex with
    | Some file => withCursor fileIndex (Z.of_nat (length (comments file)) - 1) s
    | None => withCursor fileIndex 0 s
    end
  else s.

(** The [down] branch. *)
Definition moveDown (s : ReviewState) : ReviewState :=
  let within :=
    match at_index (files s) (selectedFileIndex s) with
    | Some currentFile =>
        showingDetail s
        && (selectedCommentIndex s <? Z.of_nat (length (comments currentFile)) - 1)
    | None => false
    end in
  if within then withCursor (selectedFileIndex s) (selectedCommentIndex s + 1) s
  else if selectedFileIndex s <? Z.of_nat (length (files s)) - 1 then
    withCursor (selectedFileIndex s + 1) 0 s
  else s.

(** The [return] branch. *)
Definition pressReturn (s : ReviewState) : ReviewState :=
  match at_index (files s) (selectedFileIndex s) with
  | Some _ => withDetail true (if showingDetail s then s else toggleSelected s)
  | None => s
  end.

(** The [c] branch: the call of [onCopyPrompt], if any. *)
Definition copyEffects (s : ReviewState) : list Effect :=
  match at_index (files s) (selectedFileIndex s) with
  | Some file =>
      match at_index (comments file) (selectedCommentIndex s) with
      | Some comment =>
          let parsed := parseComment (Api.content comment) in
          if truthy (aiPrompt parsed) then [CopyPrompt (aiPrompt parsed)] else []
      | None => []
      end
  | None => []
  end.

(** [handleKeypress] of [ui.ts]: after the quit test the branches are
    independent [if]s, run one after the other on the same state. *)
Definition handleKeypress (state : ReviewState) (key : Key) : ReviewState * list Effect :=
  if named key "q" || (ctrl key && named key "c") then (state, [Quit])
  else
    let s1 := if named key "up" || named key "k" then moveUp state else state in
    let s2 := if named key "down" || named key "j" then moveDown s1 else s1 in
    let s3 := if named key "return" then pressReturn s2 else s2 in
    let s4 := if named key "escape" || named key "left" then withDetail false s3 else s3 in
    let s5 := if named key "right" then withDetail true s4 else s4 in
    let copied := if named key "c" then copyEffects s5 else [] in
    let refreshed := if named key "r" && ctrl key then [Refresh] else [] in
    let s6 := if named key "tab" then toggleSelected s5 else s5 in
    (s6, copied ++ refreshed).

End Ui.

(** ** Notions the properties are stated with *)

(** picocolors with colours on, for text that holds no closing code of its
    own: the opening sequence, the text, the closing sequence. *)
Definition sgr (code : Z) : jsstring := Chars.ESC :: js "[" ++ showZ code ++ js "m".

Definition ansiPc (s : Style) (text : jsstring) : jsstring :=
  let '(open, close) :=
    match s with
    | bold => (1, 22) | dim => (2, 22) | italic => (3, 23)
    | red => (31, 39) | green => (32, 39) | yellow => (33, 39)
    | blue => (34, 39) | magenta => (35, 39) | cyan => (36, 39)
    end in
  sgr open ++ text ++ sgr close.

(** The exact floor of 35% of the width; the double product of the source
    agrees with it on the widths used in the examples below. *)
Definition floor35 (width : Z) : Z := width * 35 / 100.

(** A string whose escape characters each start a complete colour sequence
    [ESC [ params m]: what picocolors produces, and the strings on which the
    escape scanner of [truncate] and the pattern of [stripAnsi] agree. *)
Inductive AnsiWF : jsstring -> Prop :=
| wf_empty : AnsiWF []
| wf_visible c s : c <> Chars.ESC -> AnsiWF s -> AnsiWF (c :: s)
| wf_escape params s :
    forallb Chars.isSgrParam params = true -> AnsiWF s ->
    AnsiWF (Chars.ESC :: 91%N :: params ++ 109%N :: s).

(** The compound cursor. *)
Definition cursor (state : ReviewState) : Z * Z :=
  (selectedFileIndex state, selectedCommentIndex state).

(** The navigable items of one file: its header and, when it is expanded,
    its comments in order. *)
Definition fileItems (fIdx : nat) (file : FileGroup) : list (Z * Z) :=
  (Z.of_nat fIdx, -1)
  :: (if expanded file
      then List.map (fun cIdx => (Z.of_nat fIdx, Z.of_nat cIdx))
                    (seq 0 (length (comments file)))
      else []).

(** The flattened navigation sequence of the files from index [fIdx] on. *)
Fixpoint itemsFrom (fIdx : nat) (fs : list FileGroup) : list (Z * Z) :=
  match fs with
  | [] => []
  | f :: rest => fileItems fIdx f ++ itemsFrom (S fIdx) rest
  end.

Definition navItems (fs : list FileGroup) : list (Z * Z) := itemsFrom 0 fs.



(** The data-model invariant of [files]: one group per path. *)
Definition keyedByPath (fs : list FileGroup) : Prop := NoDup (filePath <$> fs).

(** Two states that differ in [files] and [totalComments] at most. *)
Definition sameButComments (st st' : ReviewState) : Prop :=
  dataId st' = dataId st /\ mode st' = mode st /\ focusedPanel st' = focusedPanel st
  /\ selectedFileIndex st' = selectedFileIndex st
  /\ selectedCommentIndex st' = selectedCommentIndex st
  /\ detailScrollOffset st' = detailScrollOffset st
  /\ leftPanelScrollOffset st' = leftPanelScrollOffset st
  /\ resolvedComments st' = resolvedComments st
  /\ status st' = status st /\ spinnerFrame st' = spinnerFrame st.

(** A comment is merged already: the group [addComments] would pick for it
    holds a comment with the same line start and title. *)
Definition merged (fs : list FileGroup) (c : Api.ReviewComment) : Prop :=
  exists i g, list_find (fun f => filePath f = Api.file_path c) fs = Some (i, g)
              /\ existsb (sameKey c) (comments g) = true.

(** [navigateDown] on the cursor alone, over the files [fs]. *)
Definition downCursor (fs : list FileGroup) (c : Z * Z) : Z * Z :=
  let '(i, j) := c in
  match at_index fs i with
  | None => c
  | Some file =>
      let last := Z.of_nat (length fs) - 1 in
      if j =? -1 then
        if expanded file && (Z.of_nat (length (comments file)) >? 0) then (i, 0)
        else if i <? last then (i + 1, -1) else c
      else if j <? Z.of_nat (length (comments file)) - 1 then (i, j + 1)
      else if i <? last then (i + 1, -1) else c
  end.

(** The first [n] cursor positions under repeated [downCursor]. *)
Definition orbit (fs : list FileGroup) (n : nat) (c : Z * Z) : list (Z * Z) :=
  List.map (fun k => Nat.iter k (downCursor fs) c) (seq 0 n).

(** The data-model invariant of the two scroll offsets. *)
Definition scrollNonneg (state : ReviewState) : Prop :=
  0 <= leftPanelScrollOffset state /\ 0 <= detailScrollOffset state.

(** The viewport height the offsets are clamped against. *)
Definition viewportHeight (t : Terminal) : Z := snd (getTerminalSize t) - 1 - 5.

(** [totalLines] of the two panels, as [renderSplitView] computes them for
    a state when the panels are rendered at the given scroll offsets. *)
Definition panelTotalsAt (pc : Style -> jsstring -> jsstring) (leftWidthOf : Z -> Z)
    (detailContent : ParsedComment -> Z -> list jsstring)
    (state : ReviewState) (t : Terminal) (leftOffset detailOffset : Z) : option (Z * Z) :=
  let width := fst (getTerminalSize t) in
  let leftWidth := leftWidthOf width in
  leftResult ← renderFileList pc state leftWidth (viewportHeight t) leftOffset;
  rightResult ← renderCommentDetail pc detailContent state (width - leftWidth - 3)
                  (viewportHeight t) detailOffset;
  Some (snd leftResult, snd rightResult).

(** The same at the offsets the state stores. *)
Definition panelTotals (pc : Style -> jsstring -> jsstring) (leftWidthOf : Z -> Z)
    (detailContent : ParsedComment -> Z -> list jsstring)
    (state : ReviewState) (t : Terminal) : option (Z * Z) :=
  panelTotalsAt pc leftWidthOf detailContent state t
    (leftPanelScrollOffset state) (detailScrollOffset state).

(** [0 <= offset <= max(0, totalLines - viewportHeight)] *)
Definition inScrollRange (offset totalLines viewport : Z) : Prop :=
  0 <= offset <= Z.max 0 (totalLines - viewport).

(** A state transformer keeps the status and the spinner frame, and keeps
    the scroll offsets non-negative. *)
Definition quiet (st st' : ReviewState) : Prop :=
  status st' = status st /\ spinnerFrame st' = spinnerFrame st
  /\ (scrollNonneg st -> scrollNonneg st').

(** The last footer line of the split view once the analysis has ended,
    before it is cut to the terminal width. *)
Definition doneLine (pc : Style -> jsstring -> jsstring) : jsstring :=
  pc dim ([8592%N] ++ js "/Esc: Back") ++ js "  |  " ++ pc dim (js "c: Copy")
  ++ js "  |  " ++ pc dim (js "q: Quit") ++ js "  |  " ++ pc green (js ":: Done").

(** The static completion message of a view. *)
Definition completionMsg (pc : Style -> jsstring -> jsstring) (detail : bool) : jsstring :=
  if detail then pc green (js ":: Done")
  else pc green (js ":: Review completed! " ++ [55356; 57225]%N).

(** The frame of a view [width] columns wide shows the end of the analysis
    and not the spinner: its status message is the completion message, and
    the last line of the footer drawn is that message in the list view, and
    [doneLine] cut to the width in the split view. *)
Definition staticFooterAt (pc : Style -> jsstring -> jsstring) (detail : bool)
    (width : Z) (frame : Frame) : Prop :=
  statusMsg frame = completionMsg pc detail
  /\ list.last (footer frame)
     = Some (if detail then truncateLine (doneLine pc) width else completionMsg pc false).

(** The same for some view and width. *)
Definition staticFooter (pc : Style -> jsstring -> jsstring) (frame : Frame) : Prop :=
  exists detail width, staticFooterAt pc detail width frame.

(** A session whose analysis has ended: the status is not [running] and no
    poll is scheduled. *)
Definition settled (s : Session) : Prop :=
  isRunning (state s) = false /\ pollTimer s = false.

(** The frames drawn between the sessions [s0] and [s] all satisfy [P]. *)
Definition drawnSince (P : Frame -> Prop) (s0 s : Session) : Prop :=
  exists newer, frames s = newer ++ frames s0 /\ Forall P newer.

(** What holds from a settled session to a later one: it is settled, the
    spinner frame is the same, and every frame drawn on the way has the
    static footer. *)
Definition idle (pc : Style -> jsstring -> jsstring) (s s' : Session) : Prop :=
  settled s'
  /\ spinnerFrame (state s') = spinnerFrame (state s)
  /\ drawnSince (staticFooter pc) s s'.

(** What a callback does with the session when its render raises keeps the
    state and the frames and arms no poll timer. *)
Definition keepsView (raised : Session -> Session) : Prop :=
  forall x, state (raised x) = state x /\ frames (raised x) = frames x
            /\ (pollTimer x = false -> pollTimer (raised x) = false).

(** A pattern matches at no position inside the prefix [pre] of [content]. *)
Definition noMatchBefore (ci : bool) (r : regex) (pre content : jsstring) : Prop :=
  forall k, (k < length pre)%nat -> exec ci r (drop k content) = None.

(** The text ends here, or goes on with a character outside the class. *)
Definition stopsAt (p : N -> bool) (post : jsstring) : Prop :=
  match post with [] => True | c :: _ => p c = false end.

(** ** Sample data for the examples *)

Definition sampleComment (path : string) (line : Z) (ttl body : string)
    : Api.ReviewComment :=
  {| Api.id := js "c"; Api.file_path := js path; Api.line_start := line;
     Api.line_end := line; Api.severity := js "High"; Api.confidence := js "high";
     Api.title := js ttl; Api.content := js body; Api.created_at := js "" |}.

Definition leak : Api.ReviewComment := sampleComment "src/a.ts" 10 "Leak" "A handle leaks.".
Definition race : Api.ReviewComment := sampleComment "src/a.ts" 20 "Race" "Two writers.".
Definition typo : Api.ReviewComment := sampleComment "src/b.ts" 3 "Typo" "Misspelt.".

(** Two files: the first expanded with two comments, the second collapsed. *)
Definition sampleState : ReviewState :=
  set_files [ {| filePath := js "src/a.ts"; comments := [leak; race]; expanded := true |};
              {| filePath := js "src/b.ts"; comments := [typo]; expanded := false |} ]
            (set_totalComments 3 (initialState (js "id"))).

(** A simple stand-in for the body of the detail panel: the wrapped
    description, indented, and a blank line. *)
Definition sampleDetailContent (parsed : ParsedComment) (width : Z) : list jsstring :=
  List.map (fun l => js "  " ++ l) (wordWrap (description parsed) (width - 4)) ++ [[]].

Definition sampleTerminal : Terminal := {| columns := 80; rows := 24 |}.

(** A session that has polled three comments. *)
Definition sampleSession : Session :=
  startSession ansiPc floor35 sampleDetailContent (js "id") [leak; race; typo] sampleTerminal.

(** The sample state in detail mode on its first comment, with both panels
    scrolled far past their content. *)
Definition scrolledState : ReviewState :=
  set_mode detail_mode
    (set_leftPanelScrollOffset 50
       (set_detailScrollOffset 7 (set_selectedCommentIndex 0 sampleState))).

(** [pc.red('hello world')], written out. *)
Definition redHello : jsstring :=
  Chars.ESC :: 91%N :: js "31" ++ 109%N
    :: (js "hello world" ++ Chars.ESC :: 91%N :: js "39" ++ [109%N]).

Definition nl : string := String (ascii_of_nat 10) EmptyString.

(** A comment in the current format, with a collapsible prompt section. *)
Definition promptComment : Api.ReviewComment :=
  sampleComment "src/a.ts" 10 "Null pointer risk"
    ("**Severity**: Critical" ++ nl ++ "**Title**: Null pointer risk" ++ nl ++ nl
     ++ "The pointer may be null." ++ nl
     ++ "<details><summary>Prompt for AI</summary>" ++ nl
     ++ "```" ++ nl ++ "Fix the null check" ++ nl ++ "```" ++ nl ++ "</details>").

(** That comment selected in an expanded file. *)
Definition promptState : ReviewState :=
  set_selectedCommentIndex 0
    (set_files [ {| filePath := js "src/a.ts"; comments := [promptComment];
                    expanded := true |} ]
               (set_totalComments 1 (initialState (js "id")))).

Definition promptSession : Session :=
  {| state := promptState; terminal := sampleTerminal; pollTimer := true; uiTimer := true;
     exited := false; frames := []; clipboard := [] |}.

Definition tabKey : Key := {| name := Some (js "tab"); ctrl := false; mouse := None |}.
Definition copyKey : Key := {| name := Some (js "c"); ctrl := false; mouse := None |}.

(** ** Notions for the further properties *)

(** [navigateUp] on the cursor alone, over the files [fs]; [None] is the
    [TypeError]. *)
Definition upCursor (fs : list FileGroup) (c : Z * Z) : option (Z * Z) :=
  let '(i, j) := c in
  if j >? 0 then Some (i, j - 1)
  else if j =? 0 then Some (i, -1)
  else if i >? 0 then
    match at_index fs (i - 1) with
    | None => None
    | Some prevFile =>
        if expanded prevFile && (Z.of_nat (length (comments prevFile)) >? 0)
        then Some (i - 1, Z.of_nat (length (comments prevFile)) - 1)
        else Some (i - 1, -1)
    end
  else Some c.

(** The cursor is on a navigable item, or on the header position of the
    first file while there is no file yet. *)
Definition cursorOnItem (state : ReviewState) : Prop :=
  cursor state = (0, -1) \/ In (cursor state) (navItems (files state)).

(** Two states agree on the file groups, the cursor and the two
    counters. *)
Definition sameData (st st' : ReviewState) : Prop :=
  files st' = files st /\ cursor st' = cursor st
  /\ totalComments st' = totalComments st
  /\ resolvedComments st' = resolvedComments st.

(** What [addComments] compares to tell a duplicate. *)
Definition commentKey (c : Api.ReviewComment) : Z * jsstring :=
  (Api.line_start c, Api.title c).

(** No two comments of a file group have the same line start and title. *)
Definition distinctComments (g : FileGroup) : Prop :=
  NoDup (commentKey <$> comments g).

(** All the comments the file groups hold, in display order. *)
Definition storedComments (fs : list FileGroup) : list Api.ReviewComment :=
  concat (comments <$> fs).

(** The sessions [runReviewSession] can be in: the session it starts, after
    any sequence of events. *)
Definition reachable (pc : Style -> jsstring -> jsstring) (leftWidthOf : Z -> Z)
    (detailContent : ParsedComment -> Z -> list jsstring) (s : Session) : Prop :=
  exists dataId initial t events,
    s = run pc leftWidthOf detailContent
          (startSession pc leftWidthOf detailContent dataId initial t) events.

(** What tells two comments apart for [addComments]: the path of the file
    group and the key compared inside it. *)
Definition fullKey (c : Api.ReviewComment) : jsstring * (Z * jsstring) :=
  (Api.file_path c, commentKey c).

(** The map of [groupCommentsByFile] after the comments [done]: one entry
    per path, each holding the comments of its path in their order, and an
    entry for the path of every comment. *)
Definition grouped (m : list (jsstring * list Api.ReviewComment))
    (done : list Api.ReviewComment) : Prop :=
  NoDup (fst <$> m)
  /\ Forall (fun e => snd e = filter (fun c => Api.file_path c = fst e) done
                      /\ snd e <> []) m
  /\ (forall c, c ∈ done -> Api.file_path c ∈ (fst <$> m)).

(** A string that neither starts nor ends with white space. *)
Definition trimmed (s : jsstring) : Prop :=
  forall c, head s = Some c \/ list.last s = Some c -> Chars.isSpace c = false.

(** ** More sample data *)

Definition returnKey : Key := {| name := Some (js "return"); ctrl := false; mouse := None |}.
Definition rightKey : Key := {| name := Some (js "right"); ctrl := false; mouse := None |}.
Definition escapeKey : Key := {| name := Some (js "escape"); ctrl := false; mouse := None |}.

(** A comment in the older format, with an inline prompt marker, and a
    state with the cursor on it. *)
Definition inlinePromptComment : Api.ReviewComment :=
  sampleComment "src/a.ts" 10 "t"
    ("Text." ++ nl ++ nl ++ "**Prompt to Fix with AI**: Add a null check" ++ nl
     ++ "before the call." ++ nl ++ nl ++ "## Notes").

Definition inlinePromptState : ReviewState :=
  set_selectedCommentIndex 0
    (set_files [ {| filePath := js "src/a.ts"; comments := [inlinePromptComment];
                    expanded := true |} ]
               (set_totalComments 1 (initialState (js "id")))).

(** Two comments not yet in the sample state: one for a file it has, one
    for a file it has not. *)
Definition shadow : Api.ReviewComment := sampleComment "src/b.ts" 7 "Shadow" "x".
Definition orphan : Api.ReviewComment := sampleComment "src/c.ts" 1 "Leak" "y".

Definition downKey : Key := {| name := Some (js "down"); ctrl := false; mouse := None |}.
Definition pageDownKey : Key :=
  {| name := Some (js "pagedown"); ctrl := false; mouse := None |}.

(** A comment whose description is thirty words of thirty-one characters,
    so that it wraps to thirty lines in the detail panel of the sample
    terminal, and a short comment of the same file. *)
Fixpoint repeatWord (n : nat) (w : string) : string :=
  match n with
  | O => EmptyString
  | S O => w
  | S n' => (w ++ " " ++ repeatWord n' w)%string
  end.

Definition essay : Api.ReviewComment :=
  sampleComment "src/a.ts" 10 "Essay" (repeatWord 30 "resource-handle-is-never-closed").
Definition note : Api.ReviewComment := sampleComment "src/a.ts" 20 "Note" "Short.".

Definition essaySession : Session :=
  startSession ansiPc floor35 sampleDetailContent (js "id") [essay; note] sampleTerminal.

(** * Properties *)

(** ** Navigation *)

Lemma resetDetailScroll_cursor st : cursor (resetDetailScroll st) = cursor st.
Proof. unfold resetDetailScroll. destruct (isDetail st); reflexivity. Qed.

Lemma resetDetailScroll_files st : files (resetDetailScroll st) = files st.
Proof. unfold resetDetailScroll. destruct (isDetail st); reflexivity. Qed.

Lemma navigateDown_files st : files (navigateDown st) = files st.
Proof.
  unfold navigateDown.
  destruct (at_index (files st) (selectedFileIndex st)); [|reflexivity].
  rewrite resetDetailScroll_files.
  repeat match goal with |- context [if ?b then _ else _] => destruct b end;
    reflexivity.
Qed.

Lemma navigateDown_cursor st :
  cursor (navigateDown st) = downCursor (files st) (cursor st).
Proof.
  unfold navigateDown, downCursor, cursor at 2.
  destruct (at_index (files st) (selectedFileIndex st)); [|reflexivity].
  rewrite resetDetailScroll_cursor.
  repeat match goal with |- context [if ?b then _ else _] => destruct b end;
    reflexivity.
Qed.



(** The [down] key (or [j]) moves the cursor by [navigateDown] whenever the
    file list has the focus: in list mode, and in detail mode with the left
    panel focused and no [ctrl]. *)
Lemma down_key_navigates st key :
  isDownKey key = true -> isUpKey key = false ->
  named key "q" = false -> named key "tab" = false ->
  (ctrl key && named key "c") = false ->
  mode st = list_mode \/ (focusedPanel st = left_panel /\ ctrl key = false) ->
  exists st', handleKeypress st (Some key) = Some (st', render_action)
              /\ cursor st' = cursor (navigateDown st)
              /\ files st' = files st.
Proof.
  intros Hd Hu Hq Ht Hc Hfocus.
  exists (afterMove st (navigateDown st)). split.
  - unfold handleKeypress. rewrite Hq, Hc, Ht, Hd, Hu. unfold isDetail, isLeft.
    destruct Hfocus as [->|[-> ->]]; [reflexivity|].
    destruct (mode st); reflexivity.
  - unfold afterMove.
    match goal with |- context [if ?b then _ else _] => destruct b end;
      split; try reflexivity; apply navigateDown_files.
Qed.

Example showZ_digits : showZ 0 = js "0" /\ showZ 42 = js "42" /\ showZ (-7) = js "-7".
Proof. repeat split; reflexivity. Qed.

Lemma at_index_nat {A} (l : list A) (i : nat) : at_index l (Z.of_nat i) = l !! i.
Proof.
  unfold at_index. destruct (Z.ltb_spec (Z.of_nat i) 0); [lia|].
  now rewrite Nat2Z.id.
Qed.


Lemma map_seq_from {A} (g : nat -> A) a b :
  List.map g (seq a b) = List.map (fun k => g (a + k)%nat) (seq 0 b).
Proof.
  revert a g. induction b as [|b IH]; intros a g; simpl; [reflexivity|].
  f_equal; [f_equal; lia|].
  rewrite (IH (S a)), (IH 1%nat). apply List.map_ext. intros k. f_equal. lia.
Qed.

Lemma orbit_app fs a b c :
  orbit fs (a + b) c = orbit fs a c ++ orbit fs b (Nat.iter a (downCursor fs) c).
Proof.
  unfold orbit. rewrite seq_app, List.map_app. f_equal.
  simpl. rewrite map_seq_from. apply List.map_ext. intros k.
  rewrite Nat.add_comm. apply Nat.iter_add.
Qed.

Lemma fileItems_length i f :
  length (fileItems i f) = S (if expanded f then length (comments f) else 0).
Proof.
  unfold fileItems. simpl. destruct (expanded f); [|reflexivity].
  now rewrite List.length_map, length_seq.
Qed.

Lemma fileItems_closed i f :
  fileItems i f
  = List.map (fun n => (Z.of_nat i, Z.of_nat n - 1)) (seq 0 (length (fileItems i f))).
Proof.
  rewrite fileItems_length. unfold fileItems. simpl. f_equal.
  destruct (expanded f); [|reflexivity].
  rewrite <- seq_shift, List.map_map. apply List.map_ext. intros n. f_equal. lia.
Qed.

Section Block.
Variables (fs : list FileGroup) (i : nat) (f : FileGroup).
Hypothesis Hf : fs !! i = Some f.

Lemma down_header_into :
  expanded f = true -> (0 < length (comments f))%nat ->
  downCursor fs (Z.of_nat i, -1) = (Z.of_nat i, 0).
Proof using Hf.
  intros He Hn. unfold downCursor. rewrite at_index_nat, Hf, He. simpl.
  destruct (Z.gtb_spec (Z.of_nat (length (comments f))) 0); [reflexivity|lia].
Qed.

Lemma down_comment j :
  (S j < length (comments f))%nat ->
  downCursor fs (Z.of_nat i, Z.of_nat j) = (Z.of_nat i, Z.of_nat (S j)).
Proof using Hf.
  intros Hj. unfold downCursor. rewrite at_index_nat, Hf.
  destruct (Z.eqb_spec (Z.of_nat j) (-1)); [lia|].
  destruct (Z.ltb_spec (Z.of_nat j) (Z.of_nat (length (comments f)) - 1)); [|lia].
  f_equal. lia.
Qed.

Lemma block_iter n :
  (n < length (fileItems i f))%nat ->
  Nat.iter n (downCursor fs) (Z.of_nat i, -1) = (Z.of_nat i, Z.of_nat n - 1).
Proof using Hf.
  rewrite fileItems_length. induction n as [|n IH]; intros Hn; [reflexivity|].
  simpl. rewrite IH by lia.
  destruct (expanded f) eqn:He; [|lia].
  destruct n as [|m].
  - change (Z.of_nat 0 - 1) with (-1).
    rewrite down_header_into by (auto; lia). reflexivity.
  - replace (Z.of_nat (S m) - 1) with (Z.of_nat m) by lia.
    rewrite down_comment by lia. f_equal. lia.
Qed.

Lemma block_orbit :
  orbit fs (length (fileItems i f)) (Z.of_nat i, -1) = fileItems i f.
Proof using Hf.
  rewrite (fileItems_closed i f) at 2. unfold orbit.
  apply List.map_ext_in. intros n Hn. apply in_seq in Hn.
  apply block_iter. lia.
Qed.

Lemma down_block_end :
  downCursor fs (Z.of_nat i, Z.of_nat (length (fileItems i f)) - 2)
  = if (S i <? length fs)%nat then (Z.of_nat (S i), -1)
    else (Z.of_nat i, Z.of_nat (length (fileItems i f)) - 2).
Proof using Hf.
  rewrite fileItems_length. unfold downCursor. rewrite at_index_nat, Hf.
  assert (Hlast : (Z.of_nat i <? Z.of_nat (length fs) - 1) = (S i <? length fs)%nat).
  { destruct (Z.ltb_spec (Z.of_nat i) (Z.of_nat (length fs) - 1));
      destruct (Nat.ltb_spec (S i) (length fs)); auto; lia. }
  rewrite Hlast.
  assert (Hnext : (Z.of_nat i + 1, -1) = (Z.of_nat (S i), -1)) by (f_equal; lia).
  destruct (expanded f) eqn:He; simpl.
  - destruct (length (comments f)) as [|m] eqn:Hm; simpl.
    + rewrite Hnext. reflexivity.
    + destruct (Z.eqb_spec (Z.of_nat (S (S m)) - 2) (-1)); [lia|].
      destruct (Z.ltb_spec (Z.of_nat (S (S m)) - 2) (Z.of_nat (S m) - 1)); [lia|].
      rewrite Hnext. reflexivity.
  - rewrite Hnext. reflexivity.
Qed.

Lemma block_exit :
  Nat.iter (length (fileItems i f)) (downCursor fs) (Z.of_nat i, -1)
  = if (S i <? length fs)%nat then (Z.of_nat (S i), -1)
    else (Z.of_nat i, Z.of_nat (length (fileItems i f)) - 2).
Proof using Hf.
  pose proof (fileItems_length i f) as Hl.
  destruct (length (fileItems i f)) as [|a] eqn:Ha; [lia|].
  simpl. rewrite block_iter by lia.
  replace (Z.of_nat a - 1) with (Z.of_nat (length (fileItems i f)) - 2) by lia.
  rewrite down_block_end, Ha. reflexivity.
Qed.
End Block.

Lemma drop_cons_inv {A} (l : list A) i x r :
  drop i l = x :: r -> l !! i = Some x /\ drop (S i) l = r /\ length l = (i + S (length r))%nat.
Proof.
  intros H. split; [|split].
  - pose proof (lookup_drop l i 0) as E. rewrite H, Nat.add_0_r in E.
    symmetry. exact E.
  - pose proof (drop_drop l 1 i) as E. rewrite H in E. simpl in E.
    rewrite Nat.add_1_r in E. symmetry. exact E.
  - assert (length (drop i l) = S (length r)) as Hl by (rewrite H; reflexivity).
    rewrite length_drop in Hl. lia.
Qed.

Lemma itemsFrom_cons i f r : itemsFrom i (f :: r) = fileItems i f ++ itemsFrom (S i) r.
Proof. reflexivity. Qed.

Lemma orbit_items fs : forall rest i,
  drop i fs = rest ->
  orbit fs (length (itemsFrom i rest)) (Z.of_nat i, -1) = itemsFrom i rest
  /\ (rest <> [] ->
      let p := Nat.iter (length (itemsFrom i rest) - 1) (downCursor fs) (Z.of_nat i, -1) in
      downCursor fs p = p).
Proof.
  induction rest as [|f r IH]; intros i Hd; [split; [reflexivity|congruence]|].
  apply drop_cons_inv in Hd as (Hf & Hr & Hlen).
  specialize (IH (S i) Hr) as [IHo IHfix].
  pose proof (fileItems_length i f) as Hfl.
  rewrite itemsFrom_cons, length_app.
  destruct r as [|g r'].
  - change (itemsFrom (S i) []) with (@nil (Z * Z)).
    rewrite Nat.add_0_r, app_nil_r. split; [now apply block_orbit|].
    intros _. cbv zeta.
    assert (Hone : (length (fileItems i f) - 1 < length (fileItems i f))%nat) by lia.
    rewrite (block_iter fs i f Hf _ Hone).
    replace (Z.of_nat (length (fileItems i f) - 1) - 1)
      with (Z.of_nat (length (fileItems i f)) - 2) by lia.
    rewrite (down_block_end fs i f Hf).
    destruct (Nat.ltb_spec (S i) (length fs)); [simpl in Hlen; lia|reflexivity].
  - assert (Hlt : (S i <? length fs)%nat = true).
    { apply Nat.ltb_lt. simpl in Hlen. lia. }
    split.
    + rewrite orbit_app, (block_orbit fs i f Hf), (block_exit fs i f Hf), Hlt, IHo.
      reflexivity.
    + intros _. cbv zeta.
      assert (Hb : (0 < length (itemsFrom (S i) (g :: r')))%nat).
      { rewrite itemsFrom_cons, length_app, fileItems_length. lia. }
      replace (length (fileItems i f) + length (itemsFrom (S i) (g :: r')) - 1)%nat
        with ((length (itemsFrom (S i) (g :: r')) - 1) + length (fileItems i f))%nat by lia.
      rewrite Nat.iter_add, (block_exit fs i f Hf), Hlt.
      apply IHfix. congruence.
Qed.

Lemma in_fileItems i f a b :
  In (a, b) (fileItems i f)
  <-> a = Z.of_nat i
      /\ (b = -1 \/ (expanded f = true /\ 0 <= b < Z.of_nat (length (comments f)))).
Proof.
  unfold fileItems. simpl. split.
  - intros [E|H]; [injection E as <- <-; auto|].
    destruct (expanded f); [|destruct H].
    apply in_map_iff in H as (n & E & Hn). apply in_seq in Hn.
    injection E as <- <-. split; [reflexivity|]. right. split; [reflexivity|lia].
  - intros (-> & [->|(He & Hb)]); [left; reflexivity|].
    right. rewrite He. apply in_map_iff. exists (Z.to_nat b). split.
    + f_equal. lia.
    + apply in_seq. lia.
Qed.

Lemma in_itemsFrom rest : forall i a b,
  In (a, b) (itemsFrom i rest)
  <-> exists k f, rest !! k = Some f /\ a = Z.of_nat (i + k)
        /\ (b = -1 \/ (expanded f = true /\ 0 <= b < Z.of_nat (length (comments f)))).
Proof.
  induction rest as [|f r IH]; intros i a b.
  - simpl. split; [tauto|]. intros (k & g & H & _). discriminate.
  - rewrite itemsFrom_cons, in_app_iff, in_fileItems, IH. split.
    + intros [(-> & H)|(k & g & Hk & -> & H)].
      * exists 0%nat, f. rewrite Nat.add_0_r. auto.
      * exists (S k), g. rewrite Nat.add_succ_r. auto.
    + intros (k & g & Hk & -> & H). destruct k as [|k].
      * left. injection Hk as ->. rewrite Nat.add_0_r. auto.
      * right. exists k, g. rewrite Nat.add_succ_r. auto.
Qed.

Lemma NoDup_fileItems i f : NoDup (fileItems i f).
Proof.
  rewrite fileItems_closed.
  assert (Hinj : Inj (=) (=) (fun n : nat => (Z.of_nat i, Z.of_nat n - 1))).
  { intros n m E. injection E. lia. }
  apply (NoDup_fmap_2 _). apply NoDup_seq.
Qed.

Lemma NoDup_itemsFrom rest : forall i, NoDup (itemsFrom i rest).
Proof.
  induction rest as [|f r IH]; intros i; [constructor|].
  rewrite itemsFrom_cons. apply list.NoDup_app. split; [apply NoDup_fileItems|].
  split; [|apply IH].
  intros [a b] Ha Hb. apply list_elem_of_In in Ha, Hb.
  apply in_fileItems in Ha as [-> _].
  apply in_itemsFrom in Hb as (k & g & _ & E & _). lia.
Qed.


Lemma count_items fs : forall acc i,
  fold_left (fun count f =>
               let count1 := count + 1 in
               if expanded f then count1 + Z.of_nat (length (comments f)) else count1)
            fs acc
  = acc + Z.of_nat (length (itemsFrom i fs)).
Proof.
  induction fs as [|f r IH]; intros acc i; [simpl; lia|].
  rewrite itemsFrom_cons, length_app, fileItems_length. simpl fold_left.
  rewrite (IH _ (S i)). destruct (expanded f); lia.
Qed.



(** ** Merging comments *)

Lemma sameKey_refl c : sameKey c c = true.
Proof. unfold sameKey. now rewrite !bool_decide_eq_true_2. Qed.

Lemma set_files_same st : set_files (files st) st = st.
Proof. destruct st; reflexivity. Qed.

Lemma keyed_unique fs i j g h :
  keyedByPath fs -> fs !! i = Some g -> fs !! j = Some h ->
  filePath g = filePath h -> i = j.
Proof.
  intros Hk Hi Hj E. unfold keyedByPath in Hk.
  apply (proj1 (NoDup_alt _) Hk i j (filePath g)).
  - now rewrite list_lookup_fmap, Hi.
  - now rewrite list_lookup_fmap, Hj, E.
Qed.

(** What [addComment] does, by the group [find] returns. *)
Lemma addComment_found st c i g :
  list_find (fun f => filePath f = Api.file_path c) (files st) = Some (i, g) ->
  addComment st c
  = if existsb (sameKey c) (comments g) then st
    else set_totalComments (totalComments st + 1)
           (set_files (<[i := pushComment c g]> (files st)) st).
Proof. intros H. unfold addComment. now rewrite H. Qed.

Lemma addComment_absent st c :
  list_find (fun f => filePath f = Api.file_path c) (files st) = None ->
  addComment st c
  = set_totalComments (totalComments st + 1)
      (set_files (files st ++ [{| filePath := Api.file_path c; comments := [c];
                                 expanded := true |}]) st).
Proof. intros H. unfold addComment. now rewrite H. Qed.

Lemma keyed_find fs c i g :
  keyedByPath fs -> fs !! i = Some g -> filePath g = Api.file_path c ->
  list_find (fun f => filePath f = Api.file_path c) fs = Some (i, g).
Proof.
  intros Hk Hi Hp. apply list_find_Some. split; [exact Hi|]. split; [exact Hp|].
  intros j y Hj Hlt Hy.
  assert (i = j) by (eapply keyed_unique; eauto; congruence). lia.
Qed.

Lemma keyed_insert fs i g g' :
  keyedByPath fs -> fs !! i = Some g -> filePath g' = filePath g ->
  keyedByPath (<[i := g']> fs).
Proof.
  intros Hk Hi Hp. unfold keyedByPath in *.
  rewrite list_fmap_insert, Hp.
  rewrite list_insert_id; [exact Hk|].
  now rewrite list_lookup_fmap, Hi.
Qed.

Lemma keyed_snoc fs g :
  keyedByPath fs -> (forall h, In h fs -> filePath h <> filePath g) ->
  keyedByPath (fs ++ [g]).
Proof.
  intros Hk Hg. unfold keyedByPath in *. rewrite fmap_app. apply list.NoDup_app.
  split; [exact Hk|]. split; [|apply NoDup_singleton].
  intros p Hp Hq. apply list_elem_of_fmap in Hp as (h & -> & Hh).
  apply list_elem_of_singleton in Hq. apply list_elem_of_In in Hh.
  exact (Hg h Hh Hq).
Qed.

Lemma addComment_keyed st c :
  keyedByPath (files st) -> keyedByPath (files (addComment st c)).
Proof.
  intros Hk.
  destruct (list_find (fun f => filePath f = Api.file_path c) (files st))
    as [[i g]|] eqn:Hfind.
  - rewrite (addComment_found st c i g Hfind).
    apply list_find_Some in Hfind as (Hi & Hp & _).
    destruct (existsb (sameKey c) (comments g)); [exact Hk|].
    simpl. eapply keyed_insert; eauto.
  - rewrite (addComment_absent st c Hfind). simpl.
    apply keyed_snoc; [exact Hk|]. simpl.
    apply list_find_None in Hfind. rewrite Forall_forall in Hfind.
    intros h Hh. apply Hfind. first [assumption | now apply list_elem_of_In].
Qed.

(** Every state a session reaches by merging is keyed by path. *)
Lemma addComments_keyed cs : forall st,
  keyedByPath (files st) -> keyedByPath (files (addComments st cs)).
Proof.
  induction cs as [|c cs IH]; intros st Hk; [exact Hk|].
  apply IH, addComment_keyed, Hk.
Qed.

Lemma initial_keyed dataId cs :
  keyedByPath (files (addComments (initialState dataId) cs)).
Proof. apply addComments_keyed. constructor. Qed.

Lemma existsb_sameKey_iff c cs :
  existsb (sameKey c) cs = true
  <-> exists x, In x cs /\ Api.line_start x = Api.line_start c /\ Api.title x = Api.title c.
Proof.
  rewrite existsb_exists. unfold sameKey. split.
  - intros (x & Hx & Hk). apply andb_true_iff in Hk as [H1 H2].
    apply bool_decide_eq_true_1 in H1, H2. eauto.
  - intros (x & Hx & H1 & H2). exists x. split; [exact Hx|].
    now rewrite !bool_decide_eq_true_2.
Qed.

Lemma addComment_sameButComments st c : sameButComments st (addComment st c).
Proof.
  unfold addComment.
  destruct (list_find _ (files st)) as [[i g]|];
    [destruct (existsb (sameKey c) (comments g))|];
    unfold sameButComments; simpl; tauto.
Qed.

(** C2. Merging one comment [c] into a state whose file groups are keyed by
    path.  When the group with the path of [c] holds a comment with the
    line start and the title of [c], the state is unchanged.  When it holds
    none, that group gets [c] at the end of its comments, keeps its path and
    its expansion, and every other group is as before.  When no group has
    the path, a new expanded group holding [c] alone is appended to
    [files].  In the last two cases [totalComments] grows by exactly one.
    Nothing but [files] and [totalComments] changes, and the groups stay
    keyed by path. *)
Theorem addComment_dedup (st : ReviewState) (c : Api.ReviewComment) :
  keyedByPath (files st) ->
  let st' := addComment st c in
  (forall i g,
      files st !! i = Some g -> filePath g = Api.file_path c ->
      ((exists x, In x (comments g)
                  /\ Api.line_start x = Api.line_start c /\ Api.title x = Api.title c) ->
       st' = st)
      /\ ((forall x, In x (comments g) ->
                     Api.line_start x = Api.line_start c -> Api.title x <> Api.title c) ->
          files st'
          = <[i := {| filePath := filePath g; comments := comments g ++ [c];
                      expanded := expanded g |}]> (files st)
          /\ totalComments st' = totalComments st + 1))
  /\ ((forall g, In g (files st) -> filePath g <> Api.file_path c) ->
      files st'
      = files st ++ [{| filePath := Api.file_path c; comments := [c]; expanded := true |}]
      /\ totalComments st' = totalComments st + 1)
  /\ sameButComments st st'
  /\ keyedByPath (files st').
Proof.
  intros Hk st'. subst st'. split; [|split; [|split]].
  - intros i g Hi Hp. rewrite (addComment_found st c i g) by now apply keyed_find.
    split.
    + intros Hdup. apply existsb_sameKey_iff in Hdup. now rewrite Hdup.
    + intros Hnew.
      destruct (existsb (sameKey c) (comments g)) eqn:He.
      * apply existsb_sameKey_iff in He as (x & Hx & H1 & H2).
        exfalso. exact (Hnew x Hx H1 H2).
      * split; reflexivity.
  - intros Hnone. rewrite addComment_absent; [split; reflexivity|].
    apply list_find_None.
    apply Forall_forall. intros g Hg. apply Hnone. first [assumption | now apply list_elem_of_In].
  - apply addComment_sameButComments.
  - now apply addComment_keyed.
Qed.

Lemma merged_now st c : merged (files (addComment st c)) c.
Proof.
  unfold merged.
  destruct (list_find (fun f => filePath f = Api.file_path c) (files st))
    as [[i g]|] eqn:Hfind.
  - rewrite (addComment_found st c i g Hfind).
    destruct (existsb (sameKey c) (comments g)) eqn:He; [eauto|].
    exists i, (pushComment c g). simpl.
    apply list_find_Some in Hfind as (Hi & Hp & Hbefore).
    split.
    + apply list_find_Some. split; [|split; [exact Hp|]].
      * apply list_lookup_insert_eq. now apply lookup_lt_Some in Hi.
      * intros j y Hj Hlt. rewrite list_lookup_insert_ne in Hj by lia. eauto.
    + rewrite existsb_app. simpl. rewrite sameKey_refl. apply orb_true_iff. auto.
  - rewrite (addComment_absent st c Hfind). simpl.
    eexists _, _. split.
    + apply list_find_app_Some. right. split; [reflexivity|]. split; [exact Hfind|].
      rewrite Nat.sub_diag. simpl. rewrite decide_True by reflexivity. reflexivity.
    + simpl. rewrite sameKey_refl. reflexivity.
Qed.

(** The group [find] picks for a path stays the first of its path when some
    group is replaced by one of the same path. *)
Lemma find_insert_same_path fs (p : jsstring) i g k h h' :
  list_find (fun f => filePath f = p) fs = Some (i, g) ->
  fs !! k = Some h -> filePath h' = filePath h ->
  list_find (fun f => filePath f = p) (<[k := h']> fs)
  = Some (i, if decide (k = i) then h' else g).
Proof.
  intros Hfind Hk Hp. apply list_find_Some in Hfind as (Hi & Hpi & Hbefore).
  apply list_find_Some. destruct (decide (k = i)) as [->|Hne].
  - assert (h = g) as -> by congruence.
    split; [|split; [congruence|]].
    + apply list_lookup_insert_eq. now apply lookup_lt_Some in Hi.
    + intros j y Hj Hlt. rewrite list_lookup_insert_ne in Hj by lia. eauto.
  - split; [|split; [exact Hpi|]].
    + now rewrite list_lookup_insert_ne.
    + intros j y Hj Hlt. destruct (decide (k = j)) as [->|Hkj].
      * rewrite list_lookup_insert_eq in Hj by now apply lookup_lt_Some in Hk.
        injection Hj as <-. rewrite Hp. eauto.
      * rewrite list_lookup_insert_ne in Hj by exact Hkj. eauto.
Qed.

Lemma merged_kept st c c' : merged (files st) c -> merged (files (addComment st c')) c.
Proof.
  intros (i & g & Hfind & He). unfold merged.
  destruct (list_find (fun f => filePath f = Api.file_path c') (files st))
    as [[k h]|] eqn:Hfind'.
  - rewrite (addComment_found st c' k h Hfind').
    destruct (existsb (sameKey c') (comments h)); [eauto|]. simpl.
    apply list_find_Some in Hfind' as (Hk & _ & _).
    eexists _, _. split.
    + eapply find_insert_same_path; eauto.
    + destruct (decide (k = i)) as [->|_]; [|exact He].
      assert (h = g) as ->.
      { apply list_find_Some in Hfind as (Hi & _). congruence. }
      simpl. rewrite existsb_app, He. reflexivity.
  - rewrite (addComment_absent st c' Hfind'). simpl.
    exists i, g. split; [|exact He].
    apply list_find_app_Some. left. exact Hfind.
Qed.

Lemma merged_noop st c : merged (files st) c -> addComment st c = st.
Proof.
  intros (i & g & Hfind & He). now rewrite (addComment_found st c i g Hfind), He.
Qed.

Lemma addComments_snoc st cs c :
  addComments st (cs ++ [c]) = addComment (addComments st cs) c.
Proof. unfold addComments. now rewrite fold_left_app. Qed.

Lemma merged_all cs : forall st c, In c cs -> merged (files (addComments st cs)) c.
Proof.
  induction cs as [|c' cs IH] using rev_ind; intros st c Hin; [destruct Hin|].
  rewrite addComments_snoc. apply in_app_iff in Hin as [Hin|[<-|[]]].
  - apply merged_kept, IH, Hin.
  - apply merged_now.
Qed.

Lemma addComments_noop cs : forall st,
  (forall c, In c cs -> merged (files st) c) -> addComments st cs = st.
Proof.
  induction cs as [|c cs IH]; intros st H; [reflexivity|].
  unfold addComments. simpl. rewrite merged_noop by (apply H; now left).
  apply IH. intros c' Hc'. apply H. now right.
Qed.

(** C10. Merging is idempotent: merging the same list of comments a second
    time leaves the state exactly as the first merge left it. *)
Theorem addComments_idempotent (st : ReviewState) (cs : list Api.ReviewComment) :
  addComments (addComments st cs) cs = addComments st cs.
Proof. apply addComments_noop. intros c Hc. now apply merged_all. Qed.

Lemma addComment_dedup_sample :
  keyedByPath (files sampleState)
  /\ addComment sampleState leak = sampleState
  /\ files (addComment sampleState shadow)
     = [ {| filePath := js "src/a.ts"; comments := [leak; race]; expanded := true |};
         {| filePath := js "src/b.ts"; comments := [typo; shadow]; expanded := false |} ]
  /\ totalComments (addComment sampleState shadow) = 4
  /\ files (addComment sampleState orphan)
     = [ {| filePath := js "src/a.ts"; comments := [leak; race]; expanded := true |};
         {| filePath := js "src/b.ts"; comments := [typo]; expanded := false |};
         {| filePath := js "src/c.ts"; comments := [orphan]; expanded := true |} ]
  /\ totalComments (addComment sampleState orphan) = 4.
Proof.
  assert (Hk : keyedByPath (files sampleState)).
  { unfold keyedByPath. apply (bool_decide_unpack _). vm_compute. exact I. }
  split; [exact Hk|].
  destruct (addComment_dedup sampleState leak Hk) as (Hleak & _).
  destruct (addComment_dedup sampleState shadow Hk) as (Hshadow & _).
  destruct (addComment_dedup sampleState orphan Hk) as (_ & Horphan & _).
  split.
  { apply (Hleak 0%nat _ eq_refl eq_refl). exists leak. simpl. auto. }
  assert (Hs : forall x, In x [typo] ->
                 Api.line_start x = Api.line_start shadow -> Api.title x <> Api.title shadow).
  { intros x [<-|[]] H. vm_compute in H. discriminate H. }
  destruct (proj2 (Hshadow 1%nat _ eq_refl eq_refl) Hs) as (Hfiles & Htotal).
  split; [exact Hfiles|]. split; [exact Htotal|].
  assert (Hf : forall g, In g (files sampleState) -> filePath g <> Api.file_path orphan).
  { intros g [<-|[<-|[]]]; vm_compute; intros H; discriminate H. }
  exact (Horphan Hf).
Defined.

(** ** Scroll offsets *)

Lemma scrollWindow_total lines h o :
  snd (scrollWindow lines h o) = Z.of_nat (length lines).
Proof. reflexivity. Qed.

Lemma concat_imap_length {A B C} (H1 : nat -> C -> list A) (H2 : nat -> C -> list B) l :
  (forall i x, length (H1 i x) = length (H2 i x)) ->
  length (concat (imap H1 l)) = length (concat (imap H2 l)).
Proof.
  revert H1 H2. induction l as [|x l IH]; intros H1 H2 E; [reflexivity|].
  rewrite !imap_cons. simpl concat. rewrite !length_app, E.
  rewrite (IH (H1 ∘ S) (H2 ∘ S)) by (intros; apply E). reflexivity.
Qed.

Lemma itemsFrom_imap fs : forall k, itemsFrom k fs = concat (imap (fun i => fileItems (k + i)) fs).
Proof.
  induction fs as [|f r IH]; intros k; [reflexivity|].
  rewrite itemsFrom_cons, (IH (S k)), imap_cons, concat_cons, Nat.add_0_r.
  f_equal. f_equal. apply imap_ext. intros i x _. unfold compose. f_equal. lia.
Qed.

Section Scroll.
Context (pc : Style -> jsstring -> jsstring) (leftWidthOf : Z -> Z)
        (detailContent : ParsedComment -> Z -> list jsstring).

(** One line per navigable item. *)
Lemma fileListItems_length st w :
  length (fileListItems pc st w) = length (navItems (files st)).
Proof.
  unfold fileListItems, navItems. rewrite itemsFrom_imap.
  apply concat_imap_length. intros i f. rewrite fileItems_length. simpl length.
  destruct (expanded f); [rewrite length_imap|]; reflexivity.
Qed.

(** Four more lines at the top of the list when it is not scrolled. *)
Lemma fileListLines_length st w o ls :
  fileListLines pc st w o = Some ls ->
  Z.of_nat (length ls)
  = (if o =? 0 then 4 else 0) + Z.of_nat (length (navItems (files st))).
Proof.
  unfold fileListLines, fileListHeader. intros H.
  destruct (o =? 0).
  - destruct (rule w); [|discriminate]. simpl in H. injection H as <-.
    rewrite ?length_app. cbn [length]. rewrite fileListItems_length. lia.
  - simpl in H. injection H as <-. now rewrite fileListItems_length.
Qed.

Lemma renderFileList_total st w h o r :
  renderFileList pc st w h o = Some r ->
  snd r = (if o =? 0 then 4 else 0) + Z.of_nat (length (navItems (files st))).
Proof.
  unfold renderFileList. intros H.
  destruct (fileListLines pc st w o) as [ls|] eqn:E; [|discriminate].
  simpl in H. injection H as <-. rewrite scrollWindow_total.
  now apply fileListLines_length in E.
Qed.

(** [totalLines] of the detail panel reads the offset only through the
    test [scrollOffset === 0]. *)
Lemma renderCommentDetail_total st w h h' o o' r r' :
  (o =? 0) = (o' =? 0) ->
  renderCommentDetail pc detailContent st w h o = Some r ->
  renderCommentDetail pc detailContent st w h' o' = Some r' ->
  snd r = snd r'.
Proof.
  intros E. unfold renderCommentDetail.
  destruct (at_index (files st) (selectedFileIndex st)) as [file|]; [|congruence].
  destruct (_ || _); [congruence|].
  destruct (at_index (comments file) (selectedCommentIndex st)); [|congruence].
  unfold detailLines. rewrite E.
  destruct (if o' =? 0 then _ else _) as [header|]; [|discriminate].
  simpl. intros H H'. injection H as <-. injection H' as <-. reflexivity.
Qed.

(** The header lines only add to [totalLines]. *)
Lemma renderCommentDetail_total_le st w h h' o o' r r' :
  o <> 0 ->
  renderCommentDetail pc detailContent st w h o = Some r ->
  renderCommentDetail pc detailContent st w h' o' = Some r' ->
  snd r <= snd r'.
Proof.
  intros Ho. unfold renderCommentDetail.
  destruct (at_index (files st) (selectedFileIndex st)) as [file|];
    [|intros H H'; injection H as <-; injection H' as <-; reflexivity].
  destruct (_ || _); [intros H H'; injection H as <-; injection H' as <-; reflexivity|].
  destruct (at_index (comments file) (selectedCommentIndex st));
    [|intros H H'; injection H as <-; injection H' as <-; reflexivity].
  unfold detailLines. rewrite (proj2 (Z.eqb_neq o 0) Ho).
  destruct (if o' =? 0 then _ else _) as [header|]; [|discriminate].
  cbn [mbind option_bind]. intros H H'. injection H as <-. injection H' as <-.
  rewrite !scrollWindow_total, length_app. cbn [app]. lia.
Qed.

(** What a completed [renderSplitView] returns: both panels were rendered,
    each offset is the smaller of its old value and the panel's maximal
    scroll, and nothing else in the state has changed. *)
Lemma renderSplitView_inv st t st' frame :
  renderSplitView pc leftWidthOf detailContent st t = Some (st', frame) ->
  exists totals,
    panelTotals pc leftWidthOf detailContent st t = Some totals
    /\ st' = set_detailScrollOffset
               (Z.min (detailScrollOffset st) (Z.max 0 (snd totals - viewportHeight t)))
               (set_leftPanelScrollOffset
                  (Z.min (leftPanelScrollOffset st)
                         (Z.max 0 (fst totals - viewportHeight t))) st)
    /\ statusMsg frame
       = if isRunning st then pc yellow (spinner st ++ js " Reviewing...")
         else pc green (js ":: Done").
Proof.
  unfold renderSplitView, panelTotals, panelTotalsAt, viewportHeight.
  destruct (getTerminalSize t) as [w h]. cbn [fst snd].
  destruct (rule w); [|discriminate]. cbn [mbind option_bind].
  replace (h - 1 - 5) with (h - 1 - 5) by reflexivity.
  destruct (renderFileList pc st (leftWidthOf w) (h - 1 - 5) (leftPanelScrollOffset st))
    as [l|]; [|discriminate]. cbn [mbind option_bind].
  destruct (renderCommentDetail pc detailContent st (w - leftWidthOf w - 3) (h - 1 - 5)
              (detailScrollOffset st)) as [r|]; [|discriminate]. cbn [mbind option_bind].
  intros H. injection H as <- <-. exists (snd l, snd r). auto.
Qed.

Lemma clamp_range o total vh :
  0 <= o -> inScrollRange (Z.min o (Z.max 0 (total - vh))) total vh.
Proof. unfold inScrollRange. lia. Qed.

Lemma clamp_range_mono o total total' vh :
  0 <= o ->
  (Z.min o (Z.max 0 (total - vh)) <> 0 -> total <= total') ->
  inScrollRange (Z.min o (Z.max 0 (total - vh))) total' vh.
Proof.
  intros Ho Hst. unfold inScrollRange.
  destruct (Z.eq_dec (Z.min o (Z.max 0 (total - vh))) 0) as [E|E]; [lia|].
  specialize (Hst E). lia.
Qed.

(** What [renderSplitView] stores lies in the range of each panel. *)
Lemma renderSplitView_clamps (st st' : ReviewState) (t : Terminal) (frame : Frame) :
  renderSplitView pc leftWidthOf detailContent st t = Some (st', frame) ->
  scrollNonneg st ->
  (exists totals,
      panelTotals pc leftWidthOf detailContent st t = Some totals
      /\ inScrollRange (leftPanelScrollOffset st') (fst totals) (viewportHeight t)
      /\ inScrollRange (detailScrollOffset st') (snd totals) (viewportHeight t))
  /\ (forall leftOffset detailOffset totals',
         panelTotalsAt pc leftWidthOf detailContent st' t leftOffset detailOffset
         = Some totals' ->
         inScrollRange (leftPanelScrollOffset st') (fst totals') (viewportHeight t)
         /\ inScrollRange (detailScrollOffset st') (snd totals') (viewportHeight t)).
Proof.
  intros Hr [Hl Hd].
  destruct (renderSplitView_inv st t st' frame Hr) as ([tl tr] & Htot & -> & _).
  cbn [fst snd leftPanelScrollOffset detailScrollOffset set_detailScrollOffset
       set_leftPanelScrollOffset].
  split.
  - exists (tl, tr). split; [exact Htot|]. split; now apply clamp_range.
  - intros ol od [tl' tr'] Htot'. cbn [fst snd].
    unfold panelTotals, panelTotalsAt in Htot, Htot'. cbn [fst snd] in Htot, Htot'.
    destruct (renderFileList pc st _ _ (leftPanelScrollOffset st)) as [l|] eqn:El;
      [|discriminate].
    cbn [mbind option_bind] in Htot.
    destruct (renderCommentDetail pc detailContent st _ _ (detailScrollOffset st))
      as [r|] eqn:Er; [|discriminate].
    cbn [mbind option_bind] in Htot. injection Htot as <- <-.
    destruct (renderFileList pc _ _ _ ol) as [l'|] eqn:El' in Htot'; [|discriminate].
    cbn [mbind option_bind] in Htot'.
    destruct (renderCommentDetail pc detailContent _ _ _ od) as [r'|] eqn:Er' in Htot';
      [|discriminate].
    cbn [mbind option_bind] in Htot'. injection Htot' as <- <-.
    apply renderFileList_total in El, El'.
    cbn [files set_detailScrollOffset set_leftPanelScrollOffset] in El'.
    split.
    + apply clamp_range_mono; [exact Hl|]. intros Hne. rewrite El, El'.
      destruct (Z.eqb_spec (leftPanelScrollOffset st) 0) as [E0|].
      * rewrite E0 in Hne. lia.
      * destruct (ol =? 0); lia.
    + apply clamp_range_mono; [exact Hd|]. intros Hne.
      assert (Er'' : renderCommentDetail pc detailContent st
                       (fst (getTerminalSize t) - leftWidthOf (fst (getTerminalSize t)) - 3)
                       (viewportHeight t) od = Some r')
        by exact Er'.
      eapply renderCommentDetail_total_le; [|exact Er|exact Er''].
      intros E0. rewrite E0 in Hne. lia.
Qed.

(** C3. When a render of the detail mode, the split view, completes, the
    stored offset of each panel lies between 0 and
    [max(0, totalLines - viewportHeight)], whatever non-negative value a
    handler had stored before.  This holds for [totalLines] as this render
    computed it, and as a render of the resulting state computes it at any
    scroll position: at the stored offsets, and at offset 0, where the
    panel has all its lines.  A render of the list mode stores nothing: the
    two offsets are what they were. *)
Theorem render_clamps_scroll (st st' : ReviewState) (t : Terminal) (frame : Frame) :
  render pc leftWidthOf detailContent st t = Some (st', frame) ->
  scrollNonneg st ->
  (mode st = detail_mode ->
   (exists totals,
       panelTotals pc leftWidthOf detailContent st t = Some totals
       /\ inScrollRange (leftPanelScrollOffset st') (fst totals) (viewportHeight t)
       /\ inScrollRange (detailScrollOffset st') (snd totals) (viewportHeight t))
   /\ (forall leftOffset detailOffset totals',
          panelTotalsAt pc leftWidthOf detailContent st' t leftOffset detailOffset
          = Some totals' ->
          inScrollRange (leftPanelScrollOffset st') (fst totals') (viewportHeight t)
          /\ inScrollRange (detailScrollOffset st') (snd totals') (viewportHeight t)))
  /\ (mode st = list_mode ->
      leftPanelScrollOffset st' = leftPanelScrollOffset st
      /\ detailScrollOffset st' = detailScrollOffset st
      /\ st' = st).
Proof.
  unfold render, isDetail. intros Hr Hn. destruct (mode st).
  - split; [discriminate|]. intros _.
    destruct (renderListView pc st t); [|discriminate].
    injection Hr as <- _. auto.
  - split; [|discriminate]. intros _.
    exact (renderSplitView_clamps st st' t frame Hr Hn).
Qed.

End Scroll.

(** ** What the handlers leave alone *)

Lemma quiet_refl st : quiet st st.
Proof. unfold quiet. tauto. Qed.

Lemma quiet_trans a b c : quiet a b -> quiet b c -> quiet a c.
Proof.
  unfold quiet. intros (E1 & E2 & E3) (F1 & F2 & F3).
  split; [congruence|]. split; [congruence|auto].
Qed.

Ltac quiet_fields :=
  unfold quiet, scrollNonneg; simpl; repeat split; try reflexivity; try lia.

Ltac case_ifs :=
  repeat match goal with
         | |- context [if ?b then _ else _] => destruct b eqn:?
         end.

Lemma quiet_resetDetailScroll st : quiet st (resetDetailScroll st).
Proof. unfold resetDetailScroll. destruct (isDetail st); quiet_fields. Qed.

Lemma quiet_navigateDown st : quiet st (navigateDown st).
Proof.
  unfold navigateDown.
  destruct (at_index (files st) (selectedFileIndex st)); [|apply quiet_refl].
  eapply quiet_trans; [|apply quiet_resetDetailScroll].
  case_ifs; quiet_fields.
Qed.

Lemma quiet_navigateUp st st' : navigateUp st = Some st' -> quiet st st'.
Proof.
  unfold navigateUp. intros H.
  repeat match type of H with
         | context [if ?b then _ else _] => destruct b eqn:?
         | context [match ?x with Some _ => _ | None => _ end] => destruct x eqn:?
         end;
    inversion H; subst; clear H;
    (eapply quiet_trans; [|apply quiet_resetDetailScroll]); quiet_fields.
Qed.

Lemma quiet_afterMove st st' : quiet st' (afterMove st st').
Proof. unfold afterMove. case_ifs; quiet_fields. Qed.

Lemma quiet_toggleExpanded st : quiet st (toggleExpanded st).
Proof.
  unfold toggleExpanded.
  destruct (at_index (files st) (selectedFileIndex st)); [|apply quiet_refl].
  case_ifs; quiet_fields.
Qed.

Lemma quiet_handleKeypress st key st' a :
  handleKeypress st key = Some (st', a) -> quiet st st'.
Proof.
  unfold handleKeypress. destruct key as [key|]; [|intros H; inversion H; apply quiet_refl].
  intros H.
  repeat match type of H with
         | context [if ?b then _ else _] => destruct b eqn:?
         | context [match navigateUp ?x with Some _ => _ | None => _ end] =>
             destruct (navigateUp x) eqn:?
         end;
    inversion H; subst; clear H;
    try apply quiet_refl; try apply quiet_toggleExpanded;
    try (eapply quiet_trans; [|apply quiet_afterMove]);
    try apply quiet_navigateDown; try (now apply quiet_navigateUp);
    quiet_fields.
Qed.

Lemma quiet_addComment st c : quiet st (addComment st c).
Proof.
  unfold addComment.
  destruct (list_find _ _) as [[i g]|]; [destruct (existsb _ _)|]; quiet_fields.
Qed.

Lemma quiet_addComments cs : forall st, quiet st (addComments st cs).
Proof.
  induction cs as [|c cs IH]; intros st; [apply quiet_refl|].
  eapply quiet_trans; [apply quiet_addComment|apply IH].
Qed.


(** ** The event loop *)

Section EventLoop.
Context (pc : Style -> jsstring -> jsstring) (leftWidthOf : Z -> Z)
        (detailContent : ParsedComment -> Z -> list jsstring).

Local Abbreviation render' := (render pc leftWidthOf detailContent).
Local Abbreviation withRender' := (withRender pc leftWidthOf detailContent).

(** A render changes the two scroll offsets only, and keeps them
    non-negative. *)
Lemma quiet_render st t st' frame : render' st t = Some (st', frame) -> quiet st st'.
Proof.
  unfold render. destruct (isDetail st).
  - intros H. apply renderSplitView_inv in H as (totals & _ & -> & _).
    unfold quiet, scrollNonneg. simpl. repeat split; lia.
  - destruct (renderListView pc st t); [|discriminate].
    intros H. injection H as <- _. apply quiet_refl.
Qed.

(** The last footer line of the split view: the hints and the status
    message, cut to the terminal width. *)
Lemma renderSplitView_footer st t st' frame :
  renderSplitView pc leftWidthOf detailContent st t = Some (st', frame) ->
  list.last (footer frame)
  = Some (truncateLine
            (pc dim ([8592%N] ++ js "/Esc: Back") ++ js "  |  " ++ pc dim (js "c: Copy")
             ++ js "  |  " ++ pc dim (js "q: Quit") ++ js "  |  " ++ statusMsg frame)
            (fst (getTerminalSize t))).
Proof.
  unfold renderSplitView.
  destruct (getTerminalSize t) as [w h]. cbn [fst snd].
  destruct (rule w); [|discriminate]. cbn [mbind option_bind].
  destruct (renderFileList pc st (leftWidthOf w) (h - 1 - 5) (leftPanelScrollOffset st))
    as [l|]; [|discriminate]. cbn [mbind option_bind].
  destruct (renderCommentDetail pc detailContent st (w - leftWidthOf w - 3) (h - 1 - 5)
              (detailScrollOffset st)) as [r|]; [|discriminate]. cbn [mbind option_bind].
  intros H. injection H as _ <-. reflexivity.
Qed.

(** The frame of a state that is not running has the static footer. *)
Lemma render_static st t st' frame :
  render' st t = Some (st', frame) -> isRunning st = false ->
  staticFooterAt pc (isDetail st) (fst (getTerminalSize t)) frame.
Proof.
  unfold render, staticFooterAt. intros H Hr. destruct (isDetail st).
  - pose proof (renderSplitView_footer _ _ _ _ H) as Hf.
    apply renderSplitView_inv in H as (totals & _ & _ & Hm).
    rewrite Hr in Hm. rewrite Hf, Hm. split; reflexivity.
  - unfold renderListView in H. destruct (getTerminalSize t) as [w h].
    destruct (renderFileList pc st w (h - 4) 0); [|discriminate].
    destruct (rule w); [|discriminate].
    cbn [mbind option_bind] in H. injection H as _ <-. cbn [statusMsg footer].
    rewrite Hr. split; reflexivity.
Qed.

Lemma keepsView_terminate : keepsView terminate.
Proof. intros x. simpl. auto. Qed.

Lemma keepsView_swallowed : keepsView swallowed.
Proof. intros x. unfold swallowed. auto. Qed.

(** The two outcomes of a render in a callback: a frame is pushed and the
    rendered state stored, or the render raises and the state the callback
    had reached is kept. *)
Lemma withRender_cases s st raised :
  keepsView raised ->
  let s' := withRender' s st raised in
  (exists st' frame,
      render' st (terminal s) = Some (st', frame)
      /\ state s' = st' /\ frames s' = frame :: frames s
      /\ pollTimer s' = pollTimer s /\ uiTimer s' = uiTimer s
      /\ exited s' = exited s)
  \/ (render' st (terminal s) = None
      /\ state s' = st /\ frames s' = frames s
      /\ (pollTimer s = false -> pollTimer s' = false)).
Proof.
  intros Hk. unfold withRender.
  destruct (render' st (terminal s)) as [[st' frame]|].
  - left. exists st', frame. simpl. auto 10.
  - right. destruct (Hk (withState s st)) as (E1 & E2 & E3). simpl in *. auto.
Qed.

Lemma quiet_withRender s st raised :
  keepsView raised ->
  quiet (state s) st -> quiet (state s) (state (withRender' s st raised)).
Proof.
  intros Hk H.
  destruct (withRender_cases s st raised Hk)
    as [(st' & frame & Hr & -> & _)|(_ & -> & _)]; [|exact H].
  eapply quiet_trans; [exact H|]. eapply quiet_render, Hr.
Qed.

End EventLoop.

Section EventLoopSteps.
Context (pc : Style -> jsstring -> jsstring) (leftWidthOf : Z -> Z)
        (detailContent : ParsedComment -> Z -> list jsstring).

Local Abbreviation render' := (render pc leftWidthOf detailContent).
Local Abbreviation step' := (step pc leftWidthOf detailContent).
Local Abbreviation run' := (run pc leftWidthOf detailContent).
Local Abbreviation withRender' := (withRender pc leftWidthOf detailContent).
Local Abbreviation onKey' := (onKey pc leftWidthOf detailContent).
Local Abbreviation onMouse' := (onMouse pc leftWidthOf detailContent).

Lemma quiet_onKey s key : quiet (state s) (state (onKey' s key)).
Proof.
  unfold onKey. destruct (handleKeypress (state s) key) as [[st a]|] eqn:Hk;
    [|apply quiet_refl].
  apply quiet_handleKeypress in Hk.
  destruct a; simpl; try exact Hk.
  - apply quiet_withRender; [apply keepsView_terminate|exact Hk].
  - destruct (copyPayload st) as [[text|]|]; exact Hk.
Qed.

Lemma quiet_onMouse s key m : quiet (state s) (state (onMouse' s key m)).
Proof.
  unfold onMouse. destruct (getTerminalSize (terminal s)) as [w h].
  case_ifs; try apply quiet_onKey;
    (apply quiet_withRender; [apply keepsView_terminate|]); quiet_fields.
Qed.

(** Every event but a status report and a timer tick is quiet. *)
Lemma quiet_step s e :
  match e with StatusPolled _ | UiTick => False | _ => True end ->
  quiet (state s) (state (step' s e)).
Proof.
  intros He. unfold step. destruct (exited s); [apply quiet_refl|].
  destruct e as [key|t|cs|a|]; try destruct He.
  - destruct key as [k|]; [destruct (mouse k)|];
      first [apply quiet_onMouse | apply quiet_onKey].
  - match goal with
    | |- quiet _ (state (withRender _ _ _ ?x _ _)) =>
        apply (quiet_withRender pc leftWidthOf detailContent x (state s) terminate)
    end; [apply keepsView_terminate|apply quiet_refl].
  - destruct cs; [apply quiet_refl|].
    apply quiet_withRender; [apply keepsView_swallowed|apply quiet_addComments].
Qed.

(** The scroll offsets are never negative in a session. *)
Lemma step_scrollNonneg s e :
  scrollNonneg (state s) -> scrollNonneg (state (step' s e)).
Proof.
  intros H. destruct e as [key|t|cs|a|].
  - exact (proj2 (proj2 (quiet_step s (Keypress key) I)) H).
  - exact (proj2 (proj2 (quiet_step s (Resize t) I)) H).
  - exact (proj2 (proj2 (quiet_step s (CommentsPolled cs) I)) H).
  - unfold step. destruct (exited s); [exact H|].
    destruct a; try exact H;
      match goal with
      | |- scrollNonneg (state (withRender _ _ _ ?x ?st _)) =>
          destruct (withRender_cases pc leftWidthOf detailContent x st swallowed
                      keepsView_swallowed)
            as [(st' & frame & Hr & -> & _)|(_ & -> & _)]
      end;
      try (eapply quiet_render; [exact Hr|]); exact H.
  - unfold step. destruct (exited s); [exact H|].
    destruct (uiTimer s && isRunning (state s)); [|exact H].
    destruct (withRender_cases pc leftWidthOf detailContent s
                (set_spinnerFrame (spinnerFrame (state s) + 1) (state s)) terminate
                keepsView_terminate)
      as [(st' & frame & Hr & -> & _)|(_ & -> & _)];
      try (eapply quiet_render; [exact Hr|]); exact H.
Qed.

Lemma startSession_scrollNonneg dataId initial t :
  scrollNonneg (state (startSession pc leftWidthOf detailContent dataId initial t)).
Proof.
  unfold startSession.
  assert (H0 : scrollNonneg (addComments (initialState dataId) initial)).
  { apply quiet_addComments. unfold scrollNonneg. simpl. lia. }
  destruct (render' _ t) as [[st fr]|] eqn:Hr; simpl; [|exact H0].
  eapply quiet_render; [exact Hr|exact H0].
Qed.

Lemma run_scrollNonneg events : forall s,
  scrollNonneg (state s) -> scrollNonneg (state (run' s events)).
Proof.
  induction events as [|e es IH]; intros s H; [exact H|].
  apply IH, step_scrollNonneg, H.
Qed.

(** In every state a session reaches the two offsets are non-negative, so
    the clamping theorem applies at every render of a
    session. *)
Lemma session_scrollNonneg dataId initial t events :
  scrollNonneg
    (state (run' (startSession pc leftWidthOf detailContent dataId initial t) events)).
Proof. apply run_scrollNonneg, startSession_scrollNonneg. Qed.

End EventLoopSteps.

Section AfterAnalysis.
Context (pc : Style -> jsstring -> jsstring) (leftWidthOf : Z -> Z)
        (detailContent : ParsedComment -> Z -> list jsstring).

Local Abbreviation render' := (render pc leftWidthOf detailContent).
Local Abbreviation step' := (step pc leftWidthOf detailContent).
Local Abbreviation run' := (run pc leftWidthOf detailContent).
Local Abbreviation withRender' := (withRender pc leftWidthOf detailContent).
Local Abbreviation onKey' := (onKey pc leftWidthOf detailContent).
Local Abbreviation onMouse' := (onMouse pc leftWidthOf detailContent).
Local Abbreviation static := (staticFooter pc).
Local Abbreviation idle := (idle pc).

Lemma isRunning_quiet st st' : quiet st st' -> isRunning st' = isRunning st.
Proof. intros (E & _). unfold isRunning. now rewrite E. Qed.

Lemma drawnSince_refl (P : Frame -> Prop) s : drawnSince P s s.
Proof. exists []. split; [reflexivity|constructor]. Qed.

Lemma drawnSince_same (P : Frame -> Prop) s s' :
  frames s' = frames s -> drawnSince P s s'.
Proof. intros E. exists []. split; [exact E|constructor]. Qed.

Lemma drawnSince_trans (P : Frame -> Prop) a b c :
  drawnSince P a b -> drawnSince P b c -> drawnSince P a c.
Proof.
  intros (n1 & E1 & F1) (n2 & E2 & F2). exists (n2 ++ n1).
  split; [rewrite E2, E1; apply app_assoc|]. apply Forall_app. auto.
Qed.

Lemma idle_refl s : settled s -> idle s s.
Proof. intros H. split; [exact H|]. split; [reflexivity|apply drawnSince_refl]. Qed.

(** A callback that has brought the state of a session without poll timer
    to [st], not running, and renders. *)
Lemma idle_withRender s st raised :
  keepsView raised -> pollTimer s = false -> isRunning st = false ->
  let s' := withRender' s st raised in
  settled s' /\ spinnerFrame (state s') = spinnerFrame st /\ drawnSince static s s'.
Proof.
  intros Hk Hp Hr.
  destruct (withRender_cases pc leftWidthOf detailContent s st raised Hk)
    as [(st' & frame & Hrender & Hst & Hfr & Hpoll & _)|(_ & Hst & Hfr & Hpoll)];
    cbv zeta.
  - pose proof (quiet_render _ _ _ _ _ _ _ Hrender) as Hq.
    split; [split|split].
    + rewrite Hst, (isRunning_quiet _ _ Hq). exact Hr.
    + congruence.
    + rewrite Hst. apply Hq.
    + exists [frame]. split; [exact Hfr|].
      constructor; [|constructor].
      eexists _, _. eapply render_static; eassumption.
  - split; [split|split].
    + rewrite Hst. exact Hr.
    + auto.
    + now rewrite Hst.
    + now apply drawnSince_same.
Qed.

Lemma idle_same s s' :
  settled s -> state s' = state s -> frames s' = frames s ->
  (pollTimer s = false -> pollTimer s' = false) -> idle s s'.
Proof.
  intros (Hr & Hp) Es Ef Ep. split; [split|split].
  - now rewrite Es.
  - auto.
  - now rewrite Es.
  - now apply drawnSince_same.
Qed.

Lemma idle_onKey s key : settled s -> idle s (onKey' s key).
Proof.
  intros H. pose proof H as (Hr & Hp). unfold onKey.
  destruct (handleKeypress (state s) key) as [[st a]|] eqn:Hk;
    [|apply idle_same; auto].
  apply quiet_handleKeypress in Hk.
  pose proof (isRunning_quiet _ _ Hk) as Hr'. rewrite Hr in Hr'.
  destruct Hk as (_ & Hsp & _).
  assert (Hkeep : forall s', state s' = st -> frames s' = frames s ->
                             pollTimer s' = false -> idle s s').
  { intros s' Es Ef Ep. split; [split|split].
    - now rewrite Es.
    - exact Ep.
    - now rewrite Es.
    - now apply drawnSince_same. }
  destruct a; try solve [apply Hkeep; simpl; auto].
  - destruct (idle_withRender s st terminate keepsView_terminate Hp Hr')
      as (H1 & H2 & H3).
    split; [exact H1|]. split; [congruence|exact H3].
  - destruct (copyPayload st) as [[text|]|]; apply Hkeep; simpl; auto.
Qed.

Lemma idle_onMouse s key m : settled s -> idle s (onMouse' s key m).
Proof.
  intros H. pose proof H as (Hr & Hp). unfold onMouse.
  destruct (getTerminalSize (terminal s)) as [w h].
  case_ifs; try (now apply idle_onKey);
    match goal with
    | |- idle _ (withRender _ _ _ _ ?st _) =>
        destruct (idle_withRender s st terminate keepsView_terminate Hp Hr)
          as (H1 & H2 & H3)
    end;
    (split; [exact H1|]; split; [exact H2|exact H3]).
Qed.

Lemma idle_step s e : settled s -> idle s (step' s e).
Proof.
  intros H. pose proof H as (Hr & Hp). unfold step.
  destruct (exited s); [now apply idle_refl|].
  destruct e as [key|t|cs|a|].
  - destruct key as [k|]; [destruct (mouse k)|];
      first [now apply idle_onMouse | now apply idle_onKey].
  - match goal with
    | |- idle _ (withRender _ _ _ ?x ?st _) =>
        destruct (idle_withRender x st terminate keepsView_terminate Hp Hr)
          as (H1 & H2 & H3)
    end.
    split; [exact H1|]. split; [exact H2|exact H3].
  - destruct cs as [|c cs]; [now apply idle_refl|].
    pose proof (quiet_addComments (c :: cs) (state s)) as Hq.
    pose proof (isRunning_quiet _ _ Hq) as Hr'. rewrite Hr in Hr'.
    destruct (idle_withRender s _ swallowed keepsView_swallowed Hp Hr')
      as (H1 & H2 & H3).
    split; [exact H1|]. split; [|exact H3].
    rewrite H2. apply Hq.
  - destruct a; [now apply idle_refl| | |];
      match goal with
      | |- idle _ (withRender _ _ _ ?x ?st _) =>
          destruct (idle_withRender x st swallowed keepsView_swallowed eq_refl eq_refl)
            as (H1 & H2 & H3)
      end;
      (split; [exact H1|]; split; [exact H2|exact H3]).
  - rewrite Hr, andb_false_r. now apply idle_refl.
Qed.

Lemma idle_run events : forall s, settled s -> idle s (run' s events).
Proof.
  induction events as [|e es IH]; intros s H; [now apply idle_refl|].
  destruct (idle_step s e H) as (H1 & H2 & H3).
  destruct (IH _ H1) as (I1 & I2 & I3).
  split; [exact I1|]. split.
  - unfold run in *. simpl. congruence.
  - eapply drawnSince_trans; [exact H3|exact I3].
Qed.

Lemma tick_idle s : isRunning (state s) = false -> step' s UiTick = s.
Proof.
  intros Hr. unfold step. destruct (exited s); [reflexivity|].
  now rewrite Hr, andb_false_r.
Qed.

(** C9, as the code has it.  When a poll reports a status other than
    [running], the status is stored, the poll timer is cleared, and the view
    is rendered: when that render completes, its frame is the next one
    drawn, and the last line of the footer drawn is the static completion
    message in the list view, and in the split view the hint line that
    ends in [:: Done], cut to the terminal width.  The tick timer is left
    armed; its callback tests the status and from then on does nothing.
    Whatever events follow, the spinner frame never advances, the status
    never returns to [running], no poll is scheduled, and every frame drawn
    since the report has such a footer.  The line of the split view is
    drawn in full on a terminal that has a column for each of its visible
    characters. *)
Theorem analysis_finished (s : Session) (a : Api.AnalysisStatus) :
  exited s = false -> a <> Api.running ->
  let s1 := step' s (StatusPolled a) in
  status (state s1) = a
  /\ pollTimer s1 = false
  /\ uiTimer s1 = uiTimer s
  /\ spinnerFrame (state s1) = spinnerFrame (state s)
  /\ match render' (set_status a (state s)) (terminal s) with
     | Some (_, frame) =>
         frames s1 = frame :: frames s
         /\ statusMsg frame = completionMsg pc (isDetail (state s))
         /\ list.last (footer frame)
            = Some (if isDetail (state s)
                    then truncateLine (doneLine pc) (fst (getTerminalSize (terminal s)))
                    else pc green (js ":: Review completed! " ++ [55356; 57225]%N))
     | None => frames s1 = frames s
     end
  /\ (forall events,
        let s2 := run' s1 events in
        spinnerFrame (state s2) = spinnerFrame (state s)
        /\ settled s2
        /\ drawnSince (staticFooter pc) s s2
        /\ step' s2 UiTick = s2)
  /\ (forall width,
        visibleLength (doneLine pc) <= width ->
        truncateLine (doneLine pc) width = doneLine pc).
Proof.
  intros He Ha s1.
  set (x := {| state := state s; terminal := terminal s; pollTimer := false;
               uiTimer := uiTimer s; exited := exited s; frames := frames s;
               clipboard := clipboard s |}).
  assert (Hs1 : s1 = withRender' x (set_status a (state s)) swallowed).
  { unfold s1, step, x. generalize He. destruct (exited s); [discriminate|].
    intros _. destruct a; [contradiction| | |]; reflexivity. }
  assert (Hrun : isRunning (set_status a (state s)) = false).
  { unfold isRunning. simpl. destruct a; [contradiction| | |]; reflexivity. }
  destruct (idle_withRender x _ swallowed keepsView_swallowed eq_refl Hrun)
    as (Hset & Hsp & Hdrawn).
  rewrite <- Hs1 in Hset, Hsp, Hdrawn.
  assert (Hfields :
    status (state s1) = a /\ uiTimer s1 = uiTimer s
    /\ match render' (set_status a (state s)) (terminal s) with
       | Some (_, frame) =>
           frames s1 = frame :: frames s
           /\ staticFooterAt pc (isDetail (state s)) (fst (getTerminalSize (terminal s)))
                frame
       | None => frames s1 = frames s
       end).
  { rewrite Hs1. unfold withRender. change (terminal x) with (terminal s).
    destruct (render' (set_status a (state s)) (terminal s)) as [[st' frame]|] eqn:Hr.
    - simpl. split; [|split; [reflexivity|split; [reflexivity|]]].
      + now rewrite (proj1 (quiet_render _ _ _ _ _ _ _ Hr)).
      + exact (render_static _ _ _ _ _ _ _ Hr Hrun).
    - simpl. auto. }
  destruct Hfields as (Hstatus & Hui & Hframes).
  split; [exact Hstatus|]. split; [apply Hset|]. split; [exact Hui|].
  split; [exact Hsp|]. split; [|split].
  - destruct (render' (set_status a (state s)) (terminal s)) as [[st' frame]|];
      [|exact Hframes].
    destruct Hframes as (Hf & Hm & Hl). split; [exact Hf|]. split; [exact Hm|].
    exact Hl.
  - intros events s2. destruct (idle_run events s1 Hset) as (I1 & I2 & I3).
    split; [etransitivity; [exact I2|exact Hsp]|]. split; [exact I1|]. split.
    + eapply drawnSince_trans; [exact Hdrawn|exact I3].
    + apply tick_idle, I1.
  - intros width Hw. unfold truncateLine.
    destruct (Z.leb_spec (visibleLength (doneLine pc)) width); [reflexivity|lia].
Qed.

End AfterAnalysis.

Lemma render_clamps_scroll_sample :
  (exists st' frame,
      render ansiPc floor35 sampleDetailContent scrolledState sampleTerminal
      = Some (st', frame)
      /\ scrollNonneg scrolledState
      /\ mode scrolledState = detail_mode
      /\ leftPanelScrollOffset scrolledState = 50
      /\ detailScrollOffset scrolledState = 7
      /\ panelTotals ansiPc floor35 sampleDetailContent scrolledState sampleTerminal
         = Some (4, 2)
      /\ viewportHeight sampleTerminal = 18
      /\ leftPanelScrollOffset st' = 0
      /\ detailScrollOffset st' = 0)
  /\ (exists frame,
        render ansiPc floor35 sampleDetailContent sampleState sampleTerminal
        = Some (sampleState, frame)
        /\ mode sampleState = list_mode).
Proof.
  split.
  - assert (H : scrollNonneg scrolledState) by (unfold scrollNonneg; simpl; lia).
    assert (Ht : panelTotals ansiPc floor35 sampleDetailContent scrolledState sampleTerminal
                 = Some (4, 2)) by (vm_compute; reflexivity).
    assert (Hv : viewportHeight sampleTerminal = 18) by reflexivity.
    destruct (render ansiPc floor35 sampleDetailContent scrolledState sampleTerminal)
      as [[st' frame]|] eqn:E; [|vm_compute in E; discriminate].
    destruct (proj1 (render_clamps_scroll ansiPc floor35 sampleDetailContent
                       scrolledState st' sampleTerminal frame E H) eq_refl)
      as ((totals & Ht' & Hl & Hd) & _).
    rewrite Ht in Ht'. injection Ht' as <-. rewrite Hv in Hl, Hd.
    unfold inScrollRange in Hl, Hd. cbn [fst snd] in Hl, Hd.
    exists st', frame. split; [reflexivity|]. split; [exact H|].
    split; [reflexivity|]. split; [reflexivity|]. split; [reflexivity|].
    split; [exact Ht|]. split; [exact Hv|]. split; lia.
  - assert (H : scrollNonneg sampleState) by (unfold scrollNonneg; simpl; lia).
    destruct (render ansiPc floor35 sampleDetailContent sampleState sampleTerminal)
      as [[st' frame]|] eqn:E; [|vm_compute in E; discriminate].
    destruct (proj2 (render_clamps_scroll ansiPc floor35 sampleDetailContent
                       sampleState st' sampleTerminal frame E H) eq_refl)
      as (_ & _ & ->).
    exists frame. split; reflexivity.
Defined.

(** C3 as stated fails for the renders of the list view.  In a session
    with a long and a short comment, the keys down, return and page down
    bring the detail panel of the long comment to offset 10; escape twice
    leads back to the list, and down moves the cursor to the short comment.
    The render that follows completes and stores nothing: the detail offset
    is still 10, while the detail panel of the short comment has 7 lines in
    all (2 at the stored offset) against a viewport of 18, so that the
    largest offset in range is 0. *)
Lemma list_render_keeps_stale_offset :
  let before :=
    run ansiPc floor35 sampleDetailContent essaySession
      [Keypress (Some downKey); Keypress (Some returnKey); Keypress (Some pageDownKey);
       Keypress (Some escapeKey); Keypress (Some escapeKey)] in
  let s := step ansiPc floor35 sampleDetailContent before (Keypress (Some downKey)) in
  (exited s = false
   /\ mode (state s) = list_mode
   /\ cursor (state s) = (0, 1)
   /\ detailScrollOffset (state s) = 10
   /\ viewportHeight (terminal s) = 18
   /\ panelTotals ansiPc floor35 sampleDetailContent (state s) (terminal s) = Some (7, 2)
   /\ panelTotalsAt ansiPc floor35 sampleDetailContent (state s) (terminal s) 0 0
      = Some (7, 7))
  /\ (exists frame,
        frames s = frame :: frames before
        /\ render ansiPc floor35 sampleDetailContent (state s) (terminal s)
           = Some (state s, frame))
  /\ ~ inScrollRange (detailScrollOffset (state s)) 7 (viewportHeight (terminal s))
  /\ ~ inScrollRange (detailScrollOffset (state s)) 2 (viewportHeight (terminal s)).
Proof.
  intros before s.
  assert (H : exited s = false
              /\ mode (state s) = list_mode
              /\ cursor (state s) = (0, 1)
              /\ detailScrollOffset (state s) = 10
              /\ viewportHeight (terminal s) = 18
              /\ panelTotals ansiPc floor35 sampleDetailContent (state s) (terminal s)
                 = Some (7, 2)
              /\ panelTotalsAt ansiPc floor35 sampleDetailContent (state s) (terminal s) 0 0
                 = Some (7, 7)).
  { vm_compute. repeat apply conj; reflexivity. }
  split; [exact H|]. destruct H as (_ & _ & _ & Ed & Ev & _). split.
  - vm_compute. eexists. split; reflexivity.
  - rewrite Ed, Ev. unfold inScrollRange. lia.
Qed.

(** C9 as stated fails where it says that the tick timer stops: after the
    status report the poll timer is cleared and the tick timer is still
    armed. *)
Lemma tick_timer_still_armed :
  let s1 := step ansiPc floor35 sampleDetailContent sampleSession
              (StatusPolled Api.completed) in
  pollTimer s1 = false /\ uiTimer s1 = true /\ exited s1 = false.
Proof. vm_compute. repeat split; reflexivity. Qed.

(** The footer of the split view needs 47 columns: on a terminal of 40
    columns the line is cut before the completion message. *)
Example narrow_footer_cuts_done :
  visibleLength (doneLine ansiPc) = 47
  /\ stripAnsi (truncateLine (doneLine ansiPc) 40) = [8592%N] ++ js "/Esc: Back  |  c: Copy  |  q: Quit  ...".
Proof. vm_compute. repeat apply conj; reflexivity. Qed.

Lemma analysis_finished_sample :
  exited sampleSession = false
  /\ Api.completed <> Api.running
  /\ (let s1 := step ansiPc floor35 sampleDetailContent sampleSession
                  (StatusPolled Api.completed) in
      pollTimer s1 = false
      /\ isDetail (state sampleSession) = false
      /\ exists frame,
           frames s1 = frame :: frames sampleSession
           /\ list.last (footer frame)
              = Some (ansiPc green (js ":: Review completed! " ++ [55356; 57225]%N)))
  /\ truncateLine (doneLine ansiPc) 80 = doneLine ansiPc.
Proof.
  assert (He : exited sampleSession = false) by (vm_compute; reflexivity).
  assert (Ha : Api.completed <> Api.running) by discriminate.
  split; [exact He|]. split; [exact Ha|].
  destruct (analysis_finished ansiPc floor35 sampleDetailContent
              sampleSession Api.completed He Ha)
    as (_ & Hp & _ & _ & Hf & _ & Hw).
  split; [|apply Hw; vm_compute; discriminate].
  cbv zeta. split; [exact Hp|]. split; [vm_compute; reflexivity|].
  assert (Hs : (if render ansiPc floor35 sampleDetailContent
                     (set_status Api.completed (state sampleSession))
                     (terminal sampleSession)
                then true else false) = true) by (vm_compute; reflexivity).
  destruct (render ansiPc floor35 sampleDetailContent
              (set_status Api.completed (state sampleSession)) (terminal sampleSession))
    as [[st' frame]|]; [|discriminate Hs].
  destruct Hf as (Hfr & _ & Hl). exists frame. split; [exact Hfr|exact Hl].
Defined.


(** ** Escape sequences *)

Lemma repGreedy_run p xs : forall min rest k r,
  forallb p xs = true -> (min <= length xs)%nat ->
  match rest with [] => True | c :: _ => p c = false end ->
  k rest = Some r ->
  repGreedy p min (xs ++ rest) k = Some r.
Proof.
  induction xs as [|x xs IH]; intros min rest k r Hall Hmin Hrest Hk.
  - simpl in Hmin. assert (min = 0%nat) as -> by lia. simpl.
    destruct rest as [|c rest]; simpl; [exact Hk|]. now rewrite Hrest.
  - simpl in Hall. apply andb_true_iff in Hall as [Hx Hall]. simpl. rewrite Hx.
    rewrite (IH (Nat.pred min) rest k r); [reflexivity|exact Hall| |exact Hrest|exact Hk].
    simpl in Hmin. lia.
Qed.

Lemma exec_sgr_visible c s : c <> Chars.ESC -> exec false reSgr (c :: s) = None.
Proof.
  intros Hc. unfold exec, reSgr. simpl. unfold Chars.charMatches.
  destruct (N.eqb_spec c Chars.ESC); [contradiction|reflexivity].
Qed.

Lemma exec_sgr_empty : exec false reSgr [] = None.
Proof. reflexivity. Qed.

Lemma exec_sgr_escape params s :
  forallb Chars.isSgrParam params = true ->
  exec false reSgr (Chars.ESC :: 91%N :: params ++ 109%N :: s) = Some (s, None).
Proof.
  intros Hp. unfold exec, reSgr. simpl.
  apply repGreedy_run; [exact Hp|lia|reflexivity|reflexivity].
Qed.

Lemma removeGo_skip ci r pre : forall s,
  removeGo ci r (length pre) (pre ++ s) = removeGo ci r 0 s.
Proof.
  induction pre as [|c pre IH]; intros s; [reflexivity|].
  simpl. apply IH.
Qed.

Lemma stripAnsi_nil : stripAnsi [] = [].
Proof. reflexivity. Qed.

Lemma stripAnsi_visible c s : c <> Chars.ESC -> stripAnsi (c :: s) = c :: stripAnsi s.
Proof.
  intros Hc. unfold stripAnsi, removeAll. simpl removeGo at 1.
  now rewrite (exec_sgr_visible c s Hc).
Qed.

Lemma stripAnsi_escape params s :
  forallb Chars.isSgrParam params = true ->
  stripAnsi (Chars.ESC :: 91%N :: params ++ 109%N :: s) = stripAnsi s.
Proof.
  intros Hp. unfold stripAnsi, removeAll.
  change (removeGo false reSgr 0 (Chars.ESC :: 91%N :: params ++ 109%N :: s))
    with (match exec false reSgr (Chars.ESC :: 91%N :: params ++ 109%N :: s) with
          | Some (rest, _) =>
              match (length (Chars.ESC :: 91%N :: params ++ 109%N :: s) - length rest)%nat with
              | O => Chars.ESC :: removeGo false reSgr 0 (91%N :: params ++ 109%N :: s)
              | S n => removeGo false reSgr n (91%N :: params ++ 109%N :: s)
              end
          | None => Chars.ESC :: removeGo false reSgr 0 (91%N :: params ++ 109%N :: s)
          end).
  rewrite (exec_sgr_escape params s Hp).
  replace (length (Chars.ESC :: 91%N :: params ++ 109%N :: s) - length s)%nat
    with (S (length (91%N :: params ++ [109%N]))).
  - replace (91%N :: params ++ 109%N :: s) with ((91%N :: params ++ [109%N]) ++ s).
    + apply removeGo_skip.
    + simpl. now rewrite <- app_assoc.
  - simpl. rewrite !length_app. simpl. lia.
Qed.

(** On a well-formed prefix, stripping distributes over concatenation. *)
Lemma stripAnsi_app p : AnsiWF p -> forall q, stripAnsi (p ++ q) = stripAnsi p ++ stripAnsi q.
Proof.
  induction 1 as [|c s Hc _ IH|params s Hp _ IH]; intros q.
  - reflexivity.
  - simpl. rewrite !stripAnsi_visible by exact Hc. simpl. now rewrite IH.
  - replace ((Chars.ESC :: 91%N :: params ++ 109%N :: s) ++ q)
      with (Chars.ESC :: 91%N :: params ++ 109%N :: (s ++ q))
      by (simpl; now rewrite <- app_assoc).
    rewrite !stripAnsi_escape by exact Hp. apply IH.
Qed.

Lemma AnsiWF_app p q : AnsiWF p -> AnsiWF q -> AnsiWF (p ++ q).
Proof.
  induction 1 as [|c s Hc _ IH|params s Hp _ IH]; intros Hq.
  - exact Hq.
  - simpl. apply wf_visible; auto.
  - replace ((Chars.ESC :: 91%N :: params ++ 109%N :: s) ++ q)
      with (Chars.ESC :: 91%N :: params ++ 109%N :: (s ++ q))
      by (simpl; now rewrite <- app_assoc).
    apply wf_escape; auto.
Qed.

Lemma AnsiWF_plain s : Forall (fun c => c <> Chars.ESC) s -> AnsiWF s.
Proof. induction 1; constructor; auto. Qed.

Lemma sgrParam_plain c : Chars.isSgrParam c = true -> c <> Chars.ESC /\ c <> 109%N.
Proof.
  unfold Chars.isSgrParam, Chars.isDigit, Chars.inRange, Chars.ESC. intros H.
  apply orb_true_iff in H as [H|H].
  - apply andb_true_iff in H as [H1 H2].
    apply N.leb_le in H1, H2. split; intros ->; lia.
  - apply N.eqb_eq in H. subst. split; discriminate.
Qed.

(** The loop of [truncate] inside an escape sequence: up to the closing
    [m] it copies every character and counts none. *)
Lemma truncLoop_escape W body : forall i s res v start,
  Forall (fun c => c <> Chars.ESC /\ c <> 109%N) body ->
  v < W - 3 ->
  truncLoop W i (body ++ 109%N :: s)
    {| tResult := res; tVisibleCount := v; tInAnsi := true; tAnsiStart := start |}
  = truncLoop W (i + Z.of_nat (length body) + 1) s
      {| tResult := res ++ body ++ [109%N]; tVisibleCount := v; tInAnsi := false;
         tAnsiStart := -1 |}.
Proof.
  induction body as [|c body IH]; intros i s res v start Hb Hv.
  - simpl. destruct (Z.ltb_spec v (W - 3)); [|lia].
    unfold truncStep. simpl. f_equal. lia.
  - inversion Hb as [|? ? [Hc1 Hc2] Hb']; subst. simpl.
    destruct (Z.ltb_spec v (W - 3)); [|lia].
    unfold truncStep at 1. simpl.
    destruct (N.eqb_spec c Chars.ESC); [contradiction|].
    destruct (N.eqb_spec c 109); [contradiction|].
    rewrite (IH (i + 1) s (res ++ [c]) v start Hb' Hv).
    rewrite <- app_assoc. simpl. f_equal. lia.
Qed.

Lemma truncLoop_cons W i c t st :
  truncLoop W i (c :: t) st
  = if tVisibleCount st <? W - 3 then truncLoop W (i + 1) t (truncStep i c st) else st.
Proof. reflexivity. Qed.

Lemma truncLoop_wf W s :
  AnsiWF s ->
  forall i res v start,
    let st' := truncLoop W i s {| tResult := res; tVisibleCount := v; tInAnsi := false;
                                  tAnsiStart := start |} in
    tInAnsi st' = false
    /\ exists p q, s = p ++ q /\ tResult st' = res ++ p /\ AnsiWF p
         /\ stripAnsi p = take (Z.to_nat (W - 3 - v)) (stripAnsi s).
Proof.
  induction 1 as [|c s Hc Hs IH|params s Hp Hs IH]; intros i res v start.
  - simpl. split; [reflexivity|]. exists [], [].
    split; [reflexivity|]. split; [now rewrite app_nil_r|].
    split; [constructor|]. rewrite stripAnsi_nil. now rewrite take_nil.
  - simpl. destruct (Z.ltb_spec v (W - 3)) as [Hv|Hv].
    + unfold truncStep. simpl. destruct (N.eqb_spec c Chars.ESC); [contradiction|].
      destruct (IH (i + 1) (res ++ [c]) (v + 1) start) as (Hin & p & q & -> & Hres & Hwf & Hstrip).
      split; [exact Hin|]. exists (c :: p), q. split; [reflexivity|].
      split; [rewrite Hres, <- app_assoc; reflexivity|].
      split; [now apply wf_visible|].
      rewrite !stripAnsi_visible by exact Hc. rewrite Hstrip.
      replace (Z.to_nat (W - 3 - v)) with (S (Z.to_nat (W - 3 - (v + 1)))) by lia.
      reflexivity.
    + simpl. split; [reflexivity|]. exists [], (c :: s).
      split; [reflexivity|]. split; [now rewrite app_nil_r|].
      split; [constructor|].
      replace (Z.to_nat (W - 3 - v)) with 0%nat by lia. reflexivity.
  - rewrite truncLoop_cons. cbn [tVisibleCount].
    destruct (Z.ltb_spec v (W - 3)) as [Hv|Hv].
    + change (truncStep i Chars.ESC
                {| tResult := res; tVisibleCount := v; tInAnsi := false; tAnsiStart := start |})
        with {| tResult := res ++ [Chars.ESC]; tVisibleCount := v; tInAnsi := true;
                tAnsiStart := i |}.
      assert (Hbody : Forall (fun c => c <> Chars.ESC /\ c <> 109%N) (91%N :: params)).
      { constructor; [split; discriminate|].
        apply Forall_forall. intros c Hin. apply sgrParam_plain.
        rewrite forallb_forall in Hp. apply Hp.
        first [exact Hin | now apply list_elem_of_In]. }
      change (91%N :: params ++ 109%N :: s) with ((91%N :: params) ++ 109%N :: s).
      rewrite (truncLoop_escape W (91%N :: params) (i + 1) s (res ++ [Chars.ESC]) v i Hbody Hv).
      destruct (IH (i + 1 + Z.of_nat (length (91%N :: params)) + 1)
                   ((res ++ [Chars.ESC]) ++ (91%N :: params) ++ [109%N]) v (-1))
        as (Hin & p & q & -> & Hres & Hwf & Hstrip).
      split; [exact Hin|].
      exists (Chars.ESC :: 91%N :: params ++ 109%N :: p), q.
      split; [simpl; now rewrite <- !app_assoc|].
      split; [rewrite Hres; simpl; rewrite <- !app_assoc; simpl;
              now rewrite <- !app_assoc|].
      split; [now apply wf_escape|].
      cbn [app]. rewrite !stripAnsi_escape by exact Hp. exact Hstrip.
    + simpl. split; [reflexivity|].
      exists [], (Chars.ESC :: 91%N :: params ++ 109%N :: s).
      split; [reflexivity|]. split; [now rewrite app_nil_r|].
      split; [constructor|].
      replace (Z.to_nat (W - 3 - v)) with 0%nat by lia. reflexivity.
Qed.

Lemma stripAnsi_ellipsis : stripAnsi (js "...") = js "...".
Proof. reflexivity. Qed.

Lemma AnsiWF_ellipsis : AnsiWF (js "...").
Proof. apply AnsiWF_plain. repeat constructor; discriminate. Qed.

(** What [truncate] returns for a well-formed string that is too long. *)
Lemma truncate_long str W :
  AnsiWF str -> W < visibleLength str ->
  exists p q, str = p ++ q /\ truncate str W = p ++ js "..." /\ AnsiWF p
    /\ stripAnsi p = take (Z.to_nat (W - 3)) (stripAnsi str).
Proof.
  intros Hwf Hlong. unfold truncate.
  destruct (Z.leb_spec (visibleLength str) W) as [|_]; [lia|].
  destruct (truncLoop_wf W str Hwf 0 [] 0 (-1)) as (Hin & p & q & Hs & Hres & Hp & Hstrip).
  fold truncInit in Hin, Hres. cbv zeta. rewrite Hin. simpl andb. cbv iota.
  exists p, q. rewrite Hres. simpl app.
  rewrite Z.sub_0_r in Hstrip. auto.
Qed.

Lemma truncate_long_visible str W :
  AnsiWF str -> W < visibleLength str ->
  stripAnsi (truncate str W) = take (Z.to_nat (W - 3)) (stripAnsi str) ++ js "...".
Proof.
  intros Hwf Hlong.
  destruct (truncate_long str W Hwf Hlong) as (p & q & Hs & Ht & Hp & Hstrip).
  rewrite Ht, (stripAnsi_app p Hp), Hstrip, stripAnsi_ellipsis. reflexivity.
Qed.

Lemma truncate_long_length str W :
  3 <= W -> AnsiWF str -> W < visibleLength str -> visibleLength (truncate str W) = W.
Proof.
  intros HW Hwf Hlong. unfold visibleLength, jslen in *.
  rewrite (truncate_long_visible str W Hwf Hlong), length_app, length_take.
  simpl length. lia.
Qed.

(** C5, as the code has it.  For a width of at least 3 and a string whose
    escape characters each start a complete colour sequence, [truncate]
    returns the string itself when it fits and otherwise a prefix of it that
    ends after a visible character, followed by three dots: the visible text
    is the first [W - 3] visible characters and the dots, so the visible
    length is exactly [W], and every escape sequence in the result is
    complete. *)
Theorem truncate_fits (str : jsstring) (W : Z) :
  3 <= W -> AnsiWF str ->
  visibleLength (truncate str W) <= W
  /\ AnsiWF (truncate str W)
  /\ (visibleLength str <= W -> truncate str W = str)
  /\ (W < visibleLength str ->
      visibleLength (truncate str W) = W
      /\ stripAnsi (truncate str W) = take (Z.to_nat (W - 3)) (stripAnsi str) ++ js "..."
      /\ exists p q, str = p ++ q /\ truncate str W = p ++ js "...").
Proof.
  intros HW Hwf.
  destruct (Z.le_gt_cases (visibleLength str) W) as [Hfit|Hlong].
  - assert (E : truncate str W = str).
    { unfold truncate. destruct (Z.leb_spec (visibleLength str) W); [reflexivity|lia]. }
    rewrite E. repeat split; auto; lia.
  - destruct (truncate_long str W Hwf Hlong) as (p & q & Hs & Ht & Hp & Hstrip).
    pose proof (truncate_long_length str W HW Hwf Hlong) as Hlen.
    split; [lia|]. split; [rewrite Ht; apply AnsiWF_app; [exact Hp|apply AnsiWF_ellipsis]|].
    split; [lia|]. intros _. split; [exact Hlen|].
    split; [now apply truncate_long_visible|eauto].
Qed.

(** C5 as stated fails for a width below 3: the three dots alone are wider
    than the budget. *)
Lemma truncate_narrow_width :
  truncate (js "abcd") 2 = js "..." /\ ~ visibleLength (truncate (js "abcd") 2) <= 2.
Proof. split; [reflexivity|]. vm_compute. intros H. apply H. reflexivity. Qed.

(** It also fails when an escape character does not start a colour
    sequence: [truncate] skips up to the next [m], [stripAnsi] does not. *)
Example truncate_lone_escape :
  visibleLength (truncate (Chars.ESC :: js "aaaaaaaaaam" ++ js "bbbbbbbbbb") 5) = 17.
Proof. reflexivity. Qed.

(** A colour switched on before the cut stays on: no closing sequence is
    appended after the dots. *)
Example truncate_leaves_colour_on :
  redHello = ansiPc red (js "hello world")
  /\ truncate redHello 8 = sgr 31 ++ js "hello...".
Proof. split; reflexivity. Qed.

Lemma AnsiWF_redHello : AnsiWF redHello.
Proof.
  unfold redHello. apply (wf_escape (js "31")); [reflexivity|].
  apply AnsiWF_app.
  - apply AnsiWF_plain. repeat constructor; discriminate.
  - apply (wf_escape (js "39")); [reflexivity|constructor].
Qed.

Lemma truncate_fits_sample :
  3 <= 8 /\ AnsiWF redHello /\ visibleLength (truncate redHello 8) <= 8.
Proof.
  assert (HW : 3 <= 8) by lia.
  split; [exact HW|]. split; [exact AnsiWF_redHello|].
  exact (proj1 (truncate_fits redHello 8 HW AnsiWF_redHello)).
Defined.

(** ** Word wrap *)

Lemma splitWsGo_plain s : forall cur b,
  Forall (fun c => Chars.isSpace c = false) s -> splitWsGo cur b s = [cur ++ s].
Proof.
  induction s as [|c s IH]; intros cur b H; [simpl; now rewrite app_nil_r|].
  inversion H as [|? ? Hc Hs]; subst. simpl. rewrite Hc, (IH _ _ Hs).
  now rewrite <- app_assoc.
Qed.

(** C8, as the code has it.  A text without white space whose visible length
    exceeds the width is wrapped into exactly one line, the text truncated by
    [truncate]; for a width of at least 3 and well-formed escape sequences
    that line has visible length exactly the width. *)
Theorem wordWrap_long_token (text : jsstring) (W : Z) :
  Forall (fun c => Chars.isSpace c = false) text ->
  W < visibleLength text ->
  wordWrap text W = [truncate text W]
  /\ (3 <= W -> AnsiWF text -> visibleLength (truncate text W) = W).
Proof.
  intros Hplain Hlong. split.
  - unfold wordWrap, splitWs. rewrite (splitWsGo_plain text [] false Hplain).
    simpl. destruct (Z.gtb_spec (visibleLength text) W); [reflexivity|lia].
  - intros HW Hwf. now apply truncate_long_length.
Qed.

(** C8 as stated fails for a width below 3, and a long word that follows a
    word on the same line is pushed whole. *)
Lemma wordWrap_overflows :
  wordWrap (js "abcd") 2 = [js "..."]
  /\ ~ visibleLength (js "...") <= 2
  /\ wordWrap (js "ab cdefghijkl") 5 = [js "ab"; js "cdefghijkl"]
  /\ ~ visibleLength (js "cdefghijkl") <= 5.
Proof.
  split; [reflexivity|]. split; [vm_compute; intros H; now apply H|].
  split; [reflexivity|]. vm_compute; intros H; now apply H.
Qed.

Lemma wordWrap_long_token_sample :
  Forall (fun c => Chars.isSpace c = false) (js "cdefghijkl")
  /\ 5 < visibleLength (js "cdefghijkl")
  /\ wordWrap (js "cdefghijkl") 5 = [js "cd..."].
Proof.
  assert (Hp : Forall (fun c => Chars.isSpace c = false) (js "cdefghijkl"))
    by (repeat constructor).
  assert (Hl : 5 < visibleLength (js "cdefghijkl")) by (vm_compute; reflexivity).
  split; [exact Hp|]. split; [exact Hl|].
  exact (proj1 (wordWrap_long_token (js "cdefghijkl") 5 Hp Hl)).
Defined.

(** ** Key handling *)

Lemma tab_in_detail st :
  mode st = detail_mode ->
  handleKeypress st (Some tabKey)
  = Some (set_focusedPanel (if isLeft st then right_panel else left_panel) st, render_action).
Proof. intros H. unfold handleKeypress, isDetail. rewrite H. reflexivity. Qed.

Lemma tab_in_list st :
  mode st = list_mode -> handleKeypress st (Some tabKey) = Some (st, none_action).
Proof. intros H. unfold handleKeypress, isDetail. rewrite H. reflexivity. Qed.

(** C7 at its failing input: in list mode [Tab] reaches no branch of
    [handleKeypress]; the state comes back unchanged with action [none], and
    the selected file stays expanded, while the footer of the list view
    announces [Tab: Expand/Collapse]. *)
Theorem tab_in_list_mode_is_ignored :
  mode sampleState = list_mode
  /\ cursor sampleState = (0, -1)
  /\ expanded <$> files sampleState !! 0%nat = Some true
  /\ handleKeypress sampleState (Some tabKey) = Some (sampleState, none_action)
  /\ step ansiPc floor35 sampleDetailContent sampleSession (Keypress (Some tabKey))
     = sampleSession
  /\ existsb (includes (js "Tab: Expand/Collapse")) <$>
       (footer <$> renderListView ansiPc sampleState sampleTerminal) = Some true.
Proof. repeat apply conj; vm_compute; reflexivity. Qed.

(** C6 at its failing input: the comment holds its prompt in a "Prompt for
    AI" section; the parser extracts it and the detail panel shows it, and
    the copy branch, which only tries the older inline marker, sends nothing
    to the clipboard. *)
Theorem copy_misses_prompt_section :
  aiPrompt (parseCommentMetadata (Api.content promptComment)) = js "Fix the null check"
  /\ handleKeypress promptState (Some copyKey) = Some (promptState, copy_action)
  /\ copyPayload promptState = Some None
  /\ clipboard (step ansiPc floor35 sampleDetailContent promptSession
                  (Keypress (Some copyKey))) = [].
Proof. repeat apply conj; vm_compute; reflexivity. Qed.

(** With the older inline marker the same key does copy the prompt. *)
Example copy_old_marker :
  let c := sampleComment "src/a.ts" 10 "t"
             ("Text." ++ nl ++ nl ++ "**Prompt to Fix with AI**: Add a null check" ++ nl
              ++ "before the call." ++ nl ++ nl ++ "## Notes") in
  let st := set_selectedCommentIndex 0
              (set_files [ {| filePath := js "src/a.ts"; comments := [c]; expanded := true |} ]
                         (initialState (js "id"))) in
  copyPayload st = Some (Some (js ("Add a null check" ++ nl ++ "before the call."))).
Proof. vm_compute. reflexivity. Qed.

(** ** Comment parsing *)

Lemma charMatches_refl ci c : Chars.charMatches ci c c = true.
Proof. unfold Chars.charMatches. now rewrite N.eqb_refl. Qed.

(** A literal matches itself and hands the rest to the continuation. *)
Lemma rmatch_literal ci lit : forall s cap k,
  rmatch ci (RStrN lit) (lit ++ s) cap k = k s cap.
Proof.
  induction lit as [|c lit IH]; intros s cap k; [reflexivity|].
  simpl. rewrite charMatches_refl. apply IH.
Qed.

(** A marker pattern [**Name**:\s*(class+)] at the start of a text that
    reads: marker, white space, a run of the class, and then stops. *)
Lemma exec_marker ci (marker : string) (p : N -> bool) spaces value post :
  forallb Chars.isSpace spaces = true ->
  forallb p value = true -> value <> [] ->
  stopsAt Chars.isSpace (value ++ post) -> stopsAt p post ->
  exec ci (RCat [RStr marker; ws; RGroup (RRep true 1 p)])
       (js marker ++ spaces ++ value ++ post)
  = Some (post, Some value).
Proof.
  intros Hsp Hval Hne Hstop1 Hstop2. unfold exec, RCat, RStr.
  cbn [rmatch]. rewrite rmatch_literal. unfold ws. cbn [rmatch].
  rewrite (repGreedy_run Chars.isSpace spaces 0 (value ++ post) _
             (post, Some value)); [reflexivity|exact Hsp|lia|exact Hstop1|].
  rewrite (repGreedy_run p value 1 post _ (post, Some value));
    [reflexivity|exact Hval|destruct value; [contradiction|simpl; lia]|exact Hstop2|].
  cbn [rmatch]. rewrite length_app, Nat.add_sub, take_app_length. reflexivity.
Qed.

Lemma searchFrom_skip ci r pre : forall acc rest,
  noMatchBefore ci r pre (pre ++ rest) ->
  searchFrom ci r acc (pre ++ rest) = searchFrom ci r (acc ++ pre) rest.
Proof.
  induction pre as [|c pre IH]; intros acc rest H; [now rewrite app_nil_r|].
  assert (H0 : exec ci r ((c :: pre) ++ rest) = None) by (apply (H 0%nat); simpl; lia).
  simpl app. destruct rest as [|d rest'] eqn:Er.
  - simpl searchFrom at 1. simpl app in H0. rewrite H0.
    rewrite <- Er at 1. rewrite Er. rewrite (IH (acc ++ [c]) []).
    + now rewrite <- app_assoc.
    + intros k Hk. apply (H (S k)). simpl. lia.
  - simpl searchFrom at 1. simpl app in H0. rewrite H0.
    rewrite (IH (acc ++ [c]) (d :: rest')).
    + now rewrite <- app_assoc.
    + intros k Hk. apply (H (S k)). simpl. lia.
Qed.

Lemma search_first ci r pre rest post cap :
  noMatchBefore ci r pre (pre ++ rest) ->
  exec ci r rest = Some (post, cap) ->
  search ci r (pre ++ rest) = Some {| before := pre; after := post; group1 := cap |}.
Proof.
  intros Hno Hex. unfold search. rewrite (searchFrom_skip ci r pre [] rest Hno).
  destruct rest; simpl; now rewrite Hex.
Qed.

Lemma removeGo_cons ci r k c t :
  removeGo ci r k (c :: t)
  = match k with
    | S n => removeGo ci r n t
    | O =>
        match exec ci r (c :: t) with
        | Some (rest, _) =>
            match (length (c :: t) - length rest)%nat with
            | O => c :: removeGo ci r O t
            | S n => removeGo ci r n t
            end
        | None => c :: removeGo ci r O t
        end
    end.
Proof. reflexivity. Qed.

Lemma removeGo_length ci r s : forall k, (length (removeGo ci r k s) <= length s)%nat.
Proof.
  induction s as [|c s IH]; intros k; [simpl; lia|].
  rewrite removeGo_cons. cbn [length].
  destruct k as [|k]; [|specialize (IH k); lia].
  destruct (exec ci r (c :: s)) as [[rest cap]|].
  - destruct (S (length s) - length rest)%nat as [|n].
    + cbn [length]. specialize (IH 0%nat). lia.
    + specialize (IH n). lia.
  - cbn [length]. specialize (IH 0%nat). lia.
Qed.

Lemma visibleLength_le s : visibleLength s <= jslen s.
Proof.
  unfold visibleLength, stripAnsi, removeAll, jslen.
  pose proof (removeGo_length false reSgr s 0). lia.
Qed.

Lemma trimStart_head s c r : trimStart s = c :: r -> Chars.isSpace c = false.
Proof.
  induction s as [|x s IH]; simpl; [discriminate|].
  destruct (Chars.isSpace x) eqn:Hx; [exact IH|]. intros E. congruence.
Qed.

Lemma trimStart_keeps s c : In c s -> Chars.isSpace c = false -> trimStart s <> [].
Proof.
  induction s as [|x s IH]; intros Hin Hc; [destruct Hin|].
  simpl. destruct (Chars.isSpace x) eqn:Hx; [|discriminate].
  destruct Hin as [->|Hin]; [congruence|auto].
Qed.

Lemma trimStart_drop s : exists k, trimStart s = drop k s.
Proof.
  induction s as [|x s [k IH]]; [exists 0%nat; reflexivity|].
  simpl. destruct (Chars.isSpace x); [exists (S k); exact IH|exists 0%nat; reflexivity].
Qed.

Lemma trimEnd_take t : exists k, trimEnd t = take k t.
Proof.
  unfold trimEnd. destruct (trimStart_drop (rev t)) as [k ->].
  exists (length t - k)%nat. rewrite skipn_rev. apply rev_involutive.
Qed.

Lemma trim_head s c r : trim s = c :: r -> Chars.isSpace c = false.
Proof.
  unfold trim. destruct (trimEnd_take (trimStart s)) as [k ->].
  destruct (trimStart s) as [|x t] eqn:E; [now rewrite take_nil|].
  destruct k; [discriminate|]. simpl. intros H.
  injection H as <- _. exact (trimStart_head s x t E).
Qed.

Lemma trim_keeps c l : Chars.isSpace c = false -> trim (c :: l) <> [].
Proof.
  intros Hc. unfold trim. simpl trimStart. rewrite Hc. unfold trimEnd.
  intros H. apply (f_equal (@rev N)) in H. rewrite rev_involutive in H. simpl rev in H.
  revert H. apply (trimStart_keeps _ c); [|exact Hc].
  apply in_or_app. right. now left.
Qed.

Lemma splitLinesGo_first s : forall cur, exists l rest, splitLinesGo cur s = (cur ++ l) :: rest.
Proof.
  induction s as [|c s IH]; intros cur.
  - exists [], []. simpl. now rewrite app_nil_r.
  - simpl. destruct (c =? Chars.LF)%N.
    + exists [], (splitLinesGo [] s). now rewrite app_nil_r.
    + destruct (IH (cur ++ [c])) as (l & rest & ->).
      exists (c :: l), rest. now rewrite <- app_assoc.
Qed.

(** The first line of a description that starts with a visible character is
    its first non-empty line. *)
Lemma firstNonEmptyLine_head c r :
  Chars.isSpace c = false ->
  exists l rest, splitLines (c :: r) = (c :: l) :: rest
                 /\ firstNonEmptyLine (c :: r) = c :: l.
Proof.
  intros Hc. unfold firstNonEmptyLine, splitLines. simpl splitLinesGo.
  destruct (N.eqb_spec c Chars.LF) as [->|_]; [discriminate|].
  destruct (splitLinesGo_first r [c]) as (l & rest & ->).
  exists l, rest. split; [reflexivity|]. simpl.
  destruct (Z.ltb_spec 0 (jslen (trim (c :: l)))) as [|Hz]; [reflexivity|].
  exfalso. apply (trim_keeps c l Hc). unfold jslen in Hz.
  destruct (trim (c :: l)); [reflexivity|simpl in Hz; lia].
Qed.

Lemma substring_take s n :
  0 <= n <= jslen s -> substring s 0 n = take (Z.to_nat n) s.
Proof.
  intros H. unfold substring.
  replace (Z.min (Z.max 0 0) (jslen s)) with 0 by (unfold jslen in *; lia).
  replace (Z.min (Z.max n 0) (jslen s)) with n by lia.
  replace (Z.min 0 n) with 0 by lia. replace (Z.max 0 n) with n by lia.
  now rewrite Z.sub_0_r.
Qed.

Lemma derivedTitle_spec c r :
  Chars.isSpace c = false ->
  let l := firstNonEmptyLine (c :: r) in
  l <> []
  /\ (exists rest, splitLines (c :: r) = l :: rest)
  /\ derivedTitle (c :: r) = (if jslen l >? 60 then take 57 l ++ js "..." else l)
  /\ derivedTitle (c :: r) <> []
  /\ jslen (derivedTitle (c :: r)) <= 60.
Proof.
  intros Hc l. destruct (firstNonEmptyLine_head c r Hc) as (l' & rest & Hsplit & Hl).
  fold l in Hl. split; [rewrite Hl; discriminate|]. split; [exists rest; now rewrite Hl|].
  unfold derivedTitle. fold l.
  destruct (Z.gtb_spec (jslen l) 60) as [Hlong|Hshort].
  - rewrite substring_take by lia. change (Z.to_nat 57) with 57%nat.
    split; [reflexivity|]. split.
    + rewrite Hl. discriminate.
    + unfold jslen in *. rewrite length_app, length_take. simpl length. lia.
  - split; [reflexivity|]. split; [rewrite Hl; discriminate|exact Hshort].
Qed.

Lemma parse_severity content :
  severity (parseCommentMetadata content)
  = orElse (capture1 (search true reSeverity content)) (js "Medium").
Proof. reflexivity. Qed.

Lemma parse_title content :
  title (parseCommentMetadata content)
  = parseTitle content (description (parseCommentMetadata content)).
Proof. reflexivity. Qed.

Lemma parse_description_trimmed content c r :
  description (parseCommentMetadata content) = c :: r -> Chars.isSpace c = false.
Proof. apply trim_head. Qed.

(** C4, as the code has it.  The severity is the word after the first
    [**Severity**:] marker and the title the rest of the line after the first
    [**Title**:] marker: for [Critical] ending its word and
    [Null pointer risk] ending its line these are the values returned.
    Without a severity marker the severity is [Medium]; without a title
    marker the title is the first line of the trimmed description, cut to 57
    characters and three dots when it is longer than 60, and
    [Issue Identified] when the description is empty. *)
Theorem parse_severity_and_title (content : jsstring) :
  (forall pre post,
      content = pre ++ js "**Severity**: Critical" ++ post ->
      noMatchBefore true reSeverity pre content -> stopsAt Chars.isWord post ->
      severity (parseCommentMetadata content) = js "Critical")
  /\ (forall pre post,
      content = pre ++ js "**Title**: Null pointer risk" ++ post ->
      noMatchBefore true reTitle pre content -> stopsAt Chars.notLF post ->
      title (parseCommentMetadata content) = js "Null pointer risk")
  /\ (search true reSeverity content = None ->
      severity (parseCommentMetadata content) = js "Medium")
  /\ (search true reTitle content = None ->
      let d := description (parseCommentMetadata content) in
      let t := title (parseCommentMetadata content) in
      (d = [] -> t = js "Issue Identified")
      /\ (d <> [] ->
          let l := firstNonEmptyLine d in
          l <> [] /\ (exists rest, splitLines d = l :: rest)
          /\ t = if jslen l >? 60 then take 57 l ++ js "..." else l)
      /\ visibleLength t <= jslen t <= 60).
Proof.
  split; [|split; [|split]].
  - intros pre post -> Hno Hstop. rewrite parse_severity.
    rewrite (search_first true reSeverity pre _ post (Some (js "Critical")) Hno);
      [reflexivity|].
    apply (exec_marker true "**Severity**:" Chars.isWord [32%N] (js "Critical") post);
      [reflexivity|reflexivity|discriminate|reflexivity|exact Hstop].
  - intros pre post -> Hno Hstop. rewrite parse_title. unfold parseTitle.
    rewrite (search_first true reTitle pre _ post (Some (js "Null pointer risk")) Hno);
      [reflexivity|].
    apply (exec_marker true "**Title**:" Chars.notLF [32%N] (js "Null pointer risk") post);
      [reflexivity|reflexivity|discriminate|reflexivity|exact Hstop].
  - intros Hnone. rewrite parse_severity, Hnone. reflexivity.
  - intros Hnone d t.
    assert (Ht : t = parseTitle content d) by apply parse_title.
    unfold parseTitle in Ht. rewrite Hnone in Ht. cbn [capture1 truthy negb andb] in Ht.
    destruct d as [|c r] eqn:Hd.
    + cbn [truthy negb] in Ht. split; [intros _; exact Ht|].
      split; [congruence|].
      split; [apply visibleLength_le|]. rewrite Ht. vm_compute. discriminate.
    + pose proof (parse_description_trimmed content c r Hd) as Hc.
      destruct (derivedTitle_spec c r Hc) as (Hl & Hsplit & Hder & Hne & Hlen).
      cbn [truthy] in Ht.
      assert (Ht' : t = derivedTitle (c :: r)).
      { rewrite Ht. destruct (derivedTitle (c :: r)); [contradiction|reflexivity]. }
      split; [discriminate|].
      split; [intros _; split; [exact Hl|]; split; [exact Hsplit|congruence]|].
      split; [apply visibleLength_le|]. now rewrite Ht'.
Qed.

(** C4 as stated fails on content with CRLF line ends: the title is
    everything up to the line feed, so it keeps the carriage return. *)
Lemma parse_title_keeps_carriage_return :
  let content := js "**Severity**: Critical" ++ [13; 10]%N
                 ++ js "**Title**: Null pointer risk" ++ [13; 10]%N
                 ++ js "The pointer may be null." in
  severity (parseCommentMetadata content) = js "Critical"
  /\ title (parseCommentMetadata content) = js "Null pointer risk" ++ [13%N]
  /\ title (parseCommentMetadata content) <> js "Null pointer risk".
Proof. vm_compute. repeat split; discriminate. Qed.

(** It fails as well when the marker text goes on (the severity is the whole
    word, the title the whole rest of the line) and when an earlier marker of
    the same name comes first. *)
Example parse_marker_text_goes_on :
  let content := js "**Severity**: Critical" ++ js "ity" ++ [Chars.LF]
                 ++ js "**Title**: Null pointer risk" ++ js " in parser" in
  severity (parseCommentMetadata content) = js "Criticality"
  /\ title (parseCommentMetadata content) = js "Null pointer risk in parser".
Proof. vm_compute. split; reflexivity. Qed.

Example parse_first_marker_wins :
  let content := js "**Severity**: Low" ++ [Chars.LF] ++ js "**Title**: Off by one"
                 ++ [Chars.LF] ++ js "**Severity**: Critical" ++ [Chars.LF]
                 ++ js "**Title**: Null pointer risk" in
  severity (parseCommentMetadata content) = js "Low"
  /\ title (parseCommentMetadata content) = js "Off by one".
Proof. vm_compute. split; reflexivity. Qed.

Lemma parse_severity_and_title_sample :
  severity (parseCommentMetadata (Api.content promptComment)) = js "Critical"
  /\ title (parseCommentMetadata (Api.content promptComment)) = js "Null pointer risk"
  /\ search true reSeverity (js "plain text") = None
  /\ severity (parseCommentMetadata (js "plain text")) = js "Medium".
Proof.
  destruct (parse_severity_and_title (Api.content promptComment)) as (Hsev & Httl & _ & _).
  destruct (parse_severity_and_title (js "plain text")) as (_ & _ & Hmed & _).
  assert (Hnone : search true reSeverity (js "plain text") = None) by (vm_compute; reflexivity).
  split; [|split; [|split; [exact Hnone|exact (Hmed Hnone)]]].
  - apply (Hsev [] (skipn 22 (Api.content promptComment))).
    + vm_compute. reflexivity.
    + intros k Hk. simpl in Hk. lia.
    + vm_compute. reflexivity.
  - apply (Httl (firstn 23 (Api.content promptComment))
                (skipn 51 (Api.content promptComment))).
    + vm_compute. reflexivity.
    + intros k Hk. change (length (firstn 23 (Api.content promptComment))) with 23%nat in Hk.
      do 23 (destruct k as [|k]; [vm_compute; reflexivity|]). lia.
    + vm_compute. reflexivity.
Defined.

(** * Further properties *)

(** ** Moving up *)

Lemma navigateUp_files st st' : navigateUp st = Some st' -> files st' = files st.
Proof.
  unfold navigateUp. intros H.
  repeat match type of H with
         | context [if ?b then _ else _] => destruct b
         | context [match ?x with Some _ => _ | None => _ end] => destruct x
         end;
    inversion H; subst; clear H; rewrite resetDetailScroll_files; reflexivity.
Qed.

Lemma navigateUp_cursor st :
  cursor <$> navigateUp st = upCursor (files st) (cursor st).
Proof.
  unfold navigateUp, upCursor, cursor at 2.
  destruct (selectedCommentIndex st >? 0);
    [cbn [fmap option_fmap option_map]; now rewrite resetDetailScroll_cursor|].
  destruct (selectedCommentIndex st =? 0);
    [cbn [fmap option_fmap option_map]; now rewrite resetDetailScroll_cursor|].
  destruct (selectedFileIndex st >? 0);
    [|cbn [fmap option_fmap option_map]; now rewrite resetDetailScroll_cursor].
  cbn [files selectedFileIndex set_selectedFileIndex].
  destruct (at_index (files st) (selectedFileIndex st - 1)) as [prev|]; [|reflexivity].
  destruct (_ && _); cbn [fmap option_fmap option_map];
    now rewrite resetDetailScroll_cursor.
Qed.

Lemma navItems_lookup fs k :
  (k < length (navItems fs))%nat ->
  navItems fs !! k = Some (Nat.iter k (downCursor fs) (0, -1)).
Proof.
  intros Hk. destruct (orbit_items fs fs 0 eq_refl) as [Ho _].
  change (itemsFrom 0 fs) with (navItems fs) in Ho.
  rewrite <- Ho at 1. unfold orbit.
  rewrite list_lookup_fmap, lookup_seq_lt by exact Hk. reflexivity.
Qed.

(** Consecutive items are one [down] apart. *)
Lemma navItems_next fs k c c' :
  navItems fs !! k = Some c -> navItems fs !! S k = Some c' ->
  downCursor fs c = c' /\ c <> c'.
Proof.
  intros Hc Hc'.
  pose proof (lookup_lt_Some _ _ _ Hc') as Hlt.
  rewrite navItems_lookup in Hc, Hc' by lia.
  injection Hc as <-. injection Hc' as <-. split; [reflexivity|].
  intros E.
  assert (Hnd : NoDup (navItems fs)) by apply NoDup_itemsFrom.
  assert (H1 : navItems fs !! k = Some (Nat.iter k (downCursor fs) (0, -1)))
    by (apply navItems_lookup; lia).
  assert (H2 : navItems fs !! S k = Some (Nat.iter k (downCursor fs) (0, -1)))
    by (rewrite navItems_lookup by lia; simpl; now rewrite <- E).
  pose proof (NoDup_lookup _ _ _ _ Hnd H1 H2). lia.
Qed.

Lemma in_navItems fs a b :
  In (a, b) (navItems fs)
  <-> exists f, at_index fs a = Some f
        /\ (b = -1 \/ (expanded f = true /\ 0 <= b < Z.of_nat (length (comments f)))).
Proof.
  unfold navItems. rewrite in_itemsFrom. split.
  - intros (k & f & Hk & -> & H). exists f. simpl. rewrite at_index_nat. auto.
  - intros (f & Hf & H). unfold at_index in Hf.
    destruct (Z.ltb_spec a 0); [discriminate|].
    exists (Z.to_nat a), f. simpl. split; [exact Hf|]. split; [lia|exact H].
Qed.

Lemma at_index_pred {A} (l : list A) i x :
  at_index l i = Some x -> 0 < i -> exists y, at_index l (i - 1) = Some y.
Proof.
  unfold at_index. destruct (Z.ltb_spec i 0); [discriminate|]. intros Hx Hi.
  destruct (Z.ltb_spec (i - 1) 0); [lia|].
  apply lookup_lt_Some in Hx.
  destruct (lookup_lt_is_Some_2 l (Z.to_nat (i - 1))) as [y Hy]; [lia|eauto].
Qed.

Lemma at_index_succ {A} (l : list A) i x :
  at_index l i = Some x -> i < Z.of_nat (length l) - 1 ->
  exists y, at_index l (i + 1) = Some y.
Proof.
  unfold at_index. destruct (Z.ltb_spec i 0); [discriminate|]. intros Hx Hi.
  destruct (Z.ltb_spec (i + 1) 0); [lia|].
  destruct (lookup_lt_is_Some_2 l (Z.to_nat (i + 1))) as [y Hy]; [lia|eauto].
Qed.

(** [up] takes back a [down] that moved the cursor. *)
Lemma up_down_cursor fs c :
  In c (navItems fs) -> downCursor fs c <> c -> upCursor fs (downCursor fs c) = Some c.
Proof.
  destruct c as [i j]. intros Hin Hmove.
  apply in_navItems in Hin as (f & Hf & Hj).
  unfold downCursor in *. rewrite Hf in *.
  destruct (Z.eqb_spec j (-1)) as [->|Hj1].
  - destruct (expanded f && (Z.of_nat (length (comments f)) >? 0)) eqn:He.
    + reflexivity.
    + destruct (Z.ltb_spec i (Z.of_nat (length fs) - 1)); [|contradiction].
      unfold upCursor. simpl.
      assert (Hi : 0 <= i).
      { unfold at_index in Hf. destruct (Z.ltb_spec i 0); [discriminate|lia]. }
      destruct (Z.gtb_spec (i + 1) 0); [|lia].
      replace (i + 1 - 1) with i by lia. rewrite Hf, He. reflexivity.
  - destruct Hj as [->|[He Hb]]; [contradiction|].
    destruct (Z.ltb_spec j (Z.of_nat (length (comments f)) - 1)).
    + unfold upCursor. destruct (Z.gtb_spec (j + 1) 0); [|lia].
      do 2 f_equal. lia.
    + destruct (Z.ltb_spec i (Z.of_nat (length fs) - 1)); [|contradiction].
      unfold upCursor. simpl.
      assert (Hi : 0 <= i).
      { unfold at_index in Hf. destruct (Z.ltb_spec i 0); [discriminate|lia]. }
      destruct (Z.gtb_spec (i + 1) 0); [|lia].
      replace (i + 1 - 1) with i by lia. rewrite Hf, He.
      destruct (Z.gtb_spec (Z.of_nat (length (comments f))) 0); [|lia].
      simpl. do 2 f_equal. lia.
Qed.

Lemma navItems_head fs c : navItems fs !! 0%nat = Some c -> c = (0, -1).
Proof.
  destruct fs as [|f r]; [discriminate|]. unfold navItems.
  rewrite itemsFrom_cons. unfold fileItems. cbn [app lookup list_lookup].
  intros H. injection H as <-. reflexivity.
Qed.

(** [up] on the cursor: from item [k] to item [k - 1]. *)
Lemma upCursor_previous fs k c :
  navItems fs !! k = Some c ->
  exists c', upCursor fs c = Some c' /\ navItems fs !! (k - 1)%nat = Some c'.
Proof.
  intros Hc. destruct k as [|k].
  - exists c. split; [|exact Hc]. apply navItems_head in Hc as ->. reflexivity.
  - destruct (lookup_lt_is_Some_2 (navItems fs) k) as [p Hp].
    { apply lookup_lt_Some in Hc. lia. }
    destruct (navItems_next fs k p c Hp Hc) as [Hd Hne].
    exists p. replace (S k - 1)%nat with k by lia. split; [|exact Hp].
    rewrite <- Hd. apply up_down_cursor.
    + apply list_elem_of_In. eapply list_elem_of_lookup_2, Hp.
    + rewrite Hd. congruence.
Qed.

(** X1. On a cursor that is the [k]-th navigable item, [navigateUp] does
    not raise; it leaves the files as they are and moves the cursor to
    item [k - 1], or leaves it on the first item when [k] is 0. *)
Theorem up_moves_to_previous_item (st : ReviewState) (k : nat) :
  navItems (files st) !! k = Some (cursor st) ->
  exists st',
    navigateUp st = Some st'
    /\ files st' = files st
    /\ navItems (files st) !! (k - 1)%nat = Some (cursor st').
Proof.
  intros Hk. destruct (upCursor_previous _ _ _ Hk) as (c' & Hup & Hc').
  rewrite <- navigateUp_cursor in Hup.
  destruct (navigateUp st) as [st'|] eqn:E; [|discriminate].
  exists st'. split; [reflexivity|]. split; [now apply navigateUp_files|].
  simpl in Hup. congruence.
Qed.

Lemma up_moves_to_previous_item_sample :
  navItems (files (set_selectedCommentIndex 1 sampleState)) !! 2%nat
  = Some (cursor (set_selectedCommentIndex 1 sampleState))
  /\ exists st', navigateUp (set_selectedCommentIndex 1 sampleState) = Some st'
                 /\ cursor st' = (0, 0).
Proof.
  assert (H : navItems (files (set_selectedCommentIndex 1 sampleState)) !! 2%nat
              = Some (cursor (set_selectedCommentIndex 1 sampleState)))
    by reflexivity.
  split; [exact H|].
  destruct (up_moves_to_previous_item _ _ H) as (st' & E & _ & Hc).
  exists st'. split; [exact E|].
  assert (E1 : navItems (files (set_selectedCommentIndex 1 sampleState)) !! (2 - 1)%nat
               = Some (0, 0)) by reflexivity.
  rewrite E1 in Hc. congruence.
Defined.

(** X2. [up] and [down] undo each other: on a cursor that is on a
    navigable item, a [down] that moves the cursor is taken back by [up],
    and an [up] that moves the cursor is taken back by [down]. *)
Theorem up_and_down_are_inverse (st : ReviewState) :
  In (cursor st) (navItems (files st)) ->
  (cursor (navigateDown st) <> cursor st ->
   cursor <$> navigateUp (navigateDown st) = Some (cursor st))
  /\ (forall st', navigateUp st = Some st' -> cursor st' <> cursor st ->
        cursor (navigateDown st') = cursor st).
Proof.
  intros Hin. split.
  - intros Hmove. rewrite navigateUp_cursor, navigateDown_files.
    rewrite navigateDown_cursor in *. now apply up_down_cursor.
  - intros st' Hup Hmove.
    apply list_elem_of_In, list_elem_of_lookup_1 in Hin as [k Hk].
    destruct (upCursor_previous _ _ _ Hk) as (c' & Hc & Hprev).
    rewrite <- navigateUp_cursor, Hup in Hc. simpl in Hc. injection Hc as <-.
    rewrite navigateDown_cursor, (navigateUp_files _ _ Hup).
    destruct k as [|k]; [simpl in Hprev; congruence|].
    replace (S k - 1)%nat with k in Hprev by lia.
    apply (navItems_next _ _ _ _ Hprev Hk).
Qed.

Lemma up_and_down_are_inverse_sample :
  In (cursor sampleState) (navItems (files sampleState))
  /\ cursor <$> navigateUp (navigateDown sampleState) = Some (cursor sampleState).
Proof.
  assert (H : In (cursor sampleState) (navItems (files sampleState)))
    by (left; reflexivity).
  split; [exact H|].
  apply (proj1 (up_and_down_are_inverse sampleState H)). vm_compute. discriminate.
Defined.

(** ** What every session keeps *)

Lemma sameData_refl st : sameData st st.
Proof. repeat split. Qed.

Lemma sameData_trans a b c : sameData a b -> sameData b c -> sameData a c.
Proof.
  intros (A1 & A2 & A3 & A4) (B1 & B2 & B3 & B4).
  repeat split; congruence.
Qed.

Lemma sameData_resetDetailScroll st : sameData st (resetDetailScroll st).
Proof. unfold resetDetailScroll. destruct (isDetail st); repeat split. Qed.

Lemma sameData_afterMove st st' : sameData st' (afterMove st st').
Proof. unfold afterMove. destruct (_ && _); repeat split. Qed.

(** The branches of [handleKeypress], by what they do to the file groups,
    the cursor and the counters: nothing, a move up, a move down, or the
    toggle of the file under the cursor. *)
Lemma handleKeypress_cases st key st' a :
  handleKeypress st key = Some (st', a) ->
  sameData st st'
  \/ (exists st1, navigateUp st = Some st1 /\ sameData st1 st')
  \/ sameData (navigateDown st) st'
  \/ (st' = toggleExpanded st /\ selectedCommentIndex st = -1).
Proof.
  unfold handleKeypress. destruct key as [key|];
    [|intros H; inversion H; left; apply sameData_refl].
  intros H.
  repeat match type of H with
         | context [if ?b then _ else _] => destruct b eqn:?
         | context [match navigateUp ?x with Some _ => _ | None => _ end] =>
             destruct (navigateUp x) eqn:?
         end;
    inversion H; subst; clear H;
    try (left; repeat split; fail);
    try (right; left; eexists; split; [reflexivity|apply sameData_afterMove]; fail);
    try (right; right; left; apply sameData_afterMove; fail).
  all: right; right; right; split; [reflexivity|].
  all: repeat match goal with
              | H : _ && _ = true |- _ => apply andb_prop in H as [? ?]
              end.
  all: match goal with H : (_ =? -1) = true |- _ => apply Z.eqb_eq in H; exact H end.
Qed.

Section SessionInvariant.
Context (pc : Style -> jsstring -> jsstring) (leftWidthOf : Z -> Z)
        (detailContent : ParsedComment -> Z -> list jsstring).

Local Abbreviation render' := (render pc leftWidthOf detailContent).
Local Abbreviation step' := (step pc leftWidthOf detailContent).
Local Abbreviation run' := (run pc leftWidthOf detailContent).
Local Abbreviation withRender' := (withRender pc leftWidthOf detailContent).
Local Abbreviation onKey' := (onKey pc leftWidthOf detailContent).
Local Abbreviation onMouse' := (onMouse pc leftWidthOf detailContent).

(** A render stores scroll offsets only. *)
Lemma sameData_render st t st' frame :
  render' st t = Some (st', frame) -> sameData st st'.
Proof.
  unfold render. destruct (isDetail st).
  - intros H. apply renderSplitView_inv in H as (totals & _ & -> & _).
    repeat split.
  - destruct (renderListView pc st t); [|discriminate].
    intros H. injection H as <- _. apply sameData_refl.
Qed.

Lemma sameData_withRender s st raised :
  keepsView raised -> sameData st (state (withRender' s st raised)).
Proof.
  intros Hk.
  destruct (withRender_cases pc leftWidthOf detailContent s st raised Hk)
    as [(st' & frame & Hr & -> & _)|(_ & -> & _)].
  - eapply sameData_render, Hr.
  - apply sameData_refl.
Qed.

(** A property of the state that reads the file groups, the cursor and the
    counters only, holds initially and is kept by a merge, by a move and by
    a toggle, holds in every state of every session. *)
Variable P : ReviewState -> Prop.
Hypothesis P_data : forall st st', sameData st st' -> P st -> P st'.
Hypothesis P_init : forall dataId, P (initialState dataId).
Hypothesis P_merge : forall st c, P st -> P (addComment st c).
Hypothesis P_up : forall st st', P st -> navigateUp st = Some st' -> P st'.
Hypothesis P_down : forall st, P st -> P (navigateDown st).
Hypothesis P_toggle :
  forall st, P st -> selectedCommentIndex st = -1 -> P (toggleExpanded st).

Lemma invariant_addComments cs : forall st, P st -> P (addComments st cs).
Proof using P_merge.
  induction cs as [|c cs IH]; intros st H; [exact H|]. apply IH, P_merge, H.
Qed.

Lemma invariant_handleKeypress st key st' a :
  P st -> handleKeypress st key = Some (st', a) -> P st'.
Proof using P_data P_up P_down P_toggle.
  intros H Hk.
  destruct (handleKeypress_cases _ _ _ _ Hk)
    as [Hs|[(st1 & Hu & Hs)|[Hs|[-> Hc]]]].
  - exact (P_data _ _ Hs H).
  - exact (P_data _ _ Hs (P_up _ _ H Hu)).
  - exact (P_data _ _ Hs (P_down _ H)).
  - exact (P_toggle _ H Hc).
Qed.

Lemma invariant_withRender s st raised :
  keepsView raised -> P st -> P (state (withRender' s st raised)).
Proof using P_data.
  intros Hk H. exact (P_data _ _ (sameData_withRender s st raised Hk) H).
Qed.

Lemma invariant_onKey s key : P (state s) -> P (state (onKey' s key)).
Proof using P_data P_up P_down P_toggle.
  intros H. unfold onKey.
  destruct (handleKeypress (state s) key) as [[st a]|] eqn:Hk; [|exact H].
  pose proof (invariant_handleKeypress _ _ _ _ H Hk) as H'.
  destruct a; simpl; try exact H'.
  - apply invariant_withRender; [apply keepsView_terminate|exact H'].
  - destruct (copyPayload st) as [[text|]|]; exact H'.
Qed.

Lemma invariant_onMouse s key m : P (state s) -> P (state (onMouse' s key m)).
Proof using P_data P_up P_down P_toggle.
  intros H. unfold onMouse. destruct (getTerminalSize (terminal s)) as [w h].
  case_ifs; try (now apply invariant_onKey);
    (apply invariant_withRender; [apply keepsView_terminate|]);
    (eapply P_data; [|exact H]); repeat split.
Qed.

Lemma invariant_step s e : P (state s) -> P (state (step' s e)).
Proof using P_data P_merge P_up P_down P_toggle.
  intros H. unfold step. destruct (exited s); [exact H|].
  destruct e as [key|t|cs|a|].
  - destruct key as [k|]; [destruct (mouse k)|];
      first [now apply invariant_onMouse | now apply invariant_onKey].
  - match goal with
    | |- P (state (withRender _ _ _ ?x _ _)) =>
        apply (invariant_withRender x (state s) terminate)
    end; [apply keepsView_terminate|exact H].
  - destruct cs as [|c cs]; [exact H|].
    apply invariant_withRender; [apply keepsView_swallowed|].
    now apply invariant_addComments.
  - destruct a; [exact H| | |];
      match goal with
      | |- P (state (withRender _ _ _ ?x ?st _)) =>
          apply (invariant_withRender x st swallowed)
      end; try apply keepsView_swallowed;
      (eapply P_data; [|exact H]); repeat split.
  - destruct (uiTimer s && isRunning (state s)); [|exact H].
    apply invariant_withRender; [apply keepsView_terminate|].
    eapply P_data; [|exact H]. repeat split.
Qed.

Lemma invariant_run events : forall s, P (state s) -> P (state (run' s events)).
Proof using P_data P_merge P_up P_down P_toggle.
  induction events as [|e es IH]; intros s H; [exact H|].
  apply IH, invariant_step, H.
Qed.

Lemma invariant_reachable s : reachable pc leftWidthOf detailContent s -> P (state s).
Proof using P_data P_init P_merge P_up P_down P_toggle.
  intros (dataId & initial & t & events & ->). apply invariant_run.
  unfold startSession.
  pose proof (invariant_addComments initial _ (P_init dataId)) as H0.
  destruct (render' _ t) as [[st fr]|] eqn:Hr; simpl; [|exact H0].
  exact (P_data _ _ (sameData_render _ _ _ _ Hr) H0).
Qed.

End SessionInvariant.

(** A merge keeps every file group at its index, with its path and its
    [expanded] flag, and only adds comments at the end of a group. *)
Lemma addComment_extends st c i g :
  files st !! i = Some g ->
  exists g', files (addComment st c) !! i = Some g'
             /\ filePath g' = filePath g /\ expanded g' = expanded g
             /\ exists extra, comments g' = comments g ++ extra.
Proof.
  intros Hg. unfold addComment.
  destruct (list_find _ (files st)) as [[k h]|] eqn:Hfind.
  - destruct (existsb (sameKey c) (comments h)).
    + exists g. repeat split; [exact Hg|]. exists []. now rewrite app_nil_r.
    + cbn [files set_files set_totalComments].
      apply list_find_Some in Hfind as (Hk & _ & _).
      destruct (decide (i = k)) as [->|Hne].
      * exists (pushComment c h). rewrite list_lookup_insert_eq
          by (eapply lookup_lt_Some, Hk).
        assert (g = h) as -> by congruence.
        repeat split. exists [c]. reflexivity.
      * exists g. rewrite list_lookup_insert_ne by congruence.
        repeat split; [exact Hg|]. exists []. now rewrite app_nil_r.
  - cbn [files set_files set_totalComments]. exists g.
    rewrite lookup_app_l by (eapply lookup_lt_Some, Hg).
    repeat split; [exact Hg|]. exists []. now rewrite app_nil_r.
Qed.

Lemma addComment_cursor st c : cursor (addComment st c) = cursor st.
Proof.
  unfold addComment. destruct (list_find _ _) as [[k h]|];
    [destruct (existsb _ _)|]; reflexivity.
Qed.

Lemma at_index_lookup {A} (l : list A) i x :
  at_index l i = Some x <-> 0 <= i /\ l !! Z.to_nat i = Some x.
Proof.
  unfold at_index. destruct (Z.ltb_spec i 0); split.
  - discriminate.
  - intros [? _]. lia.
  - auto.
  - now intros [_ H'].
Qed.

Lemma cursorOnItem_files_nonempty st :
  cursorOnItem st -> files st <> [] -> In (cursor st) (navItems (files st)).
Proof.
  intros [E|H] Hne; [|exact H]. rewrite E. apply in_navItems.
  destruct (files st) as [|f r]; [contradiction|]. exists f. split; [reflexivity|auto].
Qed.

Lemma cursorOnItem_sameData st st' : sameData st st' -> cursorOnItem st -> cursorOnItem st'.
Proof. intros (Ef & Ec & _) H. unfold cursorOnItem. now rewrite Ef, Ec. Qed.

Lemma cursorOnItem_addComment st c : cursorOnItem st -> cursorOnItem (addComment st c).
Proof.
  unfold cursorOnItem. rewrite addComment_cursor. intros [E|H]; [now left|right].
  destruct (cursor st) as [a b]. apply in_navItems in H as (f & Hf & Hb).
  apply at_index_lookup in Hf as [Ha Hf].
  destruct (addComment_extends st c _ _ Hf) as (g' & Hg' & _ & He & extra & Hc).
  apply in_navItems. exists g'. split; [now apply at_index_lookup|].
  destruct Hb as [->|[Hx Hb]]; [now left|right].
  rewrite He, Hc, length_app. split; [exact Hx|lia].
Qed.

Lemma cursorOnItem_navigateDown st : cursorOnItem st -> cursorOnItem (navigateDown st).
Proof.
  intros H. unfold cursorOnItem. rewrite navigateDown_files, navigateDown_cursor.
  destruct (files st) as [|f0 r0] eqn:Efs.
  - destruct H as [E|H]; [|rewrite Efs in H; destruct H].
    rewrite E. left. reflexivity.
  - assert (Hin : In (cursor st) (navItems (files st))).
    { apply cursorOnItem_files_nonempty; [exact H|congruence]. }
    rewrite <- Efs. right.
    apply list_elem_of_In, list_elem_of_lookup_1 in Hin as [k Hk].
    destruct (navItems (files st) !! S k) as [c'|] eqn:Hnext.
    + destruct (navItems_next _ _ _ _ Hk Hnext) as [-> _].
      apply list_elem_of_In. eapply list_elem_of_lookup_2, Hnext.
    + apply lookup_ge_None in Hnext. pose proof (lookup_lt_Some _ _ _ Hk) as Hlt.
      destruct (orbit_items (files st) (files st) 0 eq_refl) as [_ Hfix].
      change (itemsFrom 0 (files st)) with (navItems (files st)) in Hfix.
      assert (Hne : files st <> []) by congruence.
      specialize (Hfix Hne). cbv zeta in Hfix.
      change (Z.of_nat 0) with 0 in Hfix.
      replace (length (navItems (files st)) - 1)%nat with k in Hfix by lia.
      rewrite navItems_lookup in Hk by lia. injection Hk as Hk.
      rewrite Hk in Hfix. rewrite Hfix.
      apply list_elem_of_In. rewrite <- Hk.
      eapply list_elem_of_lookup_2. apply navItems_lookup. lia.
Qed.

Lemma cursorOnItem_navigateUp st :
  cursorOnItem st -> exists st', navigateUp st = Some st' /\ cursorOnItem st'.
Proof.
  intros H.
  assert (Hgoal : exists c', upCursor (files st) (cursor st) = Some c'
                             /\ (c' = (0, -1) \/ In c' (navItems (files st)))).
  { destruct H as [E|H].
    - rewrite E. exists (0, -1). split; [reflexivity|now left].
    - apply list_elem_of_In, list_elem_of_lookup_1 in H as [k Hk].
      destruct (upCursor_previous _ _ _ Hk) as (c' & Hup & Hc').
      exists c'. split; [exact Hup|right].
      apply list_elem_of_In. eapply list_elem_of_lookup_2, Hc'. }
  destruct Hgoal as (c' & Hup & Hc').
  rewrite <- navigateUp_cursor in Hup.
  destruct (navigateUp st) as [st'|] eqn:E; [|discriminate].
  exists st'. split; [reflexivity|]. simpl in Hup. injection Hup as Hup.
  unfold cursorOnItem. now rewrite (navigateUp_files _ _ E), Hup.
Qed.

Lemma cursorOnItem_toggleExpanded st :
  cursorOnItem st -> selectedCommentIndex st = -1 -> cursorOnItem (toggleExpanded st).
Proof.
  intros H Hc. unfold toggleExpanded.
  destruct (at_index (files st) (selectedFileIndex st)) as [file|] eqn:Hf; [|exact H].
  apply at_index_lookup in Hf as [Hi Hf].
  right.
  assert (Hgoal : forall st1,
             files st1 = <[Z.to_nat (selectedFileIndex st) :=
                             set_expanded (negb (expanded file)) file]> (files st) ->
             cursor st1 = (selectedFileIndex st, -1) ->
             In (cursor st1) (navItems (files st1))).
  { intros st1 E1 E2. rewrite E1, E2. apply in_navItems.
    exists (set_expanded (negb (expanded file)) file). split; [|now left].
    apply at_index_lookup. split; [exact Hi|].
    apply list_lookup_insert_eq. eapply lookup_lt_Some, Hf. }
  destruct (negb (expanded (set_expanded (negb (expanded file)) file)));
    apply Hgoal; try reflexivity.
  unfold cursor. simpl. now rewrite Hc.
Qed.

Lemma cursorOnItem_handleKeypress st key :
  cursorOnItem st -> handleKeypress st key <> None.
Proof.
  intros H. unfold handleKeypress. destruct key as [key|]; [|discriminate].
  destruct (cursorOnItem_navigateUp st H) as (st' & -> & _).
  case_ifs; discriminate.
Qed.

Lemma cursorOnItem_copyPayload st : cursorOnItem st -> copyPayload st <> None.
Proof.
  intros H. unfold copyPayload.
  destruct (at_index (files st) (selectedFileIndex st)) as [file|] eqn:Hf;
    [|discriminate].
  destruct (Z.geb_spec (selectedCommentIndex st) 0) as [Hc|]; [|discriminate].
  assert (Hin : In (cursor st) (navItems (files st))).
  { apply cursorOnItem_files_nonempty; [exact H|]. intros E. rewrite E in Hf.
    unfold at_index in Hf. destruct (_ <? 0); [discriminate|].
    now rewrite lookup_nil in Hf. }
  apply in_navItems in Hin as (f & Hf' & Hb). rewrite Hf in Hf'. injection Hf' as <-.
  destruct Hb as [E|[_ Hb]]; [lia|].
  destruct (at_index (comments file) (selectedCommentIndex st)) eqn:Hcm.
  - destruct (search _ _ _); discriminate.
  - unfold at_index in Hcm. destruct (Z.ltb_spec (selectedCommentIndex st) 0); [lia|].
    apply lookup_ge_None in Hcm. lia.
Qed.


Lemma navigateDown_counters st :
  totalComments (navigateDown st) = totalComments st
  /\ resolvedComments (navigateDown st) = resolvedComments st.
Proof.
  unfold navigateDown, resetDetailScroll.
  destruct (at_index (files st) (selectedFileIndex st)); [|split; reflexivity].
  case_ifs; split; reflexivity.
Qed.

Lemma navigateUp_counters st st' :
  navigateUp st = Some st' ->
  totalComments st' = totalComments st /\ resolvedComments st' = resolvedComments st.
Proof.
  unfold navigateUp, resetDetailScroll. intros H.
  repeat match type of H with
         | context [if ?b then _ else _] => destruct b
         | context [match ?x with Some _ => _ | None => _ end] => destruct x
         end;
    inversion H; subst; clear H; split; reflexivity.
Qed.

(** The toggle changes [expanded] flags only. *)
Lemma toggleExpanded_data st :
  filePath <$> files (toggleExpanded st) = filePath <$> files st
  /\ comments <$> files (toggleExpanded st) = comments <$> files st
  /\ totalComments (toggleExpanded st) = totalComments st
  /\ resolvedComments (toggleExpanded st) = resolvedComments st.
Proof.
  unfold toggleExpanded.
  destruct (at_index (files st) (selectedFileIndex st)) as [file|] eqn:Hf;
    [|repeat split].
  apply at_index_lookup in Hf as [Hi Hf].
  assert (E1 : filePath <$> <[Z.to_nat (selectedFileIndex st) :=
                                set_expanded (negb (expanded file)) file]> (files st)
               = filePath <$> files st).
  { rewrite list_fmap_insert. apply list_insert_id.
    rewrite list_lookup_fmap, Hf. reflexivity. }
  assert (E2 : comments <$> <[Z.to_nat (selectedFileIndex st) :=
                                set_expanded (negb (expanded file)) file]> (files st)
               = comments <$> files st).
  { rewrite list_fmap_insert. apply list_insert_id.
    rewrite list_lookup_fmap, Hf. reflexivity. }
  destruct (negb (expanded (set_expanded (negb (expanded file)) file)));
    repeat split; assumption.
Qed.

Lemma storedComments_app fs gs :
  storedComments (fs ++ gs) = storedComments fs ++ storedComments gs.
Proof. unfold storedComments. now rewrite fmap_app, concat_app. Qed.

Lemma storedComments_insert fs i g g' :
  fs !! i = Some g ->
  length (storedComments (<[i := g']> fs))
  = (length (storedComments fs) + length (comments g') - length (comments g))%nat.
Proof.
  intros Hg. pose proof (lookup_lt_Some _ _ _ Hg) as Hlt.
  rewrite insert_take_drop by exact Hlt.
  rewrite <- (take_drop_middle fs i g Hg) at 3.
  rewrite !storedComments_app.
  change (storedComments (?x :: ?r)) with (comments x ++ storedComments r).
  rewrite !length_app. lia.
Qed.

(** The counter and the stored comments after one merge. *)
Lemma addComment_counts st c :
  totalComments (addComment st c) - totalComments st
  = Z.of_nat (length (storedComments (files (addComment st c))))
    - Z.of_nat (length (storedComments (files st)))
  /\ resolvedComments (addComment st c) = resolvedComments st.
Proof.
  unfold addComment.
  destruct (list_find _ (files st)) as [[k h]|] eqn:Hfind.
  - destruct (existsb (sameKey c) (comments h)); [split; [lia|reflexivity]|].
    cbn [files set_files set_totalComments totalComments resolvedComments].
    apply list_find_Some in Hfind as (Hk & _ & _).
    rewrite (storedComments_insert _ _ _ _ Hk). cbn [comments pushComment].
    rewrite length_app. simpl length.
    assert (length (comments h) <= length (storedComments (files st)))%nat.
    { rewrite <- (take_drop_middle _ _ _ Hk), storedComments_app.
      change (storedComments (?x :: ?r)) with (comments x ++ storedComments r).
      rewrite !length_app. lia. }
    split; [lia|reflexivity].
  - cbn [files set_files set_totalComments totalComments resolvedComments].
    rewrite storedComments_app, length_app. simpl. split; [lia|reflexivity].
Qed.

Lemma sameKey_commentKey c x : sameKey c x = bool_decide (commentKey x = commentKey c).
Proof.
  unfold sameKey, commentKey.
  destruct (decide (Api.line_start x = Api.line_start c)) as [E1|E1];
    destruct (decide (Api.title x = Api.title c)) as [E2|E2].
  - rewrite !bool_decide_eq_true_2 by congruence. reflexivity.
  - rewrite (bool_decide_eq_false_2 (Api.title x = Api.title c)) by exact E2.
    rewrite andb_false_r. symmetry. apply bool_decide_eq_false_2. congruence.
  - rewrite (bool_decide_eq_false_2 (Api.line_start x = Api.line_start c)) by exact E1.
    symmetry. apply bool_decide_eq_false_2. congruence.
  - rewrite (bool_decide_eq_false_2 (Api.line_start x = Api.line_start c)) by exact E1.
    symmetry. apply bool_decide_eq_false_2. congruence.
Qed.

Lemma existsb_sameKey c cs :
  existsb (sameKey c) cs = false -> commentKey c ∉ commentKey <$> cs.
Proof.
  intros H Hin. apply list_elem_of_fmap in Hin as (x & E & Hx).
  assert (existsb (sameKey c) cs = true); [|congruence].
  apply existsb_exists. exists x. split; [now apply list_elem_of_In|].
  rewrite sameKey_commentKey. apply bool_decide_eq_true_2. congruence.
Qed.

Lemma distinct_pushComment c g :
  distinctComments g -> existsb (sameKey c) (comments g) = false ->
  distinctComments (pushComment c g).
Proof.
  unfold distinctComments. intros Hnd Hex. cbn [comments pushComment].
  rewrite fmap_app. apply list.NoDup_app. split; [exact Hnd|]. split.
  - intros k Hk Hk'. apply list_elem_of_singleton in Hk'. subst k.
    now apply (existsb_sameKey c (comments g)).
  - apply NoDup_singleton.
Qed.

(** One merge keeps the comments of every group distinct and every group
    non-empty. *)
Lemma addComment_distinct st c :
  Forall distinctComments (files st) -> Forall distinctComments (files (addComment st c)).
Proof.
  intros H. unfold addComment.
  destruct (list_find _ (files st)) as [[k h]|] eqn:Hfind.
  - destruct (existsb (sameKey c) (comments h)) eqn:Hex; [exact H|].
    cbn [files set_files set_totalComments].
    apply list_find_Some in Hfind as (Hk & _ & _).
    apply Forall_insert; [exact H|].
    apply distinct_pushComment; [|exact Hex].
    eapply Forall_lookup_1; eassumption.
  - cbn [files set_files set_totalComments]. apply Forall_app. split; [exact H|].
    constructor; [|constructor]. unfold distinctComments. simpl.
    apply NoDup_singleton.
Qed.

Lemma addComment_nonempty st c :
  Forall (fun g => comments g <> []) (files st) ->
  Forall (fun g => comments g <> []) (files (addComment st c)).
Proof.
  intros H. unfold addComment.
  destruct (list_find _ (files st)) as [[k h]|] eqn:Hfind.
  - destruct (existsb (sameKey c) (comments h)) eqn:Hex; [exact H|].
    cbn [files set_files set_totalComments].
    apply Forall_insert; [exact H|]. cbn [comments pushComment].
    intros E. apply app_eq_nil in E as [_ E]. discriminate.
  - cbn [files set_files set_totalComments]. apply Forall_app. split; [exact H|].
    constructor; [discriminate|constructor].
Qed.

Lemma Forall_by_comments (Q : list Api.ReviewComment -> Prop) fs gs :
  comments <$> gs = comments <$> fs ->
  Forall (fun g => Q (comments g)) fs -> Forall (fun g => Q (comments g)) gs.
Proof.
  intros E H.
  assert (H' : Forall Q (comments <$> fs)) by (apply Forall_fmap; exact H).
  rewrite <- E in H'. exact (proj1 (Forall_fmap comments Q gs) H').
Qed.

Lemma reachable_start pc leftWidthOf detailContent dataId initial t :
  reachable pc leftWidthOf detailContent
    (startSession pc leftWidthOf detailContent dataId initial t).
Proof. exists dataId, initial, t, []. reflexivity. Qed.

Lemma reachable_step pc leftWidthOf detailContent s e :
  reachable pc leftWidthOf detailContent s ->
  reachable pc leftWidthOf detailContent (step pc leftWidthOf detailContent s e).
Proof.
  intros (dataId & initial & t & events & ->).
  exists dataId, initial, t, (events ++ [e]). unfold run.
  now rewrite fold_left_app.
Qed.

Section SessionFacts.
Context (pc : Style -> jsstring -> jsstring) (leftWidthOf : Z -> Z)
        (detailContent : ParsedComment -> Z -> list jsstring).

(** X3. In every state of every session the cursor is on a navigable item
    (or on the header position of the first file while no comment has
    arrived), so neither [handleKeypress] nor the copy branch of the key
    listener ever raises a [TypeError], whatever the key. *)
Theorem session_cursor_on_item (s : Session) :
  reachable pc leftWidthOf detailContent s ->
  cursorOnItem (state s)
  /\ (forall key, handleKeypress (state s) key <> None)
  /\ copyPayload (state s) <> None.
Proof.
  intros Hs.
  assert (H : cursorOnItem (state s)).
  { apply (invariant_reachable pc leftWidthOf detailContent cursorOnItem);
      try exact Hs.
    - apply cursorOnItem_sameData.
    - intros dataId. left. reflexivity.
    - apply cursorOnItem_addComment.
    - intros st st' H0 Hup.
      destruct (cursorOnItem_navigateUp st H0) as (st1 & E & H1). congruence.
    - apply cursorOnItem_navigateDown.
    - apply cursorOnItem_toggleExpanded. }
  split; [exact H|]. split.
  - intros key. now apply cursorOnItem_handleKeypress.
  - now apply cursorOnItem_copyPayload.
Qed.

(** X4. In every state of every session [totalComments] is the number of
    comments the file groups hold, and [resolvedComments] is still 0:
    nothing in the session ever resolves a comment. *)
Theorem session_counts_comments (s : Session) :
  reachable pc leftWidthOf detailContent s ->
  totalComments (state s) = Z.of_nat (length (storedComments (files (state s))))
  /\ resolvedComments (state s) = 0.
Proof.
  apply (invariant_reachable pc leftWidthOf detailContent
           (fun st => totalComments st = Z.of_nat (length (storedComments (files st)))
                      /\ resolvedComments st = 0)).
  - intros st st' (Ef & _ & Et & Er) [H1 H2]. now rewrite Ef, Et, Er.
  - intros dataId. split; reflexivity.
  - intros st c [H1 H2]. destruct (addComment_counts st c) as [E1 E2].
    split; [lia|congruence].
  - intros st st' [H1 H2] Hup. destruct (navigateUp_counters _ _ Hup) as [E1 E2].
    rewrite (navigateUp_files _ _ Hup), E1, E2. now split.
  - intros st [H1 H2]. destruct (navigateDown_counters st) as [E1 E2].
    rewrite navigateDown_files, E1, E2. now split.
  - intros st [H1 H2] _. destruct (toggleExpanded_data st) as (_ & Ec & E1 & E2).
    unfold storedComments. rewrite Ec, E1, E2. now split.
Qed.

(** X5. In every state of every session there is one file group per path,
    no group is empty, and no group holds two comments with the same line
    start and title, whatever the polls delivered. *)
Theorem session_no_duplicates (s : Session) :
  reachable pc leftWidthOf detailContent s ->
  keyedByPath (files (state s))
  /\ Forall distinctComments (files (state s))
  /\ Forall (fun g => comments g <> []) (files (state s)).
Proof.
  apply (invariant_reachable pc leftWidthOf detailContent
           (fun st => keyedByPath (files st)
                      /\ Forall distinctComments (files st)
                      /\ Forall (fun g => comments g <> []) (files st))).
  - intros st st' (Ef & _) H. now rewrite Ef.
  - intros dataId. split; [constructor|]. split; constructor.
  - intros st c (H1 & H2 & H3). split; [now apply addComment_keyed|].
    split; [now apply addComment_distinct|now apply addComment_nonempty].
  - intros st st' H Hup. now rewrite (navigateUp_files _ _ Hup).
  - intros st H. now rewrite navigateDown_files.
  - intros st (H1 & H2 & H3) _. destruct (toggleExpanded_data st) as (Ep & Ec & _).
    split; [unfold keyedByPath; now rewrite Ep|]. split.
    + exact (Forall_by_comments (fun cs => NoDup (commentKey <$> cs)) _ _ Ec H2).
    + exact (Forall_by_comments (fun cs => cs <> []) _ _ Ec H3).
Qed.

(** X6. In every state of every session the two scroll offsets are
    non-negative: every handler that lowers an offset stops at 0, and a
    render only lowers an offset towards its maximum. *)
Theorem session_offsets_nonnegative (s : Session) :
  reachable pc leftWidthOf detailContent s -> scrollNonneg (state s).
Proof.
  intros (dataId & initial & t & events & ->). apply session_scrollNonneg.
Qed.

End SessionFacts.

Lemma session_counts_comments_sample :
  reachable ansiPc floor35 sampleDetailContent
    (step ansiPc floor35 sampleDetailContent sampleSession (CommentsPolled [leak; typo; race]))
  /\ totalComments
       (state (step ansiPc floor35 sampleDetailContent sampleSession
                 (CommentsPolled [leak; typo; race]))) = 3.
Proof.
  assert (H : reachable ansiPc floor35 sampleDetailContent
                (step ansiPc floor35 sampleDetailContent sampleSession
                   (CommentsPolled [leak; typo; race]))).
  { apply reachable_step. unfold sampleSession. apply reachable_start. }
  split; [exact H|].
  rewrite (proj1 (session_counts_comments ansiPc floor35 sampleDetailContent _ H)).
  vm_compute. reflexivity.
Defined.

Lemma session_no_duplicates_sample :
  reachable ansiPc floor35 sampleDetailContent sampleSession
  /\ keyedByPath (files (state sampleSession)).
Proof.
  assert (H : reachable ansiPc floor35 sampleDetailContent sampleSession).
  { unfold sampleSession. apply reachable_start. }
  split; [exact H|].
  exact (proj1 (session_no_duplicates ansiPc floor35 sampleDetailContent sampleSession H)).
Defined.

Lemma session_offsets_nonnegative_sample :
  reachable ansiPc floor35 sampleDetailContent sampleSession
  /\ scrollNonneg (state sampleSession).
Proof.
  assert (H : reachable ansiPc floor35 sampleDetailContent sampleSession).
  { unfold sampleSession. apply reachable_start. }
  split; [exact H|].
  exact (session_offsets_nonnegative ansiPc floor35 sampleDetailContent sampleSession H).
Defined.

Lemma session_cursor_on_item_sample :
  reachable ansiPc floor35 sampleDetailContent sampleSession
  /\ cursorOnItem (state sampleSession).
Proof.
  assert (H : reachable ansiPc floor35 sampleDetailContent sampleSession).
  { unfold sampleSession. apply reachable_start. }
  split; [exact H|].
  exact (proj1 (session_cursor_on_item ansiPc floor35 sampleDetailContent sampleSession H)).
Defined.

(** ** Padding and truncation *)

Lemma repGreedy_pad p q (k : jsstring -> option mres) :
  match q with [] => True | c :: _ => p c = false end ->
  k q = None -> k [] = None ->
  (forall c t, k (c :: t ++ q)
               = match k (c :: t) with
                 | Some (rest, cap) => Some (rest ++ q, cap)
                 | None => None
                 end) ->
  forall u min,
    repGreedy p min (u ++ q) k
    = match repGreedy p min u k with
      | Some (rest, cap) => Some (rest ++ q, cap)
      | None => None
      end.
Proof.
  intros Hq Hkq Hk0 Hk. induction u as [|c t IH]; intros min.
  - cbn [app]. destruct q as [|d q'].
    + simpl. destruct min; [now rewrite Hk0|reflexivity].
    + simpl. rewrite Hq. destruct min; [now rewrite Hkq, Hk0|reflexivity].
  - cbn [app repGreedy]. destruct (p c).
    + rewrite IH. destruct (repGreedy p (Nat.pred min) t k) as [[rest cap]|];
        [reflexivity|].
      simpl. destruct min; [apply Hk|reflexivity].
    + destruct min; [apply Hk|reflexivity].
Qed.

(** Blanks after a string change no match of the colour pattern. *)
Lemma exec_sgr_pad s n :
  exec false reSgr (s ++ repeat 32%N n)
  = match exec false reSgr s with
    | Some (rest, cap) => Some (rest ++ repeat 32%N n, cap)
    | None => None
    end.
Proof.
  destruct s as [|c t].
  - destruct n; [reflexivity|]. simpl. now rewrite exec_sgr_visible.
  - destruct (N.eq_dec c Chars.ESC) as [->|Hc];
      [|cbn [app]; now rewrite !exec_sgr_visible].
    destruct t as [|d u].
    + destruct n; reflexivity.
    + unfold exec, reSgr. cbn [app RCat rmatch].
      change (Chars.charMatches false Chars.ESC Chars.ESC) with true. cbv iota.
      destruct (Chars.charMatches false 91 d); [|reflexivity].
      apply (repGreedy_pad Chars.isSgrParam (repeat 32%N n)).
      * destruct n; reflexivity.
      * destruct n; reflexivity.
      * reflexivity.
      * intros c t. destruct (Chars.charMatches false 109 c); reflexivity.
Qed.

Lemma stripAnsi_blanks n : stripAnsi (repeat 32%N n) = repeat 32%N n.
Proof.
  induction n as [|n IH]; [reflexivity|].
  simpl. rewrite stripAnsi_visible by discriminate. now rewrite IH.
Qed.

Lemma removeGo_pad n : forall s skip,
  (skip <= length s)%nat ->
  removeGo false reSgr skip (s ++ repeat 32%N n)
  = removeGo false reSgr skip s ++ repeat 32%N n.
Proof.
  induction s as [|c t IH]; intros skip Hskip.
  - simpl in Hskip. assert (skip = 0%nat) as -> by lia. apply stripAnsi_blanks.
  - cbn [app]. rewrite !removeGo_cons. destruct skip as [|k].
    + change (c :: t ++ repeat 32%N n) with ((c :: t) ++ repeat 32%N n).
      rewrite exec_sgr_pad.
      destruct (exec false reSgr (c :: t)) as [[rest cap]|].
      * replace (length ((c :: t) ++ repeat 32%N n) - length (rest ++ repeat 32%N n))%nat
          with (length (c :: t) - length rest)%nat by (rewrite !length_app; lia).
        destruct (length (c :: t) - length rest)%nat as [|m] eqn:Hm.
        -- cbn [app]. f_equal. apply IH. lia.
        -- apply IH. simpl in Hm. lia.
      * cbn [app]. f_equal. apply IH. lia.
    + apply IH. simpl in Hskip. lia.
Qed.

(** X7. [padAnsi] only adds blanks at the end: for every string and
    width the visible text of the result is the visible text of the string
    followed by the blanks, and its visible length is the larger of the
    width and the visible length of the string (a string that is too wide
    is returned as it is, never cut). *)
Theorem padAnsi_visible (str : jsstring) (width : Z) :
  stripAnsi (padAnsi str width)
  = stripAnsi str ++ repeat 32%N (Z.to_nat (width - visibleLength str))
  /\ visibleLength (padAnsi str width) = Z.max width (visibleLength str)
  /\ (width <= visibleLength str -> padAnsi str width = str).
Proof.
  unfold padAnsi.
  assert (E : Z.to_nat (Z.max 0 (width - visibleLength str))
              = Z.to_nat (width - visibleLength str)) by lia.
  rewrite E.
  assert (Hs : stripAnsi (str ++ repeat 32%N (Z.to_nat (width - visibleLength str)))
               = stripAnsi str ++ repeat 32%N (Z.to_nat (width - visibleLength str))).
  { unfold stripAnsi, removeAll. apply removeGo_pad. lia. }
  split; [exact Hs|]. split.
  - unfold visibleLength at 1. rewrite Hs. unfold jslen.
    rewrite length_app, repeat_length.
    assert (0 <= visibleLength str) by (unfold visibleLength, jslen; lia).
    unfold visibleLength, jslen in *. lia.
  - intros Hw. replace (Z.to_nat (width - visibleLength str)) with 0%nat by lia.
    apply app_nil_r.
Qed.

(** X8. Truncating twice is truncating once: for a width of at least 3 and
    a string whose escape characters each start a complete colour sequence,
    [truncate] returns its own result unchanged. *)
Theorem truncate_idempotent (str : jsstring) (W : Z) :
  3 <= W -> AnsiWF str -> truncate (truncate str W) W = truncate str W.
Proof.
  intros HW Hwf.
  destruct (Z.leb_spec (visibleLength str) W) as [Hle|Hgt].
  - assert (E : truncate str W = str).
    { unfold truncate. cbv zeta. now rewrite (proj2 (Z.leb_le _ _) Hle). }
    now rewrite !E.
  - pose proof (truncate_long_length str W HW Hwf Hgt) as Hlen.
    unfold truncate at 1. cbv zeta. rewrite Hlen, Z.leb_refl. reflexivity.
Qed.

Lemma truncate_idempotent_sample :
  3 <= 8 /\ AnsiWF redHello
  /\ truncate (truncate redHello 8) 8 = sgr 31 ++ js "hello...".
Proof.
  assert (HW : 3 <= 8) by lia.
  split; [exact HW|]. split; [exact AnsiWF_redHello|].
  rewrite (truncate_idempotent redHello 8 HW AnsiWF_redHello). reflexivity.
Defined.

(** ** The scroll window *)

(** X9. The scroll window of both panels: for a non-negative offset and
    height it shows the lines from the offset on, at most [maxHeight] of
    them, where an offset past [totalLines - maxHeight] is taken back to
    it; so the window is full whenever the content is at least as tall as
    the viewport, however far past the end the offset is. *)
Theorem scrollWindow_shows (lines : list jsstring) (maxHeight scrollOffset : Z) :
  0 <= scrollOffset -> 0 <= maxHeight ->
  let total := Z.of_nat (length lines) in
  let adjusted := Z.min scrollOffset (Z.max 0 (total - maxHeight)) in
  fst (scrollWindow lines maxHeight scrollOffset)
  = take (Z.to_nat maxHeight) (drop (Z.to_nat adjusted) lines)
  /\ Z.of_nat (length (fst (scrollWindow lines maxHeight scrollOffset)))
     = Z.min maxHeight total
  /\ snd (scrollWindow lines maxHeight scrollOffset) = total.
Proof.
  intros Ho Hh total adjusted.
  assert (E : fst (scrollWindow lines maxHeight scrollOffset)
              = take (Z.to_nat maxHeight) (drop (Z.to_nat adjusted) lines)).
  { unfold scrollWindow. cbn [fst]. fold total. fold adjusted.
    unfold sliceFrom, slice. fold total.
    destruct (Z.ltb_spec total 0); [lia|].
    destruct (Z.ltb_spec adjusted 0); [lia|].
    replace (Z.to_nat (Z.min total total - Z.min adjusted total))
      with (length lines - Z.to_nat adjusted)%nat by lia.
    replace (Z.to_nat (Z.min adjusted total)) with (Z.to_nat adjusted) by lia.
    rewrite (take_ge (drop _ lines)) by (rewrite length_drop; lia).
    set (rest := drop (Z.to_nat adjusted) lines).
    destruct (Z.ltb_spec 0 0); [lia|].
    destruct (Z.ltb_spec maxHeight 0); [lia|].
    replace (Z.to_nat (Z.min 0 (Z.of_nat (length rest)))) with 0%nat by lia.
    rewrite drop_0.
    replace (Z.to_nat (Z.min maxHeight (Z.of_nat (length rest))
                       - Z.min 0 (Z.of_nat (length rest))))
      with (Z.to_nat maxHeight `min` length rest)%nat by lia.
    destruct (Nat.le_ge_cases (Z.to_nat maxHeight) (length rest)) as [Hle|Hge].
    - now rewrite Nat.min_l.
    - rewrite Nat.min_r by exact Hge. rewrite !take_ge by lia. reflexivity. }
  split; [exact E|]. split; [|reflexivity].
  rewrite E, length_take, length_drop. lia.
Qed.

Lemma scrollWindow_shows_sample :
  0 <= 7 /\ 0 <= 2
  /\ fst (scrollWindow [js "a"; js "b"; js "c"] 2 7) = [js "b"; js "c"].
Proof.
  assert (H1 : 0 <= 7) by lia. assert (H2 : 0 <= 2) by lia.
  split; [exact H1|]. split; [exact H2|].
  rewrite (proj1 (scrollWindow_shows [js "a"; js "b"; js "c"] 2 7 H1 H2)).
  reflexivity.
Defined.

(** ** Word wrap, when the words fit *)

Lemma truthy_nonempty s : truthy s = true <-> s <> [].
Proof. destruct s; simpl; split; congruence. Qed.

Lemma truncate_cut_nonempty s W : W < visibleLength s -> truncate s W <> [].
Proof.
  intros H. unfold truncate. cbv zeta.
  destruct (Z.leb_spec (visibleLength s) W); [lia|].
  intros E. apply app_eq_nil in E as [_ E]. discriminate.
Qed.

Lemma join_snoc sep l a :
  l <> [] -> join sep (l ++ [a]) = join sep l ++ sep ++ a.
Proof.
  induction l as [|x l IH]; [congruence|]. intros _.
  destruct l as [|y l]; [reflexivity|].
  change (join sep ((x :: y :: l) ++ [a])) with (x ++ sep ++ join sep ((y :: l) ++ [a])).
  rewrite IH by discriminate.
  change (join sep (x :: y :: l)) with (x ++ sep ++ join sep (y :: l)).
  now rewrite <- !app_assoc.
Qed.

Lemma wordWrap_fold text W :
  wordWrap text W
  = (let st := fold_left (wrapStep W) (splitWs text) ([], []) in
     if truthy (snd st) then fst st ++ [snd st] else fst st).
Proof.
  unfold wordWrap. cbv zeta. destruct (fold_left _ _ _) as [lines cur]. reflexivity.
Qed.

(** The loop of [wordWrap] over words that fit: every stored line and the
    current line fit. *)
Lemma wrap_fits W words : forall st,
  Forall (fun w => visibleLength w <= W) words ->
  Forall (fun l => visibleLength l <= W) (fst st) ->
  (truthy (snd st) = true -> visibleLength (snd st) <= W) ->
  let st' := fold_left (wrapStep W) words st in
  Forall (fun l => visibleLength l <= W) (fst st')
  /\ (truthy (snd st') = true -> visibleLength (snd st') <= W).
Proof.
  induction words as [|w ws IH]; intros [lines cur] Hw Hl Hc; [split; assumption|].
  inversion Hw as [|? ? Hfit Hrest]; subst.
  cbn [fold_left]. apply IH; [exact Hrest| |]; unfold wrapStep; cbn [fst snd] in *;
    destruct (truthy cur) eqn:Ht;
    match goal with |- context [?a >? ?b] => destruct (Z.gtb_spec a b) end;
    cbn [fst snd]; try exact Hl; try (intros _; assumption); try lia.
  apply Forall_app. split; [exact Hl|]. constructor; [auto|constructor].
Qed.

(** X10. When every whitespace-delimited word of the text fits the width,
    every line [wordWrap] returns fits it. *)
Theorem wordWrap_fits (text : jsstring) (W : Z) :
  Forall (fun w => visibleLength w <= W) (splitWs text) ->
  Forall (fun l => visibleLength l <= W) (wordWrap text W).
Proof.
  intros Hw. rewrite wordWrap_fold. cbv zeta.
  destruct (wrap_fits W (splitWs text) ([], []) Hw) as [Hl Hc];
    [constructor|discriminate|].
  destruct (truthy _) eqn:Ht; [|exact Hl].
  apply Forall_app. split; [exact Hl|]. constructor; [auto|constructor].
Qed.

Lemma wordWrap_fits_sample :
  Forall (fun w => visibleLength w <= 5) (splitWs (js "ab cd ef"))
  /\ wordWrap (js "ab cd ef") 5 = [js "ab cd"; js "ef"]
  /\ Forall (fun l => visibleLength l <= 5) (wordWrap (js "ab cd ef") 5).
Proof.
  assert (H : Forall (fun w => visibleLength w <= 5) (splitWs (js "ab cd ef"))).
  { change (splitWs (js "ab cd ef")) with [js "ab"; js "cd"; js "ef"].
    repeat (constructor; [vm_compute; discriminate|]). constructor. }
  split; [exact H|]. split; [reflexivity|].
  exact (wordWrap_fits (js "ab cd ef") 5 H).
Defined.

Lemma wrap_nonempty W words : forall st,
  Forall (fun l => l <> []) (fst st) ->
  Forall (fun l => l <> []) (fst (fold_left (wrapStep W) words st)).
Proof.
  induction words as [|w ws IH]; intros [lines cur] Hl; [exact Hl|].
  cbn [fold_left]. apply IH. unfold wrapStep. cbn [fst] in *.
  destruct (truthy cur) eqn:Ht;
    match goal with |- context [?a >? ?b] => destruct (Z.gtb_spec a b) end;
    cbn [fst]; try exact Hl;
    (apply Forall_app; split; [exact Hl|]; constructor; [|constructor]).
  - now apply truthy_nonempty.
  - now apply truncate_cut_nonempty.
Qed.

(** X11. [wordWrap] never returns an empty line, whatever the text and the
    width: leading, trailing and repeated white space leave no blank line,
    and a text of white space only gives no line at all when the width is
    not negative. *)
Theorem wordWrap_no_empty_line (text : jsstring) (W : Z) :
  Forall (fun l => l <> []) (wordWrap text W)
  /\ (0 <= W -> Forall (fun c => Chars.isSpace c = true) text -> wordWrap text W = []).
Proof.
  split.
  - rewrite wordWrap_fold. cbv zeta.
    pose proof (wrap_nonempty W (splitWs text) ([], []) (Forall_nil _)) as Hl.
    destruct (truthy _) eqn:Ht; [|exact Hl].
    apply Forall_app. split; [exact Hl|]. constructor; [|constructor].
    now apply truthy_nonempty.
  - intros HW Hsp.
    assert (Hsplit : forall s b, Forall (fun c => Chars.isSpace c = true) s ->
              splitWsGo [] b s = if b then [[]] else
                                   match s with [] => [[]] | _ => [[]; []] end).
    { induction s as [|c t IHs]; intros b Hs; [destruct b; reflexivity|].
      inversion Hs as [|? ? Hc Ht]; subst. cbn [splitWsGo]. rewrite Hc.
      destruct b; rewrite (IHs true Ht); reflexivity. }
    assert (Hstep : wrapStep W ([], []) [] = ([], [])).
    { unfold wrapStep. cbn [truthy]. change (visibleLength []) with 0.
      destruct (Z.gtb_spec 0 W); [lia|reflexivity]. }
    unfold wordWrap, splitWs. rewrite (Hsplit text false Hsp).
    destruct text; cbn [fold_left]; rewrite !Hstep; reflexivity.
Qed.

(** The loop of [wordWrap] over non-empty words that fit: the lines so far,
    joined with single blanks, are the words so far joined with single
    blanks. *)
Lemma wrap_words W : forall words,
  Forall (fun w => w <> [] /\ visibleLength w <= W) words ->
  let st := fold_left (wrapStep W) words ([], []) in
  match words with
  | [] => st = ([], [])
  | _ => truthy (snd st) = true
         /\ join (js " ") (fst st ++ [snd st]) = join (js " ") words
  end.
Proof.
  induction words as [|w ws IH] using rev_ind; intros Hw; [reflexivity|].
  apply Forall_app in Hw as [Hws Hw1].
  inversion Hw1 as [|? ? [Hne Hfit] _]; subst.
  specialize (IH Hws). cbv zeta in *. rewrite fold_left_app. cbn [fold_left].
  assert (Hgoal : forall st,
    match ws with
    | [] => st = ([], [])
    | _ => truthy (snd st) = true
           /\ join (js " ") (fst st ++ [snd st]) = join (js " ") ws
    end ->
    truthy (snd (wrapStep W st w)) = true
    /\ join (js " ") (fst (wrapStep W st w) ++ [snd (wrapStep W st w)])
       = join (js " ") (ws ++ [w])).
  { intros [lines cur] IH'. destruct ws as [|w0 ws'].
    - injection IH' as -> ->. unfold wrapStep. cbn [truthy].
      destruct (Z.gtb_spec (visibleLength w) W); [lia|]. cbn [fst snd app].
      split; [now apply truthy_nonempty|reflexivity].
    - destruct IH' as [Ht IHj]. cbn [fst snd] in Ht, IHj.
      unfold wrapStep. rewrite Ht.
      destruct (Z.gtb_spec (visibleLength (cur ++ js " " ++ w)) W); cbn [fst snd].
      + split; [now apply truthy_nonempty|].
        rewrite join_snoc by (intros E; apply app_eq_nil in E as [_ E]; discriminate).
        rewrite (join_snoc _ (w0 :: ws')) by discriminate. f_equal. exact IHj.
      + split; [destruct cur; [discriminate|reflexivity]|].
        rewrite (join_snoc _ (w0 :: ws')) by discriminate.
        transitivity (join (js " ") (lines ++ [cur]) ++ js " " ++ w);
          [|f_equal; exact IHj].
        destruct lines as [|l0 ls]; [reflexivity|].
        rewrite !join_snoc by discriminate. now rewrite <- !app_assoc. }
  specialize (Hgoal _ IH).
  destruct (ws ++ [w]) eqn:E; [apply app_eq_nil in E as [_ E]; discriminate|].
  exact Hgoal.
Qed.

(** X12. When every whitespace-delimited word of the text is non-empty
    (the text neither starts nor ends with white space) and fits the width,
    wrapping loses and reorders nothing: the lines joined with single blanks
    are the words joined with single blanks. *)
Theorem wordWrap_keeps_words (text : jsstring) (W : Z) :
  Forall (fun w => w <> [] /\ visibleLength w <= W) (splitWs text) ->
  join (js " ") (wordWrap text W) = join (js " ") (splitWs text).
Proof.
  intros Hw. rewrite wordWrap_fold. cbv zeta.
  pose proof (wrap_words W (splitWs text) Hw) as H. cbv zeta in H.
  destruct (splitWs text) as [|w ws] eqn:E.
  - rewrite H. reflexivity.
  - destruct H as [Ht Hj]. rewrite Ht. exact Hj.
Qed.

Lemma wordWrap_keeps_words_sample :
  Forall (fun w => w <> [] /\ visibleLength w <= 5) (splitWs (js "ab  cd ef"))
  /\ join (js " ") (wordWrap (js "ab  cd ef") 5) = js "ab cd ef".
Proof.
  assert (H : Forall (fun w => w <> [] /\ visibleLength w <= 5) (splitWs (js "ab  cd ef"))).
  { change (splitWs (js "ab  cd ef")) with [js "ab"; js "cd"; js "ef"].
    repeat (constructor; [split; [discriminate|vm_compute; discriminate]|]). constructor. }
  split; [exact H|].
  rewrite (wordWrap_keeps_words (js "ab  cd ef") 5 H). reflexivity.
Defined.

(** ** Expanding and collapsing a file *)

Lemma named_return key n :
  name key = Some (js "return") -> named key n = bool_decide (js "return" = js n).
Proof. intros H. unfold named. now rewrite H. Qed.

Lemma set_selectedCommentIndex_same st v :
  selectedCommentIndex st = v -> set_selectedCommentIndex v st = st.
Proof. intros <-. destruct st; reflexivity. Qed.

Lemma set_expanded_twice file :
  set_expanded (negb (expanded (set_expanded (negb (expanded file)) file)))
    (set_expanded (negb (expanded file)) file) = file.
Proof. destruct file as [p cs e]. unfold set_expanded. simpl. now rewrite negb_involutive. Qed.

(** Toggling twice gives the state back. *)
Lemma toggleExpanded_twice st :
  selectedCommentIndex st = -1 -> toggleExpanded (toggleExpanded st) = st.
Proof.
  intros Hc. unfold toggleExpanded at 2.
  destruct (at_index (files st) (selectedFileIndex st)) as [file|] eqn:Hf.
  - pose proof Hf as Hf'. apply at_index_lookup in Hf' as [Hi Hl].
    set (file' := set_expanded (negb (expanded file)) file).
    set (st1 := set_files (<[Z.to_nat (selectedFileIndex st) := file']> (files st)) st).
    assert (Hst1 : (if negb (expanded file') then set_selectedCommentIndex (-1) st1
                    else st1) = st1).
    { destruct (negb (expanded file')); [|reflexivity].
      apply set_selectedCommentIndex_same. exact Hc. }
    rewrite Hst1. unfold toggleExpanded.
    assert (Hf1 : at_index (files st1) (selectedFileIndex st1) = Some file').
    { apply at_index_lookup. split; [exact Hi|].
      apply list_lookup_insert_eq. eapply lookup_lt_Some, Hl. }
    rewrite Hf1. unfold file'. rewrite set_expanded_twice. fold file'.
    assert (E : set_files (<[Z.to_nat (selectedFileIndex st1) := file]> (files st1)) st1
                = st).
    { unfold st1. cbn [files set_files selectedFileIndex].
      rewrite list_insert_insert_eq, list_insert_id by exact Hl.
      destruct st; reflexivity. }
    rewrite E. destruct (negb (expanded file)); [|reflexivity].
    apply set_selectedCommentIndex_same. exact Hc.
  - unfold toggleExpanded. now rewrite Hf.
Qed.

(** X13. [Enter] on a file header, in list mode or with the left panel
    focused, flips the [expanded] flag of that file and changes nothing
    else; pressing it again gives back the very state it started from. *)
Theorem enter_toggles_file (st : ReviewState) (key : Key) (file : FileGroup) :
  name key = Some (js "return") ->
  mode st = list_mode \/ focusedPanel st = left_panel ->
  selectedCommentIndex st = -1 ->
  at_index (files st) (selectedFileIndex st) = Some file ->
  exists st',
    handleKeypress st (Some key) = Some (st', render_action)
    /\ st' = set_files (<[Z.to_nat (selectedFileIndex st) :=
                            set_expanded (negb (expanded file)) file]> (files st)) st
    /\ handleKeypress st' (Some key) = Some (st, render_action).
Proof.
  intros Hname Hfocus Hc Hf.
  assert (Hkey : forall s, (mode s = list_mode \/ focusedPanel s = left_panel) ->
                           selectedCommentIndex s = -1 ->
                           handleKeypress s (Some key) = Some (toggleExpanded s, render_action)).
  { intros s Hfo Hs.
    assert (Hn : forall (n : string) b, bool_decide (js "return" = js n) = b -> named key n = b).
    { intros n b <-. now apply named_return. }
    unfold handleKeypress, isUpKey, isDownKey.
    rewrite (Hn "q"%string false eq_refl), (Hn "c"%string false eq_refl), (Hn "tab"%string false eq_refl),
      (Hn "up"%string false eq_refl), (Hn "k"%string false eq_refl), (Hn "down"%string false eq_refl),
      (Hn "j"%string false eq_refl), (Hn "right"%string false eq_refl), (Hn "return"%string true eq_refl),
      (Hn "left"%string false eq_refl), (Hn "escape"%string false eq_refl), Hs.
    unfold isDetail, isLeft.
    destruct Hfo as [->| ->]; [now rewrite !andb_false_r|].
    destruct (mode s); rewrite ?andb_false_r; reflexivity. }
  assert (Htoggle : toggleExpanded st
                    = set_files (<[Z.to_nat (selectedFileIndex st) :=
                                     set_expanded (negb (expanded file)) file]> (files st)) st).
  { unfold toggleExpanded. rewrite Hf.
    destruct (negb (expanded (set_expanded (negb (expanded file)) file)));
      [|reflexivity].
    apply set_selectedCommentIndex_same. exact Hc. }
  exists (toggleExpanded st). split; [now apply Hkey|]. split; [exact Htoggle|].
  rewrite Hkey.
  - now rewrite toggleExpanded_twice.
  - rewrite Htoggle. exact Hfocus.
  - rewrite Htoggle. exact Hc.
Qed.

Lemma enter_toggles_file_sample :
  exists st',
    handleKeypress sampleState
      (Some {| name := Some (js "return"); ctrl := false; mouse := None |})
    = Some (st', render_action)
    /\ expanded <$> files st' !! 0%nat = Some false.
Proof.
  destruct (enter_toggles_file sampleState
              {| name := Some (js "return"); ctrl := false; mouse := None |}
              {| filePath := js "src/a.ts"; comments := [leak; race]; expanded := true |}
              eq_refl (or_introl eq_refl) eq_refl eq_refl)
    as (st' & Hk & -> & _).
  eexists. split; [exact Hk|]. reflexivity.
Defined.

(** ** The file list and the navigation agree *)

Section FileList.
Context (pc : Style -> jsstring -> jsstring).

(** X14. The file list has exactly one line for every navigable item:
    [totalLines] of [renderFileList] is [getTotalNavigableItems], plus the
    four header lines when the list is not scrolled. *)
Theorem fileList_one_line_per_item (st : ReviewState) (width maxHeight scrollOffset : Z)
    (r : list jsstring * Z) :
  renderFileList pc st width maxHeight scrollOffset = Some r ->
  Z.of_nat (length (fileListItems pc st width)) = getTotalNavigableItems st
  /\ snd r = (if scrollOffset =? 0 then 4 else 0) + getTotalNavigableItems st.
Proof.
  intros Hr.
  assert (E : Z.of_nat (length (navItems (files st))) = getTotalNavigableItems st).
  { unfold getTotalNavigableItems, navItems.
    pose proof (count_items (files st) 0 0) as Hcount. cbv zeta in Hcount.
    cbv zeta. rewrite Hcount. lia. }
  split.
  - rewrite fileListItems_length. exact E.
  - rewrite (renderFileList_total pc st _ _ _ _ Hr). now rewrite E.
Qed.

End FileList.

Lemma fileList_one_line_per_item_sample :
  exists r, renderFileList ansiPc sampleState 40 18 0 = Some r /\ snd r = 8.
Proof.
  destruct (renderFileList ansiPc sampleState 40 18 0) as [r|] eqn:E;
    [|vm_compute in E; discriminate].
  exists r. split; [reflexivity|].
  rewrite (proj2 (fileList_one_line_per_item ansiPc sampleState 40 18 0 r E)).
  reflexivity.
Defined.

(** ** Grouping comments by file ([ui.ts]) *)

Lemma mapPush_spec m c :
  (exists m1 old m2,
      m = m1 ++ (Api.file_path c, old) :: m2
      /\ (Api.file_path c ∉ (fst <$> m1))
      /\ Ui.mapPush m c = m1 ++ (Api.file_path c, old ++ [c]) :: m2)
  \/ ((Api.file_path c ∉ (fst <$> m)) /\ Ui.mapPush m c = m ++ [(Api.file_path c, [c])]).
Proof.
  induction m as [|[p cs] m IH].
  - right. split; [apply not_elem_of_nil|reflexivity].
  - cbn [Ui.mapPush]. destruct (decide (p = Api.file_path c)) as [->|Hne].
    + left. exists [], cs, m. split; [reflexivity|].
      split; [apply not_elem_of_nil|reflexivity].
    + destruct IH as [(m1 & old & m2 & -> & Hm1 & ->)|[Hm ->]].
      * left. exists ((p, cs) :: m1), old, m2. split; [reflexivity|].
        split; [|reflexivity]. cbn [fmap list_fmap fst].
        intros Hin. apply elem_of_cons in Hin as [E|Hin]; [congruence|contradiction].
      * right. split; [|reflexivity]. cbn [fmap list_fmap fst].
        intros Hin. apply elem_of_cons in Hin as [E|Hin]; [congruence|contradiction].
Qed.

Lemma filter_path_snoc (p : jsstring) done c :
  filter (fun x => Api.file_path x = p) (done ++ [c])
  = filter (fun x => Api.file_path x = p) done
    ++ (if decide (Api.file_path c = p) then [c] else []).
Proof.
  rewrite list.filter_app. reflexivity.
Qed.

Lemma filter_path_none (p : jsstring) done :
  (forall x, x ∈ done -> Api.file_path x <> p) ->
  filter (fun x => Api.file_path x = p) done = [].
Proof.
  induction done as [|x done IH]; intros H; [reflexivity|].
  rewrite filter_cons. destruct (decide (Api.file_path x = p)) as [E|_].
  - exfalso. apply (H x); [left|exact E].
  - apply IH. intros y Hy. apply H. now right.
Qed.

(** The entries of other paths are not touched by a new comment. *)
Lemma grouped_entries_keep (m : list (jsstring * list Api.ReviewComment)) done c :
  Api.file_path c ∉ (fst <$> m) ->
  Forall (fun e => snd e = filter (fun x => Api.file_path x = fst e) done
                   /\ snd e <> []) m ->
  Forall (fun e => snd e = filter (fun x => Api.file_path x = fst e) (done ++ [c])
                   /\ snd e <> []) m.
Proof.
  intros Hc Hall. induction Hall as [|[p cs] m [E Hne] _ IH]; [constructor|].
  rewrite fmap_cons in Hc. apply not_elem_of_cons in Hc as [Hp Hm].
  constructor; [|now apply IH]. cbn [fst snd] in *.
  split; [|exact Hne]. rewrite filter_path_snoc, <- E.
  rewrite decide_False by exact Hp. now rewrite app_nil_r.
Qed.

Lemma grouped_step m done c : grouped m done -> grouped (Ui.mapPush m c) (done ++ [c]).
Proof.
  intros (Hnd & Hall & Hin).
  destruct (mapPush_spec m c) as [(m1 & old & m2 & -> & Hm1 & ->)|[Hm ->]].
  - unfold grouped. rewrite !fmap_app, !fmap_cons in Hnd |- *. cbn [fst] in *.
    split; [exact Hnd|].
    apply list.NoDup_app in Hnd as (_ & Hdisj & Hnd2).
    apply list.NoDup_cons in Hnd2 as [Hm2 _].
    apply Forall_app in Hall as [Hall1 Hall2].
    inversion Hall2 as [|? ? [Hold _] Hall2']; subst. clear Hall2.
    cbn [fst snd] in Hold.
    split.
    + apply Forall_app. split; [now apply grouped_entries_keep|].
      constructor; [|now apply grouped_entries_keep].
      cbn [fst snd]. rewrite filter_path_snoc, <- Hold.
      rewrite decide_True by reflexivity. split; [reflexivity|].
      intros E. apply app_eq_nil in E as [_ E]. discriminate.
    + intros x Hx. apply elem_of_app in Hx as [Hx|Hx].
      * specialize (Hin x Hx). now rewrite fmap_app, fmap_cons in Hin.
      * apply list_elem_of_singleton in Hx as ->.
        apply elem_of_app. right. left.
  - unfold grouped. split; [|split].
    + rewrite fmap_app. apply list.NoDup_app. split; [exact Hnd|]. split.
      * intros p Hp Hp'. cbn in Hp'. apply list_elem_of_singleton in Hp'. congruence.
      * apply NoDup_singleton.
    + apply Forall_app. split; [now apply grouped_entries_keep|].
      constructor; [|constructor].
      cbn [fst snd]. rewrite filter_path_snoc, decide_True by reflexivity.
      rewrite filter_path_none; [split; [reflexivity|discriminate]|].
      intros x Hx E. apply Hm. rewrite <- E. now apply Hin.
    + intros x Hx. rewrite fmap_app. apply elem_of_app.
      apply elem_of_app in Hx as [Hx|Hx]; [left; now apply Hin|right].
      apply list_elem_of_singleton in Hx as ->. left.
Qed.

Lemma grouped_fold cs : forall m done,
  grouped m done -> grouped (fold_left Ui.mapPush cs m) (done ++ cs).
Proof.
  induction cs as [|c cs IH]; intros m done H; [now rewrite app_nil_r|].
  cbn [fold_left]. replace (done ++ c :: cs) with ((done ++ [c]) ++ cs)
    by now rewrite <- app_assoc.
  apply IH, grouped_step, H.
Qed.

Lemma grouped_all cs : grouped (fold_left Ui.mapPush cs []) cs.
Proof.
  apply (grouped_fold cs [] []). split; [constructor|]. split; [constructor|].
  intros c Hc. apply elem_of_nil in Hc. destruct Hc.
Qed.

Lemma mapPush_count m c :
  length (concat ((comments ∘ Ui.entryGroup) <$> Ui.mapPush m c))
  = S (length (concat ((comments ∘ Ui.entryGroup) <$> m))).
Proof.
  induction m as [|[p cs] m IH]; [reflexivity|].
  cbn [Ui.mapPush]. destruct (decide (p = Api.file_path c)).
  - cbn. rewrite !length_app. simpl. lia.
  - cbn [fmap list_fmap concat]. rewrite !length_app, IH. lia.
Qed.

Lemma mapPush_fold_count cs : forall m,
  length (concat ((comments ∘ Ui.entryGroup) <$> fold_left Ui.mapPush cs m))
  = (length (concat ((comments ∘ Ui.entryGroup) <$> m)) + length cs)%nat.
Proof.
  induction cs as [|c cs IH]; intros m; [simpl; lia|].
  cbn [fold_left]. rewrite IH, mapPush_count. simpl. lia.
Qed.

(** X15. [groupCommentsByFile] returns one group per path, every group
    expanded and holding exactly the comments of its path in the order
    they came in (duplicates included), and every comment is in the group
    of its path; [createReviewState] counts all of them. *)
Theorem groupCommentsByFile_groups (cs : list Api.ReviewComment) :
  let groups := Ui.groupCommentsByFile cs in
  keyedByPath groups
  /\ Forall (fun g => expanded g = true /\ comments g <> []
                      /\ comments g = filter (fun c => Api.file_path c = filePath g) cs)
            groups
  /\ (forall c, In c cs -> exists g, In g groups /\ filePath g = Api.file_path c)
  /\ Ui.files (Ui.createReviewState cs) = groups
  /\ Ui.totalComments (Ui.createReviewState cs)
     = Z.of_nat (length (storedComments groups)).
Proof.
  cbv zeta. destruct (grouped_all cs) as (Hnd & Hall & Hin).
  unfold Ui.groupCommentsByFile.
  set (m := fold_left Ui.mapPush cs []) in *.
  assert (Hpaths : filePath <$> (Ui.entryGroup <$> m) = fst <$> m).
  { rewrite <- list_fmap_compose. reflexivity. }
  split; [unfold keyedByPath; now rewrite Hpaths|]. split; [|split; [|split]].
  - apply Forall_fmap. eapply Forall_impl; [|exact Hall].
    intros [p cs'] [E Hne]. cbn in *. auto.
  - intros c Hc. apply list_elem_of_In, Hin, list_elem_of_fmap in Hc as ([p cs'] & E & He).
    exists (Ui.entryGroup (p, cs')). split; [|now rewrite E].
    apply list_elem_of_In, list_elem_of_fmap. eauto.
  - reflexivity.
  - cbn [Ui.totalComments Ui.createReviewState]. f_equal.
    unfold storedComments. rewrite <- list_fmap_compose.
    pose proof (mapPush_fold_count cs []) as Hcount. simpl in Hcount.
    symmetry. exact Hcount.
Qed.

Lemma sameKey_fullKey c x :
  Api.file_path x = Api.file_path c -> sameKey c x = true -> fullKey x = fullKey c.
Proof.
  intros Hp Hk. rewrite sameKey_commentKey in Hk. apply bool_decide_eq_true_1 in Hk.
  unfold fullKey. now rewrite Hp, Hk.
Qed.

(** One merge and one round of the grouping do the same to the file
    groups, for a comment that is no duplicate of an earlier one. *)
Lemma merge_group_step st m done c :
  files st = Ui.entryGroup <$> m -> grouped m done ->
  fullKey c ∉ (fullKey <$> done) ->
  files (addComment st c) = Ui.entryGroup <$> Ui.mapPush m c
  /\ totalComments (addComment st c) = totalComments st + 1.
Proof.
  intros Hfiles (Hnd & Hall & Hin) Hnew.
  assert (Hkeyed : keyedByPath (files st)).
  { unfold keyedByPath. rewrite Hfiles, <- list_fmap_compose. exact Hnd. }
  destruct (mapPush_spec m c) as [(m1 & old & m2 & -> & Hm1 & ->)|[Hm ->]].
  - assert (Hlook : files st !! length m1 = Some (Ui.entryGroup (Api.file_path c, old))).
    { rewrite Hfiles, list_lookup_fmap, list_lookup_middle by reflexivity. reflexivity. }
    assert (Hex : existsb (sameKey c) old = false).
    { destruct (existsb (sameKey c) old) eqn:E; [|reflexivity]. exfalso.
      apply existsb_exists in E as (x & Hx & Hk).
      apply Forall_app in Hall as [_ Hall2].
      inversion Hall2 as [|? ? [Hold _] _]; subst. cbn [fst snd] in Hold.
      rewrite Hold in Hx. apply list_elem_of_In, list_elem_of_filter in Hx as [Hp Hd].
      apply Hnew. apply list_elem_of_fmap. exists x. split; [|exact Hd].
      symmetry. now apply sameKey_fullKey. }
    rewrite (addComment_found st c _ _ (keyed_find _ c _ _ Hkeyed Hlook eq_refl)).
    cbn [comments Ui.entryGroup snd]. rewrite Hex.
    cbn [files set_files set_totalComments totalComments]. split; [|reflexivity].
    rewrite Hfiles, !fmap_app, !fmap_cons.
    rewrite insert_app_r_alt by (rewrite length_fmap; lia).
    rewrite length_fmap, Nat.sub_diag. reflexivity.
  - assert (Hfind : list_find (fun f => filePath f = Api.file_path c) (files st) = None).
    { apply list_find_None. rewrite Hfiles. apply Forall_fmap, Forall_forall.
      intros [p cs'] Hp E. cbn in E. apply Hm. rewrite <- E.
      apply list_elem_of_fmap. exists (p, cs'). split; [reflexivity|].
      first [assumption | now apply list_elem_of_In]. }
    rewrite (addComment_absent st c Hfind).
    cbn [files set_files set_totalComments totalComments]. split; [|reflexivity].
    now rewrite Hfiles, fmap_app.
Qed.

Lemma merge_group_fold cs : forall st m done,
  files st = Ui.entryGroup <$> m -> grouped m done ->
  NoDup (fullKey <$> (done ++ cs)) ->
  files (addComments st cs) = Ui.entryGroup <$> fold_left Ui.mapPush cs m
  /\ totalComments (addComments st cs) = totalComments st + Z.of_nat (length cs).
Proof.
  induction cs as [|c cs IH]; intros st m done Hf Hg Hnd.
  - split; [exact Hf|simpl; lia].
  - assert (Hnew : fullKey c ∉ (fullKey <$> done)).
    { rewrite fmap_app, fmap_cons in Hnd.
      apply list.NoDup_app in Hnd as (_ & Hdisj & _).
      intros Hc. apply (Hdisj _ Hc). left. }
    destruct (merge_group_step st m done c Hf Hg Hnew) as [Hf' Ht'].
    replace (done ++ c :: cs) with ((done ++ [c]) ++ cs) in Hnd
      by now rewrite <- app_assoc.
    destruct (IH (addComment st c) (Ui.mapPush m c) (done ++ [c]) Hf'
                (grouped_step m done c Hg) Hnd) as [E1 E2].
    unfold addComments in *. cbn [fold_left]. split; [exact E1|].
    rewrite E2, Ht'. cbn [length]. lia.
Qed.

(** X16. When no two of the comments have the same path, line start and
    title, merging them into the empty state with [addComments] builds the
    very file groups [groupCommentsByFile] builds from them, and counts as
    many comments as [createReviewState] does. *)
Theorem merge_builds_the_groups (dataId : jsstring) (cs : list Api.ReviewComment) :
  NoDup (fullKey <$> cs) ->
  files (addComments (initialState dataId) cs) = Ui.groupCommentsByFile cs
  /\ totalComments (addComments (initialState dataId) cs)
     = Ui.totalComments (Ui.createReviewState cs).
Proof.
  intros Hnd.
  destruct (merge_group_fold cs (initialState dataId) [] [] eq_refl) as [E1 E2].
  - split; [constructor|]. split; [constructor|].
    intros c Hc. apply elem_of_nil in Hc. destruct Hc.
  - exact Hnd.
  - split; [exact E1|]. rewrite E2. reflexivity.
Qed.

Lemma merge_builds_the_groups_sample :
  NoDup (fullKey <$> [leak; typo; race])
  /\ files (addComments (initialState (js "id")) [leak; typo; race])
     = Ui.groupCommentsByFile [leak; typo; race].
Proof.
  assert (H : NoDup (fullKey <$> [leak; typo; race])).
  { apply NoDup_ListNoDup. repeat constructor; vm_compute; intuition discriminate. }
  split; [exact H|].
  exact (proj1 (merge_builds_the_groups (js "id") [leak; typo; race] H)).
Defined.

(** ** What the parser always returns *)

(** A greedy repetition that succeeds has consumed a run of the class, at
    least [min] long, and the continuation succeeds on the rest. *)
Lemma repGreedy_inv p s : forall min k r,
  repGreedy p min s k = Some r ->
  exists xs rest, s = xs ++ rest /\ forallb p xs = true /\ (min <= length xs)%nat
                  /\ k rest = Some r.
Proof.
  induction s as [|c t IH]; intros min k r H.
  - simpl in H. destruct min; [|discriminate]. exists [], []. auto.
  - cbn [repGreedy] in H. destruct (p c) eqn:Hc.
    + destruct (repGreedy p (Nat.pred min) t k) as [r'|] eqn:E.
      * simpl in H. injection H as <-.
        destruct (IH _ _ _ E) as (xs & rest & -> & Hxs & Hmin & Hk).
        exists (c :: xs), rest. simpl. rewrite Hc, Hxs. repeat split; auto. lia.
      * simpl in H. destruct min; [|discriminate].
        exists [], (c :: t). auto.
    + destruct min; [|discriminate]. exists [], (c :: t). auto.
Qed.

(** A literal passes the capture on to the continuation. *)
Lemma rmatch_literal_inv ci lit : forall s cap k r,
  rmatch ci (RStrN lit) s cap k = Some r -> exists s', k s' cap = Some r.
Proof.
  induction lit as [|c lit IH]; intros s cap k r H.
  - exists s. exact H.
  - cbn [RStrN rmatch] in H. destruct s as [|d s]; [discriminate|].
    destruct (Chars.charMatches ci c d); [|discriminate]. eapply IH, H.
Qed.

(** A match of a marker pattern captures a non-empty run of its class. *)
Lemma exec_marker_inv ci (marker : string) (p : N -> bool) s rest cap :
  exec ci (RCat [RStr marker; ws; RGroup (RRep true 1 p)]) s = Some (rest, cap) ->
  exists value, cap = Some value /\ forallb p value = true /\ value <> [].
Proof.
  unfold exec, RStr. cbn [RCat]. cbn [rmatch]. intros H.
  apply rmatch_literal_inv in H as (s1 & H). unfold ws in H. cbn [rmatch] in H.
  apply repGreedy_inv in H as (_ & s2 & _ & _ & _ & H).
  apply repGreedy_inv in H as (value & s3 & -> & Hv & Hlen & H).
  injection H as <- <-. exists value.
  rewrite length_app, Nat.add_sub, take_app_length. repeat split; [exact Hv|].
  intros ->. simpl in Hlen. lia.
Qed.

Lemma searchFrom_exec ci r s : forall pre f,
  searchFrom ci r pre s = Some f -> exists s', exec ci r s' = Some (after f, group1 f).
Proof.
  induction s as [|c t IH]; intros pre f H; cbn [searchFrom] in H.
  - destruct (exec ci r []) as [[rest cap]|] eqn:E; [|discriminate].
    injection H as <-. exists []. exact E.
  - destruct (exec ci r (c :: t)) as [[rest cap]|] eqn:E.
    + injection H as <-. exists (c :: t). exact E.
    + eapply IH, H.
Qed.

Lemma capture_marker ci (marker : string) (p : N -> bool) content :
  forallb p (capture1 (search ci (RCat [RStr marker; ws; RGroup (RRep true 1 p)]) content))
  = true.
Proof.
  unfold capture1, search. destruct (searchFrom _ _ _ _) as [f|] eqn:E; [|reflexivity].
  apply searchFrom_exec in E as (s' & E).
  apply exec_marker_inv in E as (value & -> & Hv & _). exact Hv.
Qed.

Lemma parseInt_digits s :
  forallb Chars.isDigit s = true -> 0 <= parseInt s.
Proof.
  unfold parseInt.
  assert (H : forall acc, 0 <= acc -> forallb Chars.isDigit s = true ->
              0 <= fold_left (fun acc c => 10 * acc + (Z.of_N c - 48)) s acc).
  { induction s as [|c t IH]; intros acc Hacc Hd; [exact Hacc|].
    simpl in Hd. apply andb_true_iff in Hd as [Hc Ht]. cbn [fold_left].
    apply IH; [|exact Ht].
    unfold Chars.isDigit, Chars.inRange in Hc. apply andb_true_iff in Hc as [Hlo _].
    apply N.leb_le in Hlo. lia. }
  apply H. lia.
Qed.

Lemma trimmed_nil : trimmed [].
Proof. intros c [H|H]; discriminate. Qed.

Lemma head_rev_last {A} (l : list A) : head (rev l) = list.last l.
Proof.
  induction l as [|x l _] using rev_ind; [reflexivity|].
  rewrite rev_app_distr, last_snoc. reflexivity.
Qed.

Lemma trimmed_trim s : trimmed (trim s).
Proof.
  intros c [H|H].
  - destruct (trim s) as [|d r] eqn:E; [discriminate|]. injection H as ->.
    eapply trim_head, E.
  - unfold trim, trimEnd in H. rewrite <- head_rev_last, rev_involutive in H.
    destruct (trimStart (rev (trimStart s))) as [|d r] eqn:E; [discriminate|].
    injection H as ->. eapply trimStart_head, E.
Qed.

(** X17. Whatever the content, [parseCommentMetadata] returns a title and
    a severity that are not empty, a severity made of word characters, line
    numbers that are not negative, and a description, a code block and a
    prompt without white space at either end. *)
Theorem parse_output_wellformed (content : jsstring) :
  let parsed := parseCommentMetadata content in
  title parsed <> []
  /\ severity parsed <> []
  /\ forallb Chars.isWord (severity parsed) = true
  /\ 0 <= lineStart parsed
  /\ 0 <= lineEnd parsed
  /\ trimmed (description parsed)
  /\ trimmed (codeBlock parsed)
  /\ trimmed (aiPrompt parsed).
Proof.
  cbv zeta. unfold parseCommentMetadata.
  cbn [title severity lineStart lineEnd description codeBlock aiPrompt].
  assert (Hor : forall (p : N -> bool) g d,
             forallb p g = true -> forallb p d = true -> forallb p (orElse g d) = true).
  { intros p g d Hg Hd. unfold orElse. now destruct (truthy g). }
  repeat apply conj.
  - unfold parseTitle. cbv zeta.
    match goal with
    | |- (if negb (truthy ?t) then _ else _) <> [] =>
        destruct (truthy t) eqn:E; [now apply truthy_nonempty|discriminate]
    end.
  - unfold orElse. destruct (truthy _) eqn:E; [now apply truthy_nonempty|discriminate].
  - apply Hor; [apply capture_marker|reflexivity].
  - apply parseInt_digits, Hor; [apply capture_marker|reflexivity].
  - apply parseInt_digits, Hor; [apply capture_marker|reflexivity].
  - apply trimmed_trim.
  - unfold parseCodeBlock. destruct (search _ _ _); [apply trimmed_trim|apply trimmed_nil].
  - unfold parseAiPrompt.
    destruct (search true rePromptForAI content);
      [destruct (search false reInnerCodeBlock _)|destruct (search true reOldPrompt content)];
      first [apply trimmed_trim | apply trimmed_nil].
Qed.

(** ** A merge only appends *)

(** X18. [addComments] never removes, moves or reorders anything: every
    file group keeps its index, its path and its [expanded] flag, its
    comments can only grow at the end, and the cursor, the mode and the
    scroll offsets are left alone. *)
Theorem addComments_only_appends (cs : list Api.ReviewComment) (st : ReviewState) :
  (forall i g, files st !! i = Some g ->
     exists g', files (addComments st cs) !! i = Some g'
                /\ filePath g' = filePath g /\ expanded g' = expanded g
                /\ exists extra, comments g' = comments g ++ extra)
  /\ cursor (addComments st cs) = cursor st
  /\ mode (addComments st cs) = mode st
  /\ focusedPanel (addComments st cs) = focusedPanel st
  /\ detailScrollOffset (addComments st cs) = detailScrollOffset st
  /\ leftPanelScrollOffset (addComments st cs) = leftPanelScrollOffset st.
Proof.
  revert st. induction cs as [|c cs IH]; intros st.
  - split; [|repeat split]. intros i g Hg. exists g. repeat split; [exact Hg|].
    exists []. now rewrite app_nil_r.
  - change (addComments st (c :: cs)) with (addComments (addComment st c) cs).
    destruct (IH (addComment st c)) as (Hfiles & Hcur & Hmode & Hfocus & Hd & Hl).
    split; [|rewrite Hcur, Hmode, Hfocus, Hd, Hl, addComment_cursor;
             unfold addComment;
             destruct (list_find _ (files st)) as [[k h]|];
             [destruct (existsb _ _)|]; repeat split].
    intros i g Hg.
    destruct (addComment_extends st c i g Hg) as (g1 & Hg1 & Hp1 & He1 & x1 & Hc1).
    destruct (Hfiles i g1 Hg1) as (g2 & Hg2 & Hp2 & He2 & x2 & Hc2).
    exists g2. split; [exact Hg2|]. split; [congruence|]. split; [congruence|].
    exists (x1 ++ x2). rewrite Hc2, Hc1. now rewrite app_assoc.
Qed.

(** ** Copying a prompt in the older format *)

(** X19. For a comment without a "Prompt for AI" section the copy branch
    and the parser agree: when the older inline marker is found, what [c]
    sends to the clipboard is the [aiPrompt] the parser returns and the
    detail panel shows, and when it is not found nothing is copied and the
    parsed prompt is empty. *)
Theorem copy_agrees_with_parser_on_inline_marker
    (st : ReviewState) (file : FileGroup) (c : Api.ReviewComment) :
  at_index (files st) (selectedFileIndex st) = Some file ->
  at_index (comments file) (selectedCommentIndex st) = Some c ->
  search true rePromptForAI (Api.content c) = None ->
  copyPayload st
  = Some (match search true reOldPrompt (Api.content c) with
          | Some _ => Some (aiPrompt (parseCommentMetadata (Api.content c)))
          | None => None
          end)
  /\ (search true reOldPrompt (Api.content c) = None ->
      aiPrompt (parseCommentMetadata (Api.content c)) = []).
Proof.
  intros Hf Hc Hnew. unfold copyPayload. rewrite Hf.
  assert (Hge : (selectedCommentIndex st >=? 0) = true).
  { apply at_index_lookup in Hc as [H _]. apply Z.geb_le. exact H. }
  rewrite Hge, Hc. unfold parseCommentMetadata. cbn [aiPrompt].
  unfold parseAiPrompt. rewrite Hnew.
  destruct (search true reOldPrompt (Api.content c)); split; try reflexivity.
  discriminate.
Qed.

Lemma copy_agrees_with_parser_sample :
  copyPayload inlinePromptState
  = Some (Some (js ("Add a null check" ++ nl ++ "before the call."))).
Proof.
  assert (Hf : at_index (files inlinePromptState) (selectedFileIndex inlinePromptState)
               = Some {| filePath := js "src/a.ts"; comments := [inlinePromptComment];
                         expanded := true |}) by reflexivity.
  assert (Hc : at_index [inlinePromptComment] (selectedCommentIndex inlinePromptState)
               = Some inlinePromptComment) by reflexivity.
  assert (Hn : search true rePromptForAI (Api.content inlinePromptComment) = None)
    by (vm_compute; reflexivity).
  rewrite (proj1 (copy_agrees_with_parser_on_inline_marker inlinePromptState _ _ Hf Hc Hn)).
  vm_compute. reflexivity.
Defined.

(** ** What a render stores *)

Section RenderStores.
Context (pc : Style -> jsstring -> jsstring) (leftWidthOf : Z -> Z)
        (detailContent : ParsedComment -> Z -> list jsstring).

(** X20. A render that completes stores nothing but the two scroll
    offsets, and never raises one of them; in list mode it stores nothing
    at all. *)
Theorem render_only_lowers_offsets (st st' : ReviewState) (t : Terminal) (frame : Frame) :
  render pc leftWidthOf detailContent st t = Some (st', frame) ->
  st' = set_detailScrollOffset (detailScrollOffset st')
          (set_leftPanelScrollOffset (leftPanelScrollOffset st') st)
  /\ leftPanelScrollOffset st' <= leftPanelScrollOffset st
  /\ detailScrollOffset st' <= detailScrollOffset st
  /\ (mode st = list_mode -> st' = st).
Proof.
  unfold render, isDetail. destruct (mode st) eqn:Hm.
  - destruct (renderListView pc st t); [|discriminate].
    intros H. injection H as <- _.
    repeat split; try lia. destruct st; reflexivity.
  - intros H. apply renderSplitView_inv in H as (totals & _ & -> & _).
    cbn [detailScrollOffset leftPanelScrollOffset set_detailScrollOffset
         set_leftPanelScrollOffset].
    repeat split; try lia. discriminate.
Qed.

End RenderStores.

Lemma render_only_lowers_offsets_sample :
  exists st' frame,
    render ansiPc floor35 sampleDetailContent scrolledState sampleTerminal
    = Some (st', frame)
    /\ leftPanelScrollOffset st' <= 50.
Proof.
  destruct (render ansiPc floor35 sampleDetailContent scrolledState sampleTerminal)
    as [[st' frame]|] eqn:E; [|vm_compute in E; discriminate].
  exists st', frame. split; [reflexivity|].
  exact (proj1 (proj2 (render_only_lowers_offsets ansiPc floor35 sampleDetailContent
                         scrolledState st' sampleTerminal frame E))).
Defined.

(** ** Into the detail view and back *)

Lemma named_of key (n m : string) :
  name key = Some (js n) -> named key m = bool_decide (js n = js m).
Proof. intros H. unfold named. now rewrite H. Qed.

Ltac key_names H :=
  unfold handleKeypress, isUpKey, isDownKey;
  rewrite (named_of _ _ "q" H), (named_of _ _ "c" H), (named_of _ _ "tab" H),
    (named_of _ _ "up" H), (named_of _ _ "k" H), (named_of _ _ "down" H),
    (named_of _ _ "j" H), (named_of _ _ "right" H), (named_of _ _ "return" H),
    (named_of _ _ "left" H), (named_of _ _ "escape" H);
  repeat match goal with
         | |- context [bool_decide (js ?a = js ?b)] =>
             let v := eval vm_compute in (bool_decide (js a = js b)) in
             change (bool_decide (js a = js b)) with v
         end.

(** X21. From the list with the cursor on a comment, [Right] (or [Enter])
    opens the detail view with the right panel focused and both panels
    unscrolled; there [Esc] (or [Left]) first moves the focus to the left
    panel and then closes the view.  After the three keys the state is the
    one before them, with the two scroll offsets at 0: the files, the cursor
    and the counters are untouched. *)
Theorem detail_view_round_trip (st : ReviewState) (kin kout : Key) :
  name kin = Some (js "right") \/ name kin = Some (js "return") ->
  name kout = Some (js "escape") \/ name kout = Some (js "left") ->
  mode st = list_mode -> focusedPanel st = left_panel ->
  0 <= selectedCommentIndex st ->
  let opened :=
    set_leftPanelScrollOffset 0
      (set_detailScrollOffset 0 (set_focusedPanel right_panel (set_mode detail_mode st))) in
  handleKeypress st (Some kin) = Some (opened, render_action)
  /\ handleKeypress opened (Some kout)
     = Some (set_focusedPanel left_panel opened, render_action)
  /\ handleKeypress (set_focusedPanel left_panel opened) (Some kout)
     = Some (set_leftPanelScrollOffset 0 (set_detailScrollOffset 0 st), render_action).
Proof.
  intros Hin Hout Hm Hf Hc opened.
  assert (Hge : (selectedCommentIndex st >=? 0) = true) by (apply Z.geb_le; exact Hc).
  split; [|split].
  - destruct Hin as [H|H]; key_names H; unfold isDetail, isLeft;
      rewrite Hm, Hf, Hge; cbn [negb andb orb];
      rewrite ?andb_false_r; reflexivity.
  - destruct Hout as [H|H]; key_names H; unfold isDetail, isLeft;
      cbn [mode focusedPanel opened set_leftPanelScrollOffset set_detailScrollOffset
           set_focusedPanel set_mode negb andb orb];
      rewrite ?andb_false_r; reflexivity.
  - destruct Hout as [H|H]; key_names H; unfold isDetail, isLeft;
      cbn [mode focusedPanel opened set_leftPanelScrollOffset set_detailScrollOffset
           set_focusedPanel set_mode negb andb orb];
      rewrite ?andb_false_r; cbn [negb andb orb];
      unfold opened; destruct st; cbn in *; subst; reflexivity.
Qed.

Lemma detail_view_round_trip_sample :
  handleKeypress (set_selectedCommentIndex 0 sampleState) (Some rightKey)
  = Some (set_leftPanelScrollOffset 0
            (set_detailScrollOffset 0
               (set_focusedPanel right_panel
                  (set_mode detail_mode (set_selectedCommentIndex 0 sampleState)))),
          render_action).
Proof.
  assert (H0 : 0 <= selectedCommentIndex (set_selectedCommentIndex 0 sampleState))
    by (simpl; lia).
  exact (proj1 (detail_view_round_trip (set_selectedCommentIndex 0 sampleState)
                  rightKey escapeKey (or_introl eq_refl) (or_introl eq_refl)
                  eq_refl eq_refl H0)).
Defined.

(** ** Centring *)

Lemma splitLinesGo_line l : forall cur,
  Forall (fun c => c <> Chars.LF) l ->
  splitLinesGo cur l = [cur ++ l]
  /\ forall rest, splitLinesGo cur (l ++ Chars.LF :: rest)
                  = (cur ++ l) :: splitLinesGo [] rest.
Proof.
  induction l as [|c t IH]; intros cur Hl.
  - rewrite app_nil_r. split; [reflexivity|]. intros rest. reflexivity.
  - inversion Hl as [|? ? Hc Ht]; subst.
    cbn [app splitLinesGo]. destruct (N.eqb_spec c Chars.LF); [contradiction|].
    destruct (IH (cur ++ [c]) Ht) as [E1 E2]. rewrite <- !app_assoc in *.
    split; [exact E1|exact E2].
Qed.

(** Splitting takes back a join, for lines without line feeds. *)
Lemma splitLines_join ls :
  ls <> [] -> Forall (Forall (fun c => c <> Chars.LF)) ls ->
  splitLines (join [Chars.LF] ls) = ls.
Proof.
  unfold splitLines. induction ls as [|l ls IH]; [congruence|]. intros _ Hall.
  inversion Hall as [|? ? Hl Hls]; subst.
  destruct ls as [|l' ls'].
  - cbn [join]. apply (splitLinesGo_line l [] Hl).
  - change (join [Chars.LF] (l :: l' :: ls'))
      with (l ++ Chars.LF :: join [Chars.LF] (l' :: ls')).
    rewrite (proj2 (splitLinesGo_line l [] Hl)). cbn [app]. f_equal.
    apply IH; [discriminate|exact Hls].
Qed.

Lemma splitLinesGo_lines s : forall cur,
  Forall (fun c => c <> Chars.LF) cur ->
  splitLinesGo cur s <> []
  /\ Forall (Forall (fun c => c <> Chars.LF)) (splitLinesGo cur s).
Proof.
  induction s as [|c t IH]; intros cur Hcur; cbn [splitLinesGo].
  - split; [discriminate|]. constructor; [exact Hcur|constructor].
  - destruct (N.eqb_spec c Chars.LF).
    + split; [discriminate|]. constructor; [exact Hcur|]. apply IH. constructor.
    + apply IH. apply Forall_app. split; [exact Hcur|]. constructor; [exact n|constructor].
Qed.

Lemma stripAnsi_blanks_before n line :
  stripAnsi (repeat 32%N n ++ line) = repeat 32%N n ++ stripAnsi line.
Proof.
  induction n as [|n IH]; [reflexivity|].
  cbn [repeat app]. rewrite stripAnsi_visible by discriminate. now rewrite IH.
Qed.

(** X22. [centerText] keeps the lines of a text and only moves each one
    to the right: splitting its result gives the lines of the text, each
    behind its blanks.  A line that fits the width ends up centred, the
    margin on its right being the one on its left or one more; a line that
    does not fit is left as it is. *)
Theorem centerText_moves_lines (text : jsstring) (width : Z) :
  splitLines (centerText text width)
  = List.map (fun line => repeat 32%N (centerPadding width line) ++ line)
             (splitLines text)
  /\ forall line,
       let padded := repeat 32%N (centerPadding width line) ++ line in
       let left := Z.of_nat (centerPadding width line) in
       visibleLength padded = left + visibleLength line
       /\ (visibleLength line <= width ->
           0 <= (width - visibleLength padded) - left <= 1)
       /\ (width <= visibleLength line -> padded = line).
Proof.
  split.
  - unfold centerText.
    destruct (splitLinesGo_lines text [] (Forall_nil _)) as [Hne Hall].
    fold (splitLines text) in Hne, Hall.
    apply splitLines_join.
    + destruct (splitLines text); [congruence|discriminate].
    + apply Forall_forall. intros padded Hin.
      apply in_map_iff in Hin as (line & <- & Hline).
      rewrite Forall_forall in Hall. apply Forall_app. split.
      * apply Forall_forall. intros c Hc. apply repeat_spec in Hc as ->. discriminate.
      * apply Hall. first [exact Hline | now apply list_elem_of_In].
  - intros line. cbv zeta.
    assert (Hv : visibleLength (repeat 32%N (centerPadding width line) ++ line)
                 = Z.of_nat (centerPadding width line) + visibleLength line).
    { unfold visibleLength at 1. rewrite stripAnsi_blanks_before.
      unfold jslen. rewrite length_app, repeat_length. unfold visibleLength, jslen. lia. }
    split; [exact Hv|]. split.
    + intros Hfit. rewrite Hv. unfold centerPadding.
      pose proof (Z.div_mod (width - visibleLength line) 2 ltac:(lia)) as Hd.
      pose proof (Z.mod_pos_bound (width - visibleLength line) 2 ltac:(lia)) as Hb.
      lia.
    + intros Hwide. unfold centerPadding.
      assert ((width - visibleLength line) / 2 <= 0).
      { apply Z.div_le_upper_bound; lia. }
      replace (Z.to_nat (Z.max 0 ((width - visibleLength line) / 2))) with 0%nat by lia.
      reflexivity.
Qed.

(** ** The key handler and the parser of [ui.ts] *)

Ltac ui_key_names H :=
  unfold Ui.handleKeypress;
  rewrite (named_of _ _ "q" H), (named_of _ _ "c" H), (named_of _ _ "tab" H),
    (named_of _ _ "up" H), (named_of _ _ "k" H), (named_of _ _ "down" H),
    (named_of _ _ "j" H), (named_of _ _ "right" H), (named_of _ _ "return" H),
    (named_of _ _ "left" H), (named_of _ _ "escape" H), (named_of _ _ "r" H);
  repeat match goal with
         | |- context [bool_decide (js ?a = js ?b)] =>
             let v := eval vm_compute in (bool_decide (js a = js b)) in
             change (bool_decide (js a = js b)) with v
         end.

Lemma ui_toggleSelected_twice st file :
  at_index (Ui.files st) (Ui.selectedFileIndex st) = Some file ->
  Ui.toggleSelected st
  = Ui.withFiles (<[Z.to_nat (Ui.selectedFileIndex st) :=
                      set_expanded (negb (expanded file)) file]> (Ui.files st)) st
  /\ Ui.toggleSelected (Ui.toggleSelected st) = st.
Proof.
  intros Hf. pose proof Hf as Hf'. apply at_index_lookup in Hf' as [Hi Hl].
  assert (E : Ui.toggleSelected st
              = Ui.withFiles (<[Z.to_nat (Ui.selectedFileIndex st) :=
                                  set_expanded (negb (expanded file)) file]> (Ui.files st)) st).
  { unfold Ui.toggleSelected. now rewrite Hf. }
  split; [exact E|]. rewrite E. unfold Ui.toggleSelected.
  cbn [Ui.files Ui.selectedFileIndex Ui.withFiles].
  assert (Hf1 : at_index (<[Z.to_nat (Ui.selectedFileIndex st) :=
                              set_expanded (negb (expanded file)) file]> (Ui.files st))
                         (Ui.selectedFileIndex st)
                = Some (set_expanded (negb (expanded file)) file)).
  { apply at_index_lookup. split; [exact Hi|].
    apply list_lookup_insert_eq. eapply lookup_lt_Some, Hl. }
  rewrite Hf1, set_expanded_twice, list_insert_insert_eq, list_insert_id by exact Hl.
  destruct st; reflexivity.
Qed.

(** X23. In the key handler of [ui.ts], [Tab] flips the [expanded] flag of
    the selected file, changes nothing else and calls no callback; pressing
    it again gives back the state it started from. *)
Theorem ui_tab_toggles_expansion (st : Ui.ReviewState) (key : Key) (file : FileGroup) :
  name key = Some (js "tab") ->
  at_index (Ui.files st) (Ui.selectedFileIndex st) = Some file ->
  Ui.handleKeypress st key
  = (Ui.withFiles (<[Z.to_nat (Ui.selectedFileIndex st) :=
                       set_expanded (negb (expanded file)) file]> (Ui.files st)) st, [])
  /\ Ui.handleKeypress (fst (Ui.handleKeypress st key)) key = (st, []).
Proof.
  intros Hname Hf.
  assert (Hkey : forall s, Ui.handleKeypress s key = (Ui.toggleSelected s, [])).
  { intros s. ui_key_names Hname. cbn [orb andb]. rewrite andb_false_r. reflexivity. }
  destruct (ui_toggleSelected_twice st file Hf) as [E1 E2].
  rewrite !Hkey. cbn [fst]. rewrite E2. split; [now rewrite E1|reflexivity].
Qed.

Lemma ui_tab_toggles_expansion_sample :
  expanded <$> Ui.files (fst (Ui.handleKeypress (Ui.createReviewState [leak; race; typo])
                                tabKey)) !! 0%nat
  = Some false.
Proof.
  rewrite (proj1 (ui_tab_toggles_expansion (Ui.createReviewState [leak; race; typo]) tabKey
                    {| filePath := js "src/a.ts"; comments := [leak; race];
                       expanded := true |} eq_refl eq_refl)).
  reflexivity.
Defined.

Lemma substring_prefix s n : 0 <= n -> substring s 0 n = take (Z.to_nat n) s.
Proof.
  intros Hn. unfold substring, jslen. cbv zeta.
  replace (Z.to_nat (Z.min (Z.min (Z.max 0 0) (Z.of_nat (length s)))
                           (Z.min (Z.max n 0) (Z.of_nat (length s))))) with 0%nat by lia.
  rewrite drop_0.
  replace (Z.to_nat (Z.max (Z.min (Z.max 0 0) (Z.of_nat (length s)))
                           (Z.min (Z.max n 0) (Z.of_nat (length s)))
                     - Z.min (Z.min (Z.max 0 0) (Z.of_nat (length s)))
                             (Z.min (Z.max n 0) (Z.of_nat (length s)))))
    with (Z.to_nat n `min` length s)%nat by lia.
  destruct (Nat.le_ge_cases (Z.to_nat n) (length s)) as [Hle|Hge].
  - now rewrite Nat.min_l.
  - rewrite Nat.min_r by exact Hge. rewrite !take_ge by lia. reflexivity.
Qed.

(** X24. In the key handler of [ui.ts], [c] on a selected comment leaves
    the state as it is and hands [onCopyPrompt] the [aiPrompt] that
    [parseComment] finds, when it is not empty.  That prompt has no white
    space at either end, and for a comment without a "Prompt for AI" section
    it is the [aiPrompt] the parser of [review.ts] returns. *)
Theorem ui_copy_emits_parsed_prompt
    (st : Ui.ReviewState) (key : Key) (file : FileGroup) (comment : Api.ReviewComment) :
  name key = Some (js "c") -> ctrl key = false ->
  at_index (Ui.files st) (Ui.selectedFileIndex st) = Some file ->
  at_index (comments file) (Ui.selectedCommentIndex st) = Some comment ->
  let prompt := Ui.aiPrompt (Ui.parseComment (Api.content comment)) in
  Ui.handleKeypress st key
  = (st, if truthy prompt then [Ui.CopyPrompt prompt] else [])
  /\ trimmed prompt
  /\ (search true rePromptForAI (Api.content comment) = None ->
      prompt = aiPrompt (parseCommentMetadata (Api.content comment))).
Proof.
  intros Hname Hctrl Hf Hc prompt. split; [|split].
  - ui_key_names Hname. rewrite Hctrl. cbn [orb andb].
    unfold Ui.copyEffects. rewrite Hf, Hc. fold prompt.
    now rewrite app_nil_r.
  - unfold prompt, Ui.parseComment. cbn [Ui.aiPrompt].
    destruct (search true reOldPrompt _); [apply trimmed_trim|apply trimmed_nil].
  - intros Hnew. unfold prompt, Ui.parseComment, parseCommentMetadata.
    cbn [Ui.aiPrompt aiPrompt]. unfold parseAiPrompt. now rewrite Hnew.
Qed.

Lemma ui_copy_emits_parsed_prompt_sample :
  snd (Ui.handleKeypress (Ui.createReviewState [inlinePromptComment]) copyKey)
  = [Ui.CopyPrompt (js ("Add a null check" ++ nl ++ "before the call."))].
Proof.
  rewrite (proj1 (ui_copy_emits_parsed_prompt (Ui.createReviewState [inlinePromptComment])
                    copyKey
                    {| filePath := js "src/a.ts"; comments := [inlinePromptComment];
                       expanded := true |}
                    inlinePromptComment eq_refl eq_refl eq_refl eq_refl)).
  vm_compute. reflexivity.
Defined.

(** X25. Whatever the content, [parseComment] of [ui.ts] returns a title
    and a severity that are not empty, and a description that is one line
    of at most 200 characters. *)
Theorem ui_parseComment_wellformed (content : jsstring) :
  let parsed := Ui.parseComment content in
  Ui.title parsed <> []
  /\ Ui.severity parsed <> []
  /\ jslen (Ui.description parsed) <= 200
  /\ Forall (fun c => c <> Chars.LF) (Ui.description parsed).
Proof.
  cbv zeta. unfold Ui.parseComment.
  cbn [Ui.title Ui.severity Ui.description].
  assert (Hor : forall g (d : string), js d <> [] -> orElse g (js d) <> []).
  { intros g d Hd. unfold orElse. destruct (truthy g) eqn:E;
      [now apply truthy_nonempty|exact Hd]. }
  repeat apply conj.
  - apply Hor. discriminate.
  - apply Hor. discriminate.
  - rewrite substring_prefix by lia. unfold jslen. rewrite length_take. lia.
  - rewrite substring_prefix by lia.
    match goal with |- context [splitLines ?d] =>
      destruct (splitLinesGo_lines d [] (Forall_nil _)) as [_ Hall];
      fold (splitLines d) in Hall;
      destruct (splitLines d) as [|l rest]
    end; [constructor|].
    inversion Hall as [|? ? Hl _]; subst.
    apply Forall_take. exact Hl.
Qed.

(** ** What the keys never touch *)

(** X26. No key adds, removes or changes a comment: whatever the key,
    [handleKeypress] leaves the paths and the comment lists of the file
    groups, the two counters, the status, the spinner frame and the
    analysis id as they are (it can only flip an [expanded] flag, move the
    cursor, change mode and focus, and scroll). *)
Theorem keys_never_change_comments
    (st st' : ReviewState) (key : option Key) (a : Action) :
  handleKeypress st key = Some (st', a) ->
  filePath <$> files st' = filePath <$> files st
  /\ comments <$> files st' = comments <$> files st
  /\ totalComments st' = totalComments st
  /\ resolvedComments st' = resolvedComments st
  /\ status st' = status st
  /\ spinnerFrame st' = spinnerFrame st
  /\ dataId st' = dataId st.
Proof.
  intros Hk.
  destruct (quiet_handleKeypress _ _ _ _ Hk) as (Hstatus & Hspin & _).
  assert (Hid : dataId st' = dataId st).
  { revert Hk. unfold handleKeypress. destruct key as [key|];
      [|intros H; inversion H; reflexivity].
    intros H.
    repeat match type of H with
           | context [if ?b then _ else _] => destruct b
           | context [match navigateUp ?x with Some _ => _ | None => _ end] =>
               destruct (navigateUp x) as [up|] eqn:Hup
           end;
      inversion H; subst; clear H; try reflexivity;
      unfold afterMove, toggleExpanded, navigateDown, resetDetailScroll;
      try (revert Hup; unfold navigateUp, resetDetailScroll; intros Hup;
           repeat match type of Hup with
                  | context [if ?b then _ else _] => destruct b
                  | context [match ?x with Some _ => _ | None => _ end] => destruct x
                  end;
           inversion Hup; subst; clear Hup);
      repeat match goal with
             | |- context [if ?b then _ else _] => destruct b
             | |- context [match ?x with Some _ => _ | None => _ end] => destruct x
             end;
      reflexivity. }
  destruct (handleKeypress_cases _ _ _ _ Hk)
    as [Hs|[(st1 & Hu & Hs)|[Hs|[-> Hc]]]].
  - destruct Hs as (Ef & _ & Et & Er). rewrite Ef. auto 10.
  - destruct Hs as (Ef & _ & Et & Er).
    destruct (navigateUp_counters _ _ Hu) as [E1 E2].
    rewrite Ef, (navigateUp_files _ _ Hu), Et, Er, E1, E2. auto 10.
  - destruct Hs as (Ef & _ & Et & Er).
    destruct (navigateDown_counters st) as [E1 E2].
    rewrite Ef, navigateDown_files, Et, Er, E1, E2. auto 10.
  - destruct (toggleExpanded_data st) as (Ep & Ec & E1 & E2). auto 10.
Qed.

Lemma keys_never_change_comments_sample :
  exists st', handleKeypress sampleState (Some returnKey) = Some (st', render_action)
              /\ comments <$> files st' = comments <$> files sampleState.
Proof.
  destruct (handleKeypress sampleState (Some returnKey)) as [[st' a]|] eqn:E;
    [|vm_compute in E; discriminate].
  assert (a = render_action) as ->.
  { assert (Ha : snd <$> handleKeypress sampleState (Some returnKey) = Some render_action)
      by (vm_compute; reflexivity).
    rewrite E in Ha. simpl in Ha. congruence. }
  exists st'. split; [reflexivity|].
  exact (proj1 (proj2 (keys_never_change_comments _ _ _ _ E))).
Defined.

(** ** Stripping colours *)

(** X27. On a string whose escape characters each start a complete colour
    sequence, [stripAnsi] removes every escape character, so stripping
    again changes nothing; a string without escape characters is returned
    as it is. *)
Theorem stripAnsi_strips_all (s : jsstring) :
  AnsiWF s ->
  Forall (fun c => c <> Chars.ESC) (stripAnsi s)
  /\ stripAnsi (stripAnsi s) = stripAnsi s
  /\ (Forall (fun c => c <> Chars.ESC) s -> stripAnsi s = s).
Proof.
  intros Hwf.
  assert (Hplain : forall p, Forall (fun c => c <> Chars.ESC) p -> stripAnsi p = p).
  { induction 1 as [|c p Hc _ IH]; [reflexivity|].
    rewrite stripAnsi_visible by exact Hc. now rewrite IH. }
  assert (Hclean : Forall (fun c => c <> Chars.ESC) (stripAnsi s)).
  { induction Hwf as [|c p Hc _ IH|params p Hp _ IH].
    - constructor.
    - rewrite stripAnsi_visible by exact Hc. constructor; assumption.
    - rewrite stripAnsi_escape by exact Hp. exact IH. }
  split; [exact Hclean|]. split; [now apply Hplain|apply Hplain].
Qed.

Lemma stripAnsi_strips_all_sample :
  AnsiWF redHello /\ stripAnsi redHello = js "hello world"
  /\ stripAnsi (stripAnsi redHello) = stripAnsi redHello.
Proof.
  split; [exact AnsiWF_redHello|]. split; [reflexivity|].
  exact (proj1 (proj2 (stripAnsi_strips_all redHello AnsiWF_redHello))).
Defined.
